(** * The GEMM k-loop generator (gemmstone, [pieces/k_loop.cxx])

    A shallow embedding of the code-generation logic of
    [Generator<hw>::kLoopSingle] and [Generator<hw>::kLoop]: the
    configuration arithmetic (lookaheads, SLM buffer rotation, remainder
    selection), the barrier protocol around SLM stores, the phase
    callbacks handed to the loop sequencer, and the outer-product event.

    C++ [int] values are modelled as [Z]; the source relies on them
    staying in range (signed overflow is undefined behaviour), so no
    wrap-around is written.  C++ [/] and [%] truncate towards zero and
    are [Z.quot] and [Z.rem]. *)

From Stdlib Require Import ZArith List Bool Lia.
Import ListNotations.
Local Open Scope Z_scope.

(** ** Configuration records

    Only the fields read by the modelled code are listed; the names are
    those of [GEMMProblem], [GEMMStrategy] and [GEMMState]. *)

Module Problem.
Record t := {
  Ta_isInteger : bool;            (* problem.Ta.isInteger() *)
  Tb_isInteger : bool;            (* problem.Tb.isInteger() *)
  needsASums : bool;
  needsBSums : bool;
  needsAGroupSums : bool;
  needsBGroupSums : bool;
  backward : bool;
  beta1 : bool;
  aOffset_isNone : bool;          (* problem.aOffset == ABOffset::None *)
  bOffset_isNone : bool;
  aoPtrDims : Z;
  boPtrDims : Z;
  aScale2D : bool;
  bScale2D : bool;
  aqGroupK : Z;
  bqGroupK : Z;
}.
End Problem.

Module Strategy.
Record t := {
  slmA : bool;
  slmB : bool;
  slmBuffers : Z;
  slmCopies : Z;
  A_copies : Z;
  B_copies : Z;
  ka_load : Z;
  kb_load : Z;
  kInterleaveChunk : Z;
  unrollM : Z;                    (* strategy.unroll[LoopM] *)
  unrollN : Z;                    (* strategy.unroll[LoopN] *)
  unrollK : Z;                    (* strategy.unroll[LoopK] *)
  unrollKSLM : Z;
  barrierFreq : Z;
  namedBarriersM : bool;          (* strategy.namedBarriers[LoopM] *)
  namedBarriersN : bool;
  splitBarrier : bool;
  strictFence : bool;
  slmFenceWARWA : bool;
  kParallelLocal : bool;
  fusePostOps : bool;
  cLoadAhead : bool;
  registerOutput : bool;          (* strategy.registerOutput() *)
  fuseBeta : bool;
  altFusedBeta : bool;
  prefetchA : Z;
  prefetchB : Z;
  prefetchC : Z;
  prefetchABL3 : Z;
}.
End Strategy.

(** Answers of routines declared in other headers ([compute_utils.hpp],
    [remask.hpp], [loop_sequencer.hpp]) and of the template parameter
    [hw], as the modelled code receives them. *)
Module Queries.
Record t := {
  outerProductCount : Z;          (* outerProductCount(hw, problem, strategy) *)
  minOuterProductCount : Z;       (* minOuterProductCount(hw, problem, strategy) *)
  needsRemaskA : bool;            (* needsRemask(Ta_load, true, A_layoutRem, ...) *)
  needsRemaskB : bool;            (* needsRemask(Tb_load, false, B_layoutRem, ...) *)
  Ta_load_bits : Z;
  Tb_load_bits : Z;
  hw_lt_XeHPG : bool;             (* hw < HW::XeHPG *)
  hw_eq_Gen12LP : bool;           (* hw == HW::Gen12LP *)
  hw_gt_Gen12LP : bool;           (* hw > HW::Gen12LP *)
  getLoopBias : Z;                (* ls.getLoopBias() *)
  getUnroll : Z;                  (* ls.getUnroll(), after ls.analyze() *)
  getCooldown : Z;                (* ls.getCooldown() *)
}.
End Queries.

(** ** SLM store address rotation ([slmBuffer], [doSLMStoreInc]) *)

(** [auto slmBuffer = [&](Iteration h) { return (h / unrollKSLM) % slmBuffers; };] *)
Definition slmBuffer (strategy : Strategy.t) (h : Z) : Z :=
  Z.rem (Z.quot h (Strategy.unrollKSLM strategy)) (Strategy.slmBuffers strategy).

(** The value [kIncSLMStore] computed at the head of [doSLMStoreInc]:
    [(slmBuffer(h) == slmBuffers - 1) ? -(slmBuffers - 1) : +1], then
    [kIncSLMStore *= unrollKSLM]. *)
Definition kIncSLMStore (strategy : Strategy.t) (h : Z) : Z :=
  (if slmBuffer strategy h =? Strategy.slmBuffers strategy - 1
   then - (Strategy.slmBuffers strategy - 1)
   else 1) * Strategy.unrollKSLM strategy.

(** Net store-address movement over [n] consecutive SLM store blocks, the
    first one at iteration [h]; successive blocks are [unrollKSLM] apart
    (the period of [reqSLMStore]). *)
Fixpoint netSLMStoreInc (strategy : Strategy.t) (h : Z) (n : nat) : Z :=
  match n with
  | O => 0
  | S k => kIncSLMStore strategy h
           + netSLMStoreInc strategy (h + Strategy.unrollKSLM strategy) k
  end.

(** ** Remainder prezeroing and remasking selection *)

Section RemainderSelection.
Variable problem : Problem.t.
Variable strategy : Strategy.t.
(** [state.ka_loadRem], [state.kb_loadRem] and
    [minOuterProductCount(hw, problem, strategy)]. *)
Variables ka_loadRem kb_loadRem minOPCount : Z.
(** Results of the two [needsRemask(...)] calls (defined in remask.hpp). *)
Variables needsRemaskA needsRemaskB : bool.

(** [bool readA = true, readB = true;] *)
Definition readA : bool := true.
Definition readB : bool := true.

Definition integerNoSums : bool :=
  Problem.Ta_isInteger problem && Problem.Tb_isInteger problem
  && negb (Problem.needsASums problem) && negb (Problem.needsBSums problem).

(** Initial values, before the integer special case. *)
Definition prezeroARem0 : bool :=
  negb (Strategy.slmA strategy) && (ka_loadRem <? minOPCount) && readA.
Definition prezeroBRem0 : bool :=
  negb (Strategy.slmB strategy) && (kb_loadRem <? minOPCount) && readB.

(** Final [(prezeroARem, prezeroBRem)] after
    [if (prezeroARem && prezeroBRem && Ta.isInteger() && ...)]. *)
Definition prezeroRem : bool * bool :=
  if prezeroARem0 && prezeroBRem0 && integerNoSums then
    if Strategy.unrollM strategy >=? Strategy.unrollN strategy
    then (false, prezeroBRem0)
    else (prezeroARem0, false)
  else (prezeroARem0, prezeroBRem0).

Definition prezeroARem : bool := fst prezeroRem.
Definition prezeroBRem : bool := snd prezeroRem.

Definition remaskA0 : bool :=
  negb (Strategy.slmA strategy) && readA && (minOPCount >? 1) && needsRemaskA.
Definition remaskB0 : bool :=
  negb (Strategy.slmB strategy) && readB && (minOPCount >? 1) && needsRemaskB.

(** Final [(remaskA, remaskB)] after the
    [if (Ta.isInteger() && Tb.isInteger() && !calcASums && !calcBSums)] block. *)
Definition remaskAB : bool * bool :=
  if integerNoSums then
    if remaskA0 && remaskB0 then
      if Strategy.unrollM strategy >=? Strategy.unrollN strategy
      then (false, remaskB0)
      else (remaskA0, false)
    else if Strategy.slmA strategy || Strategy.slmB strategy
         then (false, false)
         else (remaskA0, remaskB0)
  else (remaskA0, remaskB0).

Definition remaskA : bool := fst remaskAB.
Definition remaskB : bool := snd remaskAB.
End RemainderSelection.

(** ** Registers, instructions and the generator monad *)

(** A register handle ([GRF], [Subregister]): either invalid or
    identified by a number. *)
Inductive Reg := invalid | reg (id : nat).

Definition isValid (r : Reg) : bool :=
  match r with invalid => false | reg _ => true end.

Definition Reg_eqb (r1 r2 : Reg) : bool :=
  match r1, r2 with
  | invalid, invalid => true
  | reg a, reg b => Nat.eqb a b
  | _, _ => false
  end.

Inductive KBarrierType := Normal | Signal | Wait.

Definition KBarrierType_eqb (a b : KBarrierType) : bool :=
  match a, b with
  | Normal, Normal | Signal, Signal | Wait, Wait => true
  | _, _ => false
  end.

(** [LoopSequencer::Phase...] constants, in their declared order. *)
Inductive Phase :=
| PhaseWarmup | PhaseMainLoop | PhaseMainPathEnd | PhaseCooldown
| PhaseShortLoop | PhaseShortLoopEnd | PhaseRemainder.

Definition Phase_eqb (a b : Phase) : bool :=
  match a, b with
  | PhaseWarmup, PhaseWarmup | PhaseMainLoop, PhaseMainLoop
  | PhaseMainPathEnd, PhaseMainPathEnd | PhaseCooldown, PhaseCooldown
  | PhaseShortLoop, PhaseShortLoop | PhaseShortLoopEnd, PhaseShortLoopEnd
  | PhaseRemainder, PhaseRemainder => true
  | _, _ => false
  end.

(** Modelled from the spec: the Iteration Context of [loop_sequencer.hpp]
    (section 4.4): a logical position [h] that converts to its integer
    counter and carries the trip count, with [remaining(h) = total - h]. *)
Record Iteration := { counter : Z; total : Z }.

Definition remaining (h : Iteration) : Z := total h - counter h.

(** ngen's condition modifiers, as written after [1 |] in the source. *)
Inductive CondMod := cm_gt | cm_le | cm_lt | cm_eq.
Inductive Flag := f0_0 | flagAP.
Inductive NamedBarrier := barrierM | barrierN.
Inductive Header := barrierHeader_ | barrierHeaderM | barrierHeaderN.

(** Scalar registers that [kLoop] adds to or subtracts from the loop
    counter, and the labels it jumps to. *)
Inductive SReg := kNoBarrierStart_ | kNoBarrierEnd_ | outerK | pfCPeelK | l3PFPeelK.
Inductive Label :=
| lTop | lBottom | lNextTilePFL3 | lOut | lPeelDone
| labels (label : Z).               (* labels[label] *)

(** Second source operand of an instruction on the loop counter:
    an immediate, a register, or a negated register. *)
Inductive Src := imm (z : Z) | sreg (r : SReg) | sneg (r : SReg).

(** Routines of other files that append instructions of their own; a call
    is recorded in the stream in place of the instructions it emits. *)
Inductive Helper :=
| zeroMatrix_As | zeroMatrix_Bs | zeroMatrix_C (buf : nat)
| gemmFusedBetaNotifyCompletion
| gemmPrefetchC | gemmInitL3Prefetch
| storeMatrix_Ao | storeMatrix_Bo
| accumulateSum_A | accumulateSum_B
| wrdepRanges_A | wrdepRanges_B
| teardownRemask_A | teardownRemask_B
| deallocVFlagStorage
| gemmScheduleL3Prefetches | gemmScheduleL3PrefetchIncs
| raVFlag_lock_flagAP | activeVFlags_clear_flagAP | wipeActiveVFlags
| outerProduct (h ha hb oc : Z) (rem : bool)
| accumulateSum_Ar (h0 h1 : Z) | accumulateSum_Br (h0 h1 : Z).

(** The instructions the modelled code issues directly. *)
Inductive Instr :=
| mov_K_kInput                     (* mov(1, state.K, kInput) *)
| mov_acc_zero (i : nat)           (* mov<uint32_t>(.., AccumulatorRegister(i), 0) *)
| add_K (cmod : option (CondMod * Flag)) (src : Src)
                                   (* add(1 | cmod, state.K, state.K, src) *)
| add_sat_outerK (fromK : bool) (z : Z)
                                   (* add(1 | sat, outerK, K or outerK, z) *)
| cmp_K (cmod : CondMod * Flag) (z : Z)
                                   (* cmp(1 | cmod, state.K, z) *)
| cmp_l3PFPeelK                    (* cmp(1 | eq | flagAP, l3PFPeelK, 0) *)
| mov_sreg (dst : SReg) (z : Z)    (* mov(1, dst, z) *)
| min_pfCPeelK (z : Z)             (* min_(1, pfCPeelK, state.K, z) *)
| min_K (z : Z)                    (* min_(1, state.K, state.K, z) *)
| sync_nop                         (* sync.nop(SWSB(..)) *)
| jmpi (pred : option bool) (l : Label)
                                   (* jmpi(1 | flagAP, l), jmpi(1 | ~flagAP, l) *)
| mark (l : Label)
| slmfence
| fencewait
| barrierheader
| barriermsg (header : Header)
| barrierwait
| sync_bar (b : NamedBarrier)
| call (f : Helper).

Inductive Exn := stub_exception | out_of_registers_exception | helper_exception.

Inductive Result (A : Type) := Ok (a : A) | Throw (e : Exn).
Arguments Ok {A} a.
Arguments Throw {A} e.

(** The register allocator [state.ra] and the untouched remainder of
    [GEMMState] belong to other files. *)
Class Platform := {
  RA : Type;
  Rest : Type;
  (** [ra.alloc()] / [ra.alloc_sub()]: [None] when it throws. *)
  alloc : RA -> option (nat * RA);
  (** [ra.try_alloc()]: an invalid register when none is free. *)
  try_alloc : RA -> Reg * RA;
  release : Reg -> RA -> RA;
  (** [ra.safeRelease(r)]: the new value of [r] and of the allocator. *)
  safeRelease : Reg -> RA -> Reg * RA;
}.

Module State.
Record Params := {
  k : Reg;                        (* state.k, the incoming loop count *)
  isNested : bool;
  firstKLoopSegment : bool;
  C_accCount : Z;
  C_buffers : Z;
  r0_info_isARF : bool;
  kNoBarrierStart : Reg;
  kNoBarrierEnd : Reg;
  ka_loadRem : Z;
  kb_loadRem : Z;
  kaq : Z;
  kbq : Z;
  lateScale2DA : bool;
  lateScale2DB : bool;
  splitBarrierAlways : bool;
  lateKLoopCheck : bool;
  vflagsEnabled : bool;           (* state.vflagsEnabled() *)
  slmASums : bool;
  slmBSums : bool;
  repackA : bool;
  ka_repack : Z;
  ka_repackRem : Z;
  systolicSumA : bool;
  systolicSumB : bool;
  A_layout_colMajor : bool;       (* state.A_layout.colMajor() *)
  B_layout_colMajor : bool;
}.

Record t {P : Platform} := {
  params : Params;
  K : Reg;
  remActiveA : bool;
  remActiveB : bool;
  remActiveSLM : bool;
  kSLMA : Reg;
  kSLMB : Reg;
  kSLMStorage : Reg;
  lastThresh : Z;
  barrierHeader : Reg;
  barrierReady : bool;
  ra : RA;
  rest : Rest;
}.

Section Setters.
Context {P : Platform}.
Definition set_K (v : Reg) (s : t) : t :=
  {| params := params s; K := v; remActiveA := remActiveA s;
     remActiveB := remActiveB s; remActiveSLM := remActiveSLM s;
     kSLMA := kSLMA s; kSLMB := kSLMB s; kSLMStorage := kSLMStorage s;
     lastThresh := lastThresh s; barrierHeader := barrierHeader s;
     barrierReady := barrierReady s; ra := ra s; rest := rest s |}.
Definition set_remActive (a b slm : bool) (s : t) : t :=
  {| params := params s; K := K s; remActiveA := a;
     remActiveB := b; remActiveSLM := slm;
     kSLMA := kSLMA s; kSLMB := kSLMB s; kSLMStorage := kSLMStorage s;
     lastThresh := lastThresh s; barrierHeader := barrierHeader s;
     barrierReady := barrierReady s; ra := ra s; rest := rest s |}.
Definition set_kSLM (a b storage : Reg) (s : t) : t :=
  {| params := params s; K := K s; remActiveA := remActiveA s;
     remActiveB := remActiveB s; remActiveSLM := remActiveSLM s;
     kSLMA := a; kSLMB := b; kSLMStorage := storage;
     lastThresh := lastThresh s; barrierHeader := barrierHeader s;
     barrierReady := barrierReady s; ra := ra s; rest := rest s |}.
Definition set_lastThresh (v : Z) (s : t) : t :=
  {| params := params s; K := K s; remActiveA := remActiveA s;
     remActiveB := remActiveB s; remActiveSLM := remActiveSLM s;
     kSLMA := kSLMA s; kSLMB := kSLMB s; kSLMStorage := kSLMStorage s;
     lastThresh := v; barrierHeader := barrierHeader s;
     barrierReady := barrierReady s; ra := ra s; rest := rest s |}.
Definition set_barrierHeader (v : Reg) (s : t) : t :=
  {| params := params s; K := K s; remActiveA := remActiveA s;
     remActiveB := remActiveB s; remActiveSLM := remActiveSLM s;
     kSLMA := kSLMA s; kSLMB := kSLMB s; kSLMStorage := kSLMStorage s;
     lastThresh := lastThresh s; barrierHeader := v;
     barrierReady := barrierReady s; ra := ra s; rest := rest s |}.
Definition set_barrierReady (v : bool) (s : t) : t :=
  {| params := params s; K := K s; remActiveA := remActiveA s;
     remActiveB := remActiveB s; remActiveSLM := remActiveSLM s;
     kSLMA := kSLMA s; kSLMB := kSLMB s; kSLMStorage := kSLMStorage s;
     lastThresh := lastThresh s; barrierHeader := barrierHeader s;
     barrierReady := v; ra := ra s; rest := rest s |}.
Definition set_ra (v : RA) (s : t) : t :=
  {| params := params s; K := K s; remActiveA := remActiveA s;
     remActiveB := remActiveB s; remActiveSLM := remActiveSLM s;
     kSLMA := kSLMA s; kSLMB := kSLMB s; kSLMStorage := kSLMStorage s;
     lastThresh := lastThresh s; barrierHeader := barrierHeader s;
     barrierReady := barrierReady s; ra := v; rest := rest s |}.
End Setters.
End State.

(** What a helper of another file does to [GEMMState] ([None]: it throws). *)
Class Helpers {P : Platform} := {
  runHelper : Helper -> State.t -> option State.t;
}.

(** Locals of [kLoop] that its lambdas capture by reference. *)
Record Locals {P : Platform} := {
  curPhase : option Phase;          (* [int curPhase;], unset until the first NotifyPhase *)
  haveA_lastRSWA : bool;
  didForceActivateRemA : bool;
  didForceActivateRemB : bool;
  statePreLoop : State.t;           (* [auto statePreLoop = state;] *)
  hadVFlags : bool;                 (* [bool hadVFlags = state.vflagsEnabled();] *)
}.

(** The build context every lambda works on: [state], the captured
    locals, and the instruction stream emitted so far (oldest first). *)
Record Build {P : Platform} := {
  state : State.t;
  locals : Locals;
  code : list Instr;
}.

Definition Gen {P : Platform} (A : Type) : Type := Build -> Result A * Build.

Section GenMonad.
Context {P : Platform}.

Definition ret {A} (a : A) : Gen A := fun b => (Ok a, b).

Definition bind {A B} (c : Gen A) (k : A -> Gen B) : Gen B :=
  fun b => match c b with
           | (Ok a, b') => k a b'
           | (Throw e, b') => (Throw e, b')
           end.

Definition throw {A} (e : Exn) : Gen A := fun b => (Throw e, b).

(** [stub()] throws. *)
Definition stub : Gen unit := throw stub_exception.

Definition emit (i : Instr) : Gen unit :=
  fun b => (Ok tt, {| state := state b; locals := locals b;
                      code := code b ++ [i] |}).

Definition getState : Gen State.t := fun b => (Ok (state b), b).

Definition putState (s : State.t) : Gen unit :=
  fun b => (Ok tt, {| state := s; locals := locals b; code := code b |}).

Definition getLocals : Gen Locals := fun b => (Ok (locals b), b).

Definition putLocals (l : Locals) : Gen unit :=
  fun b => (Ok tt, {| state := state b; locals := l; code := code b |}).

Definition when (c : bool) (g : Gen unit) : Gen unit :=
  if c then g else ret tt.
End GenMonad.

Notation "x <- c ;; k" := (bind c (fun x => k))
  (at level 61, c at next level, right associativity).
Notation "c ;; k" := (bind c (fun _ => k))
  (at level 61, right associativity).

Section Calls.
Context {P : Platform} {H : Helpers}.

(** A call into another file: recorded in the stream, then applied to
    [state]. *)
Definition callHelper (f : Helper) : Gen unit :=
  emit (call f);;
  st <- getState;;
  match runHelper f st with
  | Some st' => putState st'
  | None => throw helper_exception
  end.
End Calls.

(** ** Locals of [kLoop] computed from the configuration *)

Section Derived.
Variable problem : Problem.t.
Variable strategy : Strategy.t.
Variable q : Queries.t.
(** The scalar fields of [state] as [kLoop] copies them on entry. *)
Variable kp : State.Params.

Definition nonzero (z : Z) : bool := negb (z =? 0).

Definition needBarrier : bool :=
  Strategy.slmA strategy || Strategy.slmB strategy
  || (Strategy.barrierFreq strategy >? 0).
Definition nbM : bool :=
  (Strategy.slmA strategy || nonzero (Strategy.barrierFreq strategy))
  && Strategy.namedBarriersM strategy.
Definition nbN : bool :=
  (Strategy.slmB strategy || nonzero (Strategy.barrierFreq strategy))
  && Strategy.namedBarriersN strategy.
Definition needUnnamedBarrier : bool :=
  (Strategy.slmA strategy && negb nbM) || (Strategy.slmB strategy && negb nbN)
  || (nonzero (Strategy.barrierFreq strategy) && negb nbM && negb nbN).

Definition noFinalBarrier : bool :=
  isValid (State.kNoBarrierStart kp) || isValid (State.kNoBarrierEnd kp).
Definition barrierTask : bool :=
  (Strategy.barrierFreq strategy >? 0)
  && (Strategy.barrierFreq strategy <=? Strategy.unrollK strategy)
  && negb noFinalBarrier.
Definition barrierSubloop : bool :=
  (Strategy.barrierFreq strategy >? 0) && negb barrierTask.

Definition matchBarriers : bool :=
  Strategy.kParallelLocal strategy && needUnnamedBarrier.
Definition saveK : bool :=
  State.isNested kp || matchBarriers || Strategy.fusePostOps strategy
  || (negb (Problem.aOffset_isNone problem)
      && negb (Problem.bOffset_isNone problem)).

(** [switch (slmBuffers)]: [None] is the [default: stub()] arm. *)
Definition slmBufferLA : option Z :=
  let n := Strategy.slmBuffers strategy in
  if (n =? 0) || (n =? 1) then Some 0
  else if (n =? 2) || (n =? 3) then Some 1
  else if n =? 4 then Some 2
  else None.

Definition lookaheadALoad : Z :=
  Strategy.ka_load strategy * (Strategy.A_copies strategy - 1).
Definition lookaheadBLoad : Z :=
  Strategy.kb_load strategy * (Strategy.B_copies strategy - 1).
Definition lookaheadALoadRem : Z :=
  State.ka_loadRem kp * (Strategy.A_copies strategy - 1).
Definition lookaheadBLoadRem : Z :=
  State.kb_loadRem kp * (Strategy.B_copies strategy - 1).

(** The three checks under [if (slmA && slmB)]. *)
Definition lookaheadMismatch : bool :=
  Strategy.slmA strategy && Strategy.slmB strategy
  && (negb (lookaheadALoad =? lookaheadBLoad)
      || negb (lookaheadALoadRem =? lookaheadBLoadRem)
      || (negb (Strategy.ka_load strategy =? Strategy.kb_load strategy)
          && negb (lookaheadALoad =? lookaheadALoadRem))).




(** 2D quantization parameters handled through SLM. *)
Definition slmDequantize2DA : bool :=
  let ao2D := Problem.aoPtrDims problem =? 2 in
  let as2D := Problem.aScale2D problem in
  let ao2DLate := ao2D && Problem.needsBGroupSums problem in
  let as2DLate := as2D && State.lateScale2DA kp in
  let ao2D := ao2D && negb ao2DLate in
  let as2D := as2D && negb as2DLate in
  (ao2D || as2D) && Strategy.slmA strategy.
Definition slmDequantize2DB : bool :=
  let bo2D := Problem.boPtrDims problem =? 2 in
  let bs2D := Problem.bScale2D problem in
  let bo2DLate := bo2D && Problem.needsAGroupSums problem in
  let bs2DLate := bs2D && State.lateScale2DB kp in
  let bo2D := bo2D && negb bo2DLate in
  let bs2D := bs2D && negb bs2DLate in
  (bo2D || bs2D) && Strategy.slmB strategy.

Definition capInterleave (k : Z) : Z :=
  if nonzero (Strategy.kInterleaveChunk strategy)
  then Z.min k (Strategy.kInterleaveChunk strategy) else k.
Definition kaq_load : Z := capInterleave (Problem.aqGroupK problem * State.kaq kp).
Definition kbq_load : Z := capInterleave (Problem.bqGroupK problem * State.kbq kp).

Definition remaskA_ : bool :=
  remaskA problem strategy (Queries.minOuterProductCount q)
          (Queries.needsRemaskA q) (Queries.needsRemaskB q).
Definition remaskB_ : bool :=
  remaskB problem strategy (Queries.minOuterProductCount q)
          (Queries.needsRemaskA q) (Queries.needsRemaskB q).

(** [iremaskA = 0, iremaskB = 1], merged when both operands are remasked
    with element types of equal width. *)
Definition iremaskA : Z := 0.
Definition iremaskB : Z :=
  if remaskA_ && remaskB_
     && (Queries.Ta_load_bits q =? Queries.Tb_load_bits q)
  then iremaskA else 1.

(** [div_up(a, b)] of the common utilities: [(a + b - 1) / b]. *)
Definition div_up (a b : Z) : Z := Z.quot (a + b - 1) b.

Definition prefetchCPeelLoops : Z :=
  if Strategy.prefetchC strategy >? 0
  then div_up (Z.max 0 (Strategy.prefetchC strategy - Queries.getCooldown q))
              (Strategy.unrollK strategy)
  else -1.
End Derived.

(** ** The lambdas of [kLoop] *)

Section KLoop.
Context {P : Platform} {H : Helpers}.
Variable problem : Problem.t.
Variable strategy : Strategy.t.
Variable q : Queries.t.

Fixpoint forEach {A} (l : list A) (f : A -> Gen unit) : Gen unit :=
  match l with
  | [] => ret tt
  | x :: l' => f x;; forEach l' f
  end.

(** A helper that only updates [state] (no instruction of its own). *)
Definition stateHelper (f : Helper) : Gen unit :=
  st <- getState;;
  match runHelper f st with
  | Some st' => putState st'
  | None => throw helper_exception
  end.

(** *** Barrier and fence handling *)

Definition getFenceTemp : Gen Reg :=
  st <- getState;;
  let (temp, ra') := try_alloc (State.ra st) in
  if isValid temp then putState (State.set_ra ra' st);; ret temp
  else if isValid (State.barrierHeader st)
       then putState (State.set_barrierReady false st);;
            ret (State.barrierHeader st)
       else throw out_of_registers_exception.

Definition releaseFenceTemp (temp : Reg) : Gen unit :=
  st <- getState;;
  if isValid temp && negb (Reg_eqb temp (State.barrierHeader st))
  then putState (State.set_ra (release temp (State.ra st)) st)
  else ret tt.

Definition slmFenceIssue : Gen unit :=
  slmFenceTemp <- getFenceTemp;;
  emit slmfence;;
  releaseFenceTemp slmFenceTemp.

Definition kLoopAllocBarrierHeader : Gen unit :=
  st <- getState;;
  if negb (isValid (State.barrierHeader st)) then
    match alloc (State.ra st) with
    | Some (r, ra') =>
        putState (State.set_barrierReady false
                    (State.set_barrierHeader (reg r) (State.set_ra ra' st)))
    | None => throw out_of_registers_exception
    end
  else ret tt.

Definition kLoopGetBarrierHeader : Gen Reg :=
  kLoopAllocBarrierHeader;;
  st <- getState;;
  (if negb (State.barrierReady st) then
     when (State.r0_info_isARF (State.params st)) stub;;
     emit barrierheader;;
     st <- getState;;
     putState (State.set_barrierReady true st)
   else ret tt);;
  st <- getState;;
  ret (State.barrierHeader st).

Definition isWait (t : KBarrierType) := KBarrierType_eqb t Wait.
Definition isSignal (t : KBarrierType) := KBarrierType_eqb t Signal.

Definition kLoopBarrier (withSLMFence : bool) (type : KBarrierType) : Gen unit :=
  when (withSLMFence && isWait type)
    (temp <- getFenceTemp;;
     emit slmfence;;
     emit fencewait;;
     releaseFenceTemp temp);;
  if negb (nbM strategy) && negb (nbN strategy) then
    when (negb (isWait type))
      (kLoopAllocBarrierHeader;;
       temp <- getFenceTemp;;
       when withSLMFence (emit slmfence;; emit fencewait);;
       _ <- kLoopGetBarrierHeader;;
       emit (barriermsg barrierHeader_);;
       releaseFenceTemp temp);;
    when (negb (isSignal type)) (emit barrierwait)
  else
    when (negb (isWait type))
      (when withSLMFence
         (temp <- getFenceTemp;;
          emit slmfence;;
          emit fencewait;;
          releaseFenceTemp temp);;
       when (nbM strategy) (emit (barriermsg barrierHeaderM));;
       when (nbN strategy) (emit (barriermsg barrierHeaderN)));;
    when (negb (isSignal type))
      (when (nbM strategy) (emit (sync_bar barrierM));;
       when (nbN strategy) (emit (sync_bar barrierN))).

(** *** SLM stores and their synchronization *)

Definition wrdeps : Gen unit :=
  when (Strategy.slmA strategy && (Strategy.A_copies strategy >? 1))
       (callHelper wrdepRanges_A);;
  when (Strategy.slmB strategy && (Strategy.B_copies strategy >? 1))
       (callHelper wrdepRanges_B).

Definition slm1x2xFencedBarrier : Gen unit :=
  if Queries.hw_lt_XeHPG q && negb (Strategy.strictFence strategy) then
    kLoopBarrier false Normal
  else if ((Strategy.A_copies strategy >? 2) || (Strategy.B_copies strategy >? 2))
          && negb (Strategy.slmFenceWARWA strategy) then
    kLoopBarrier true Normal
  else
    wrdeps;;
    kLoopBarrier false Normal.

Definition doSLMStore (h : Z) : Gen unit :=
  if negb (Strategy.slmA strategy) && negb (Strategy.slmB strategy) then ret tt
  else
    let n := Strategy.slmBuffers strategy in
    (if n =? 1 then slm1x2xFencedBarrier
     else if (n =? 2) || (n =? 3) || (n =? 4) then ret tt
     else stub);;
    when (Strategy.slmA strategy) (callHelper storeMatrix_Ao);;
    when (Strategy.slmB strategy) (callHelper storeMatrix_Bo);;
    st <- getState;;
    when (State.slmASums (State.params st)) (callHelper accumulateSum_A);;
    st <- getState;;
    when (State.slmBSums (State.params st)) (callHelper accumulateSum_B);;
    if n =? 1 then kLoopBarrier true Normal
    else if n =? 2 then slmFenceIssue;; emit fencewait
    else if n =? 3 then
      when (Strategy.slmFenceWARWA strategy) wrdeps;;
      kLoopBarrier true Signal
    else if n =? 4 then ret tt
    else stub.

(** *** From entry to the unroll check

    [kLoop] from its first statement to
    [if (ls.getUnroll() != unrollK) stub();].  Registering events with
    the sequencer emits nothing and is not represented. *)

(** Indices [0, 2, 4, ...] below [C_accCount]. *)
Definition accIndices (C_accCount : Z) : list nat :=
  map (fun j => (2 * j)%nat) (seq 0 (Z.to_nat ((C_accCount + 1) / 2))).

Definition initK : Gen unit :=
  st <- getState;;
  let kp := State.params st in
  let incomingK := isValid (State.K st) in
  (if negb incomingK then
     if saveK problem strategy kp then
       match alloc (State.ra st) with
       | Some (r, ra') => putState (State.set_K (reg r) (State.set_ra ra' st))
       | None => throw out_of_registers_exception
       end
     else putState (State.set_K (State.k kp) st)
   else ret tt);;
  when (saveK problem strategy kp && negb incomingK) (emit mov_K_kInput).

Definition zeroAccumulators : Gen unit :=
  st <- getState;;
  let kp := State.params st in
  when (State.firstKLoopSegment kp)
    (when (Problem.needsASums problem) (callHelper zeroMatrix_As);;
     when (Problem.needsBSums problem) (callHelper zeroMatrix_Bs);;
     when (negb (Strategy.cLoadAhead strategy)
           && negb (Strategy.registerOutput strategy && Problem.beta1 problem))
       (forEach (accIndices (State.C_accCount kp))
                (fun i => emit (mov_acc_zero i));;
        forEach (seq 0 (Z.to_nat (State.C_buffers kp)))
                (fun buf => callHelper (zeroMatrix_C buf)));;
     when (Strategy.fuseBeta strategy && negb (Strategy.altFusedBeta strategy))
       (callHelper gemmFusedBetaNotifyCompletion)).

(** Everything that precedes event registration. *)
Definition kLoopPreamble : Gen unit :=
  st <- getState;;
  putState (State.set_lastThresh 0 st);;
  when (needBarrier strategy && State.r0_info_isARF (State.params st)) stub;;
  when (Strategy.slmA strategy && Strategy.slmB strategy
        && negb (Bool.eqb (nbM strategy) (nbN strategy))) stub;;
  initK;;
  zeroAccumulators.

(** The checks made while the events are being registered. *)
Definition kLoopSchedule (kp : State.Params) : Gen unit :=
  when (match slmBufferLA strategy with None => true | Some _ => false end) stub;;
  when (lookaheadMismatch strategy kp) stub;;
  stateHelper gemmScheduleL3Prefetches;;
  when (slmDequantize2DA problem strategy kp
        && slmDequantize2DB problem strategy kp
        && negb (kaq_load problem strategy kp =? kbq_load problem strategy kp)) stub;;
  stateHelper gemmScheduleL3PrefetchIncs;;
  when ((remaskA_ problem strategy q || remaskB_ problem strategy q)
        && Problem.backward problem) stub.

Definition saveStatePreLoop : Gen unit :=
  st <- getState;;
  l <- getLocals;;
  putLocals {| curPhase := curPhase l;
               haveA_lastRSWA := haveA_lastRSWA l;
               didForceActivateRemA := didForceActivateRemA l;
               didForceActivateRemB := didForceActivateRemB l;
               statePreLoop := st;
               hadVFlags := hadVFlags l |}.

(** [ls.analyze(); if (ls.getUnroll() != unrollK) stub();] *)
Definition analyzeCheck : Gen unit :=
  when (negb (Queries.getUnroll q =? Strategy.unrollK strategy)) stub.

Definition kLoopUntilAnalyze : Gen unit :=
  st0 <- getState;;
  kLoopPreamble;;
  kLoopSchedule (State.params st0);;
  saveStatePreLoop;;
  analyzeCheck.
End KLoop.

(** ** Iteration-dependent locals and the scheduled events *)

Section Events.
Context {P : Platform} {H : Helpers}.
Variable problem : Problem.t.
Variable strategy : Strategy.t.
Variable q : Queries.t.
(** The scalar fields of [state] as [kLoop] copies them on entry. *)
Variable kp : State.Params.

Definition opCountMain : Z := Queries.outerProductCount q.
Definition minOPCount : Z := Queries.minOuterProductCount q.
Definition opCountRem : Z := minOPCount.

Definition A_remActive (h : Iteration) : bool :=
  remaining h <? Strategy.ka_load strategy - Z.rem (counter h) (Strategy.ka_load strategy).
Definition B_remActive (h : Iteration) : bool :=
  remaining h <? Strategy.kb_load strategy - Z.rem (counter h) (Strategy.kb_load strategy).
Definition opRemActive (h : Iteration) : bool :=
  remaining h <? opCountMain - Z.rem (counter h) opCountMain.
Definition ka_load (h : Iteration) : Z :=
  if A_remActive h then State.ka_loadRem kp else Strategy.ka_load strategy.
Definition kb_load (h : Iteration) : Z :=
  if B_remActive h then State.kb_loadRem kp else Strategy.kb_load strategy.
Definition ka_repack (h : Iteration) : Z :=
  if negb (State.repackA kp) then ka_load h
  else if A_remActive h then State.ka_repackRem kp else State.ka_repack kp.
Definition opCount (h : Iteration) : Z :=
  if opRemActive h then opCountRem else opCountMain.


Definition ka_sumMain : Z :=
  if negb (State.A_layout_colMajor kp) then Strategy.ka_load strategy else opCountMain.
Definition kb_sumMain : Z :=
  if State.B_layout_colMajor kp then Strategy.kb_load strategy else opCountMain.

Definition inMainLoop (l : Locals) : bool :=
  match curPhase l with Some ph => Phase_eqb ph PhaseMainLoop | None => false end.

(** The action scheduled with [reqOP]. *)
Definition outerProductEvent (h : Iteration) : Gen unit :=
  let oc := opCount h in
  let hNext := counter h + minOPCount in
  if negb (Z.rem hNext oc =? 0) then ret tt
  else
    let ka := ka_repack h in
    let kb := kb_load h in
    let ha := Z.rem (counter h) ka in
    let hb := Z.rem (counter h) kb in
    let ha := if Problem.backward problem then ka - 1 - ha else ha in
    let hb := if Problem.backward problem then kb - 1 - hb else hb in
    callHelper (outerProduct (counter h) ha hb oc (opRemActive h));;
    l <- getLocals;;
    when (Problem.needsASums problem && negb (State.slmASums kp)
          && negb (State.systolicSumA kp))
      (let ka_sum := if inMainLoop l then ka_sumMain else oc in
       let ha0 := ha - oc + minOPCount in
       when (Z.rem ha0 ka_sum =? 0)
            (callHelper (accumulateSum_Ar ha0 (ha0 + ka_sum))));;
    when (Problem.needsBSums problem && negb (State.slmBSums kp)
          && negb (State.systolicSumB kp))
      (let kb_sum := if inMainLoop l then kb_sumMain else oc in
       let hb0 := hb - oc + minOPCount in
       when (Z.rem hb0 kb_sum =? 0)
            (callHelper (accumulateSum_Br hb0 (hb0 + kb_sum)))).

(** The action and the check passed to [ls.schedule_if(reqLoopCheck, ...)]. *)
Definition loopCheckAction (h : Iteration) : Gen unit :=
  emit (add_K (Some (cm_gt, f0_0)) (imm (- Strategy.unrollK strategy)));;
  when (State.lateKLoopCheck kp)
    (stateHelper raVFlag_lock_flagAP;;
     st <- getState;;
     when (State.vflagsEnabled (State.params st))
          (stateHelper activeVFlags_clear_flagAP)).

Definition loopCheckGuard (h : Iteration) : Gen bool :=
  l <- getLocals;;
  ret (inMainLoop l).

(** *** Phase notifications *)

Definition set_curPhase (ph : Phase) (l : Locals) : Locals :=
  {| curPhase := Some ph; haveA_lastRSWA := haveA_lastRSWA l;
     didForceActivateRemA := didForceActivateRemA l;
     didForceActivateRemB := didForceActivateRemB l;
     statePreLoop := statePreLoop l; hadVFlags := hadVFlags l |}.
Definition set_haveA_lastRSWA (v : bool) (l : Locals) : Locals :=
  {| curPhase := curPhase l; haveA_lastRSWA := v;
     didForceActivateRemA := didForceActivateRemA l;
     didForceActivateRemB := didForceActivateRemB l;
     statePreLoop := statePreLoop l; hadVFlags := hadVFlags l |}.
Definition set_didForceActivateRem (a b : bool) (l : Locals) : Locals :=
  {| curPhase := curPhase l; haveA_lastRSWA := haveA_lastRSWA l;
     didForceActivateRemA := a; didForceActivateRemB := b;
     statePreLoop := statePreLoop l; hadVFlags := hadVFlags l |}.

Definition modifyState (f : State.t -> State.t) : Gen unit :=
  st <- getState;; putState (f st).
Definition modifyLocals (f : Locals -> Locals) : Gen unit :=
  l <- getLocals;; putLocals (f l).

Definition vflagTeardown : Gen unit :=
  st <- getState;;
  l <- getLocals;;
  when (State.vflagsEnabled (State.params st) && negb (hadVFlags l))
       (callHelper deallocVFlagStorage).

Definition resetKSLM : Gen unit :=
  st <- getState;;
  let (r, ra') := safeRelease (State.kSLMStorage st) (State.ra st) in
  putState (State.set_kSLM invalid invalid r (State.set_ra ra' st)).

Definition teardownRemasks : Gen unit :=
  when (remaskA_ problem strategy q) (callHelper teardownRemask_A);;
  when (remaskB_ problem strategy q
        && negb (iremaskB problem strategy q =? iremaskA))
       (callHelper teardownRemask_B).

Definition resetForNewLoop : Gen unit :=
  resetKSLM;;
  modifyState (State.set_lastThresh 0);;
  modifyLocals (set_haveA_lastRSWA false);;
  st <- getState;;
  (let (r, ra') := safeRelease (State.barrierHeader st) (State.ra st) in
   putState (State.set_barrierHeader r (State.set_ra ra' st)));;
  teardownRemasks;;
  modifyLocals (set_didForceActivateRem false false).

Definition splitBarrierFreq : bool :=
  (Strategy.barrierFreq strategy >? 0) && Strategy.splitBarrier strategy.

(** The [CT::NotifyPhase] callback. *)
Definition notifyPhase (phase : Phase) : Gen unit :=
  modifyLocals (set_curPhase phase);;
  match phase with
  | PhaseWarmup => ret tt
  | PhaseMainLoop => ret tt
  | PhaseMainPathEnd =>
      vflagTeardown;;
      when splitBarrierFreq (kLoopBarrier strategy false Wait)
  | PhaseCooldown =>
      st <- getState;;
      when (isValid (State.kNoBarrierEnd (State.params st)))
           (emit (add_K None (sreg kNoBarrierEnd_)));;
      when (prefetchCPeelLoops strategy q =? 0) (callHelper gemmPrefetchC);;
      modifyLocals (set_haveA_lastRSWA false)
  | PhaseShortLoop =>
      when (Strategy.prefetchC strategy >? 0) (callHelper gemmPrefetchC);;
      when (nonzero (Strategy.prefetchABL3 strategy)) (callHelper gemmInitL3Prefetch);;
      modifyState (State.set_remActive false false false);;
      resetForNewLoop;;
      l <- getLocals;;
      putState (statePreLoop l);;
      st <- getState;;
      when (State.splitBarrierAlways (State.params st) && splitBarrierFreq)
           (kLoopBarrier strategy false Signal)
  | PhaseShortLoopEnd =>
      vflagTeardown;;
      st <- getState;;
      when (State.splitBarrierAlways (State.params st) && splitBarrierFreq)
           (kLoopBarrier strategy false Wait)
  | PhaseRemainder => ret tt
  end.

(** The [CT::LoopStart] callback; [unroll] is its first argument. *)
Definition loopStart (unroll : Z) : Gen unit :=
  (if nonzero (Strategy.prefetchABL3 strategy) then
     let peel := Strategy.prefetchABL3 strategy - Queries.getLoopBias q in
     let peel := if peel <? unroll then unroll else peel in
     emit (add_K (Some (cm_le, flagAP)) (imm (- peel)));;
     emit (mov_sreg l3PFPeelK peel)
   else emit (cmp_K (cm_le, flagAP) 0));;
  when (prefetchCPeelLoops strategy q >? 0)
    (emit (min_pfCPeelK (prefetchCPeelLoops strategy q * Strategy.unrollK strategy));;
     emit (add_K None (sneg pfCPeelK)));;
  (if barrierSubloop strategy kp then
     st <- getState;;
     when (isValid (State.kNoBarrierStart (State.params st)))
          (emit (add_K None (sneg kNoBarrierStart_)));;
     when (isValid (State.kNoBarrierEnd (State.params st)))
          (emit (add_K None (sneg kNoBarrierEnd_)));;
     emit (add_sat_outerK true (- Strategy.barrierFreq strategy));;
     emit (min_K (Strategy.barrierFreq strategy));;
     when (Strategy.splitBarrier strategy) (kLoopBarrier strategy false Signal);;
     st <- getState;;
     when (isValid (State.kNoBarrierStart (State.params st)))
          (emit (add_K None (sreg kNoBarrierStart_)))
   else
     when (barrierTask strategy kp && Strategy.splitBarrier strategy)
          (kLoopBarrier strategy false Signal));;
  (if Queries.hw_eq_Gen12LP q then emit sync_nop
   else when (Queries.hw_gt_Gen12LP q) (emit sync_nop));;
  emit (jmpi (Some true)
             (if nonzero (Strategy.prefetchABL3 strategy)
              then lNextTilePFL3 else lBottom));;
  emit (mark lTop);;
  stateHelper wipeActiveVFlags.

(** The [CT::LoopEnd] callback. *)
Definition loopEnd : Gen unit :=
  emit (jmpi (Some true) lTop);;
  when (barrierSubloop strategy kp)
    (emit (add_K None (sreg outerK));;
     emit (add_sat_outerK false (- Strategy.barrierFreq strategy));;
     emit (add_K (Some (cm_gt, flagAP)) (sneg outerK));;
     when (noFinalBarrier kp) (emit (jmpi (Some false) lOut));;
     (if Strategy.splitBarrier strategy then
        kLoopBarrier strategy false Wait;;
        kLoopBarrier strategy false Signal
      else kLoopBarrier strategy false Normal);;
     emit (jmpi (Some true) lTop);;
     when (noFinalBarrier kp) (emit (mark lOut));;
     st <- getState;;
     when (isValid (State.kNoBarrierEnd (State.params st)))
       (emit (add_K (Some (cm_gt, flagAP)) (sreg kNoBarrierEnd_));;
        emit (mov_sreg kNoBarrierEnd_ 0);;
        emit (jmpi (Some true) lTop)));;
  when (prefetchCPeelLoops strategy q >? 0)
    (emit (add_K (Some (cm_gt, flagAP)) (sreg pfCPeelK));;
     emit (mov_sreg pfCPeelK 0);;
     callHelper gemmPrefetchC;;
     emit (jmpi (Some true) lTop));;
  emit (mark lBottom);;
  when (nonzero (Strategy.prefetchABL3 strategy))
    (emit cmp_l3PFPeelK;;
     emit (jmpi (Some true) lPeelDone);;
     emit (mark lNextTilePFL3);;
     callHelper gemmInitL3Prefetch;;
     emit (add_K (Some (cm_le, flagAP)) (sreg l3PFPeelK));;
     emit (mov_sreg l3PFPeelK 0);;
     emit (jmpi (Some false) lTop);;
     emit (mark lPeelDone));;
  stateHelper wipeActiveVFlags.

(** The [CT::OffsetCounter], [CT::JumpIfLT], [CT::JumpTarget] and
    [CT::Jump] callbacks. *)
Definition offsetCounter (offset : Z) : Gen unit :=
  emit (add_K None (imm offset)).

Definition jumpIfLT (thresh label : Z) : Gen unit :=
  st <- getState;;
  when (negb (thresh =? State.lastThresh st))
       (emit (cmp_K (cm_lt, flagAP) thresh));;
  emit (jmpi (Some true) (labels label));;
  modifyState (State.set_lastThresh thresh).

Definition jumpTarget (label : Z) : Gen unit :=
  emit (mark (labels label));;
  stateHelper wipeActiveVFlags.

Definition jump (label : Z) : Gen unit :=
  emit (jmpi None (labels label)).
End Events.

(** ** [kLoopSingle] *)

Section KLoopSingle.
Context {P : Platform}.
(** [kLoopSetup] and [kLoopTeardown] live in another file; [kLoop] is
    taken whole. *)
Variable kLoopSetup : Gen bool.
Variable kLoop : Gen unit.
Variable kLoopTeardown : Gen unit.

Definition kLoopSingle : Gen bool :=
  ok <- kLoopSetup;;
  (if ok : bool then kLoop;; kLoopTeardown else ret tt);;
  ret ok.
End KLoopSingle.

(** ** The loop sequencer, as far as the events above depend on it *)

(** Modelled from the spec: what the Phase Materializer of
    [loop_sequencer.hpp] may do inside a phase (sections 2 and 3): invoke
    the event at a logical iteration, or call one of the codegen hooks
    OffsetCounter, JumpIfLT, JumpTarget, Jump with the arguments shown. *)
Inductive Step :=
| Occurrence (h : Iteration)
| OffsetCounter (offset : Z)
| JumpIfLT (thresh label : Z)
| JumpTarget (label : Z)
| Jump (label : Z).

(** The iterations at which a list of steps invokes the event. *)
Fixpoint stepOccurrences (steps : list Step) : list Iteration :=
  match steps with
  | [] => []
  | Occurrence h :: steps' => h :: stepOccurrences steps'
  | _ :: steps' => stepOccurrences steps'
  end.


Section Sequencer.
Context {P : Platform} {H : Helpers}.
Variable problem : Problem.t.
Variable strategy : Strategy.t.
Variable q : Queries.t.
Variable kp : State.Params.

(** Modelled from the spec: [LoopSequencer::schedule_if] of
    [loop_sequencer.hpp] (section 4.1, "optional guards"): at each
    occurrence the guard is evaluated and the action runs only if it
    holds. *)
Definition schedule_if (action : Iteration -> Gen unit)
           (check : Iteration -> Gen bool) (h : Iteration) : Gen unit :=
  c <- check h;;
  if c : bool then action h else ret tt.

(** Modelled from the spec: one step of the Phase Materializer of
    [loop_sequencer.hpp] inside a phase (sections 2 and 3): it invokes
    the event's action at an iteration, or one of the caller's hooks. *)
Definition runStep (event : Iteration -> Gen unit) (step : Step) : Gen unit :=
  match step with
  | Occurrence h => event h
  | OffsetCounter offset => offsetCounter offset
  | JumpIfLT thresh label => jumpIfLT thresh label
  | JumpTarget label => jumpTarget label
  | Jump label => jump label
  end.

(** Modelled from the spec: the Phase Materializer of
    [loop_sequencer.hpp] (section 4.3), restricted to one event: each
    phase is announced through NotifyPhase and followed by the steps of
    that phase; the MainLoop block is bracketed by the LoopStart and
    LoopEnd hooks. *)
Definition materializePhase (event : Iteration -> Gen unit)
           (seg : Phase * list Step) : Gen unit :=
  notifyPhase problem strategy q (fst seg);;
  if Phase_eqb (fst seg) PhaseMainLoop then
    loopStart strategy q kp (Queries.getUnroll q);;
    forEach (snd seg) (runStep event);;
    loopEnd strategy q kp
  else forEach (snd seg) (runStep event).

Definition materialize (event : Iteration -> Gen unit)
           (plan : list (Phase * list Step)) : Gen unit :=
  forEach plan (materializePhase event).

(** Modelled from the spec: the Timeline Analyzer of
    [loop_sequencer.hpp] (section 4.2): "one occurrence per
    period-aligned offset inside the block, shifted by lookahead". *)
Definition blockOccurrences (blockLength period shift : Z) : list Z :=
  map (fun i => (Z.of_nat i * period + shift) mod blockLength)
      (seq 0 (Z.to_nat (blockLength / period))).

End Sequencer.

(** ** Measures on the emitted stream *)

Definition weight (w : Instr -> Z) (l : list Instr) : Z :=
  fold_right (fun i acc => w i + acc) 0 l.

(** The k-loop back-edge decrement [add(1 | gt | f0[0], K, K, -unrollK)]:
    an [add] on the loop counter with the [gt] condition modifier and the
    immediate [-unrollK], whichever name the flag register goes by. *)
Definition isLoopDecrement (unrollK : Z) (i : Instr) : Z :=
  match i with
  | add_K (Some (cm_gt, _)) (imm z) => if z =? - unrollK then 1 else 0
  | _ => 0
  end.


(** A completed barrier: the unnamed [barrierwait] or a named [sync.bar]. *)
Definition isBarrierWait (i : Instr) : Z :=
  match i with
  | barrierwait | sync_bar _ => 1
  | _ => 0
  end.

(** A barrier signal: [barriermsg]. *)
Definition isBarrierMsg (i : Instr) : Z :=
  match i with
  | barriermsg _ => 1
  | _ => 0
  end.

Definition isStoreAo (i : Instr) : bool :=
  match i with call storeMatrix_Ao => true | _ => false end.
Definition isStoreBo (i : Instr) : bool :=
  match i with call storeMatrix_Bo => true | _ => false end.

Fixpoint dropThrough (p : Instr -> bool) (l : list Instr) : list Instr :=
  match l with
  | [] => []
  | x :: l' => if p x then l' else dropThrough p l'
  end.

Fixpoint takeUntil (p : Instr -> bool) (l : list Instr) : list Instr :=
  match l with
  | [] => []
  | x :: l' => if p x then [] else x :: takeUntil p l'
  end.

(** The instructions strictly between the first instruction satisfying
    [p] and the next one. *)
Definition between (p : Instr -> bool) (l : list Instr) : list Instr :=
  takeUntil p (dropThrough p l).

(** [Counts w n g]: whenever [g] returns normally it has appended
    instructions of total weight [n] and left [curPhase] as it was. *)
Definition Counts {P : Platform} {A} (w : Instr -> Z) (n : Z) (g : Gen A) : Prop :=
  forall b a b',
    g b = (Ok a, b') ->
    curPhase (locals b') = curPhase (locals b)
    /\ exists l, code b' = code b ++ l /\ weight w l = n.

(** [NoEmit g]: [g] never appends to the stream, also when it throws. *)
Definition NoEmit {P : Platform} {A} (g : Gen A) : Prop :=
  forall b r b', g b = (r, b') -> code b' = code b.

Definition b2z (c : bool) : Z := if c then 1 else 0.

(** Barrier completions issued by one [kLoopBarrier(_, KBarrierType::Normal)]. *)
Definition barriersPerSync (strategy : Strategy.t) : Z :=
  if negb (nbM strategy) && negb (nbN strategy) then 1
  else b2z (nbM strategy) + b2z (nbN strategy).

(** The SLM stores of one [doSLMStore]. *)
Definition storesCode (strategy : Strategy.t) : list Instr :=
  (if Strategy.slmA strategy then [call storeMatrix_Ao] else [])
  ++ (if Strategy.slmB strategy then [call storeMatrix_Bo] else []).



Definition sumOver {A} (n : A -> Z) (l : list A) : Z :=
  fold_right (fun x acc => n x + acc) 0 l.

(** Occurrences of the loop check that a plan places in MainLoop segments. *)
Definition mainLoopOccurrences (plan : list (Phase * list Step)) : Z :=
  sumOver (fun seg : Phase * list Step =>
             if Phase_eqb (fst seg) PhaseMainLoop
             then Z.of_nat (length (stepOccurrences (snd seg))) else 0) plan.



(** ** Concrete configurations

    A small allocator (a free list of register numbers), helpers that
    leave [state] alone, and a few strategies used to run the definitions. *)

Definition listPlatform : Platform :=
  {| RA := list nat;
     Rest := unit;
     alloc := fun free => match free with
                          | [] => None
                          | r :: free' => Some (r, free')
                          end;
     try_alloc := fun free => match free with
                              | [] => (invalid, free)
                              | r :: free' => (reg r, free')
                              end;
     release := fun r free => match r with
                              | invalid => free
                              | reg n => n :: free
                              end;
     safeRelease := fun r free => match r with
                                  | invalid => (invalid, free)
                                  | reg n => (invalid, n :: free)
                                  end |}.

Definition idHelpers : @Helpers listPlatform :=
  {| runHelper := fun _ st => Some st |}.

Definition strategy_3buf : Strategy.t :=
  {| Strategy.slmA := true; Strategy.slmB := false;
     Strategy.slmBuffers := 3; Strategy.slmCopies := 1;
     Strategy.A_copies := 1; Strategy.B_copies := 1;
     Strategy.ka_load := 8; Strategy.kb_load := 8;
     Strategy.kInterleaveChunk := 0;
     Strategy.unrollM := 32; Strategy.unrollN := 16;
     Strategy.unrollK := 8; Strategy.unrollKSLM := 8;
     Strategy.barrierFreq := 0;
     Strategy.namedBarriersM := false; Strategy.namedBarriersN := false;
     Strategy.splitBarrier := false; Strategy.strictFence := false;
     Strategy.slmFenceWARWA := false; Strategy.kParallelLocal := false;
     Strategy.fusePostOps := false; Strategy.cLoadAhead := false;
     Strategy.registerOutput := false; Strategy.fuseBeta := false;
     Strategy.altFusedBeta := false;
     Strategy.prefetchA := 0; Strategy.prefetchB := 0;
     Strategy.prefetchC := 0; Strategy.prefetchABL3 := 0 |}.


(** One SLM buffer for A only, unnamed barriers, loop counter saved. *)
Definition strategy_1buf : Strategy.t :=
  {| Strategy.slmA := true; Strategy.slmB := false;
     Strategy.slmBuffers := 1; Strategy.slmCopies := 1;
     Strategy.A_copies := 1; Strategy.B_copies := 1;
     Strategy.ka_load := 8; Strategy.kb_load := 8;
     Strategy.kInterleaveChunk := 0;
     Strategy.unrollM := 32; Strategy.unrollN := 16;
     Strategy.unrollK := 16; Strategy.unrollKSLM := 16;
     Strategy.barrierFreq := 0;
     Strategy.namedBarriersM := false; Strategy.namedBarriersN := false;
     Strategy.splitBarrier := false; Strategy.strictFence := false;
     Strategy.slmFenceWARWA := false; Strategy.kParallelLocal := false;
     Strategy.fusePostOps := true; Strategy.cLoadAhead := true;
     Strategy.registerOutput := false; Strategy.fuseBeta := false;
     Strategy.altFusedBeta := false;
     Strategy.prefetchA := 32; Strategy.prefetchB := 0;
     Strategy.prefetchC := 0; Strategy.prefetchABL3 := 0 |}.

(** Both operands through SLM, with different numbers of register copies. *)
Definition strategy_slmAB : Strategy.t :=
  {| Strategy.slmA := true; Strategy.slmB := true;
     Strategy.slmBuffers := 2; Strategy.slmCopies := 1;
     Strategy.A_copies := 2; Strategy.B_copies := 1;
     Strategy.ka_load := 8; Strategy.kb_load := 8;
     Strategy.kInterleaveChunk := 0;
     Strategy.unrollM := 32; Strategy.unrollN := 16;
     Strategy.unrollK := 16; Strategy.unrollKSLM := 16;
     Strategy.barrierFreq := 0;
     Strategy.namedBarriersM := false; Strategy.namedBarriersN := false;
     Strategy.splitBarrier := false; Strategy.strictFence := false;
     Strategy.slmFenceWARWA := false; Strategy.kParallelLocal := false;
     Strategy.fusePostOps := false; Strategy.cLoadAhead := true;
     Strategy.registerOutput := false; Strategy.fuseBeta := false;
     Strategy.altFusedBeta := false;
     Strategy.prefetchA := 0; Strategy.prefetchB := 0;
     Strategy.prefetchC := 0; Strategy.prefetchABL3 := 0 |}.

Definition problem_int8 : Problem.t :=
  {| Problem.Ta_isInteger := true; Problem.Tb_isInteger := true;
     Problem.needsASums := false; Problem.needsBSums := false;
     Problem.needsAGroupSums := false; Problem.needsBGroupSums := false;
     Problem.backward := false; Problem.beta1 := false;
     Problem.aOffset_isNone := true; Problem.bOffset_isNone := true;
     Problem.aoPtrDims := 0; Problem.boPtrDims := 0;
     Problem.aScale2D := false; Problem.bScale2D := false;
     Problem.aqGroupK := 0; Problem.bqGroupK := 0 |}.

(** A dpas-like configuration: outer products batched four at a time,
    chained to eight in the main loop; the analyzer reports an unroll of 8. *)
Definition queries_dpas : Queries.t :=
  {| Queries.outerProductCount := 8; Queries.minOuterProductCount := 4;
     Queries.needsRemaskA := true; Queries.needsRemaskB := true;
     Queries.Ta_load_bits := 8; Queries.Tb_load_bits := 8;
     Queries.hw_lt_XeHPG := false;
     Queries.hw_eq_Gen12LP := false; Queries.hw_gt_Gen12LP := true;
     Queries.getLoopBias := 0;
     Queries.getUnroll := 8; Queries.getCooldown := 0 |}.

(** Outer products in pairs, chained to four in the main loop. *)
Definition queries_pairs : Queries.t :=
  {| Queries.outerProductCount := 4; Queries.minOuterProductCount := 2;
     Queries.needsRemaskA := true; Queries.needsRemaskB := true;
     Queries.Ta_load_bits := 8; Queries.Tb_load_bits := 8;
     Queries.hw_lt_XeHPG := false;
     Queries.hw_eq_Gen12LP := false; Queries.hw_gt_Gen12LP := true;
     Queries.getLoopBias := 0;
     Queries.getUnroll := 16; Queries.getCooldown := 0 |}.

Definition params0 : State.Params :=
  {| State.k := reg 0; State.isNested := false;
     State.firstKLoopSegment := true;
     State.C_accCount := 0; State.C_buffers := 0;
     State.r0_info_isARF := false;
     State.kNoBarrierStart := invalid; State.kNoBarrierEnd := invalid;
     State.ka_loadRem := 1; State.kb_loadRem := 1;
     State.kaq := 0; State.kbq := 0;
     State.lateScale2DA := false; State.lateScale2DB := false;
     State.splitBarrierAlways := false; State.lateKLoopCheck := false;
     State.vflagsEnabled := false;
     State.slmASums := false; State.slmBSums := false;
     State.repackA := false; State.ka_repack := 0; State.ka_repackRem := 0;
     State.systolicSumA := false; State.systolicSumB := false;
     State.A_layout_colMajor := true; State.B_layout_colMajor := false |}.

Definition state0 : @State.t listPlatform :=
  {| State.params := params0; State.K := invalid;
     State.remActiveA := false; State.remActiveB := false;
     State.remActiveSLM := false;
     State.kSLMA := invalid; State.kSLMB := invalid;
     State.kSLMStorage := invalid;
     State.lastThresh := 0;
     State.barrierHeader := invalid; State.barrierReady := false;
     State.ra := ([10; 11; 12; 13]%nat : @RA listPlatform);
     State.rest := (tt : @Rest listPlatform) |}.


Definition locals0 : @Locals listPlatform :=
  {| curPhase := None; haveA_lastRSWA := false;
     didForceActivateRemA := false; didForceActivateRemB := false;
     statePreLoop := state0; hadVFlags := false |}.

Definition build0 : @Build listPlatform :=
  {| state := state0; locals := locals0; code := [] |}.


(** [build0] after two consecutive single-buffer SLM stores. *)
Definition code_two_stores : list Instr :=
  [barrierheader; barriermsg barrierHeader_; barrierwait;
   call storeMatrix_Ao;
   slmfence; fencewait; barriermsg barrierHeader_; barrierwait;
   barriermsg barrierHeader_; barrierwait;
   call storeMatrix_Ao;
   slmfence; fencewait; barriermsg barrierHeader_; barrierwait].

Definition build_two_stores : @Build listPlatform :=
  {| state := State.set_ra ([11; 12; 13]%nat : @RA listPlatform)
                (State.set_barrierReady true
                   (State.set_barrierHeader (reg 10) state0));
     locals := locals0;
     code := code_two_stores |}.

(** A main path and a short path for a trip count of 40 and a block of
    16: the loop check occurs in every phase that has occurrences, and
    once in the MainLoop block; the hooks are called as a sequencer that
    skips to the short loop below 32 iterations would call them. *)
Definition plan_all_phases : list (Phase * list Step) :=
  [(PhaseWarmup,
    [JumpIfLT 32 0; OffsetCounter (-16);
     Occurrence {| counter := 0; total := 40 |}]);
   (PhaseMainLoop,
    map (fun o => Occurrence {| counter := o; total := 40 |})
        (blockOccurrences 16 16 0));
   (PhaseMainPathEnd, []);
   (PhaseCooldown,
    [OffsetCounter 16; Occurrence {| counter := 32; total := 40 |}; Jump 1]);
   (PhaseShortLoop,
    [JumpTarget 0; Occurrence {| counter := 0; total := 40 |}]);
   (PhaseShortLoopEnd, []);
   (PhaseRemainder,
    [JumpTarget 1; Occurrence {| counter := 32; total := 40 |}])].

Definition code_all_phases : list Instr :=
  [cmp_K (cm_lt, flagAP) 32; jmpi (Some true) (labels 0);
   add_K None (imm (-16));
   cmp_K (cm_le, flagAP) 0; sync_nop; jmpi (Some true) lBottom; mark lTop;
   add_K (Some (cm_gt, f0_0)) (imm (-16));
   jmpi (Some true) lTop; mark lBottom;
   add_K None (imm 16); jmpi None (labels 1);
   mark (labels 0);
   mark (labels 1)].


(** * Further parts of [k_loop.cxx]

    The definitions below embed code that the properties of the second
    half of the development are about: the remaining iteration-dependent
    locals of [kLoop], its other SLM synchronization events, the periodic
    barrier, and the routines that follow [kLoop] in the file. *)

(** ** Iteration-dependent locals of [kLoop], continued *)

(** The iteration [d] steps after [h] in the same run. *)
Definition later (h : Iteration) (d : Z) : Iteration :=
  {| counter := counter h + d; total := total h |}.

Section IterationLocals.
Variable strategy : Strategy.t.
Variable kp : State.Params.
(** [strategy.wg[LoopK]]. *)
Variable wgK : Z.

(** [auto slmRemActive = [&](Iteration h) { return (h.remaining() < unrollKSLM - (h % unrollKSLM)); };] *)
Definition slmRemActive (h : Iteration) : bool :=
  remaining h <? Strategy.unrollKSLM strategy
                 - Z.rem (counter h) (Strategy.unrollKSLM strategy).

(** [auto A_copy = [&](Iteration h) { return (h / ka_load(h)) % A_copies; };] *)
Definition A_copy (h : Iteration) : Z :=
  Z.rem (Z.quot (counter h) (ka_load strategy kp h)) (Strategy.A_copies strategy).

(** [auto B_copy = [&](Iteration h) { return (h / kb_load(h)) % B_copies; };] *)
Definition B_copy (h : Iteration) : Z :=
  Z.rem (Z.quot (counter h) (kb_load strategy kp h)) (Strategy.B_copies strategy).

(** [auto slmCopy = [&](Iteration h) { return (h / unrollKSLM) % slmCopies; };] *)
Definition slmCopy (h : Iteration) : Z :=
  Z.rem (Z.quot (counter h) (Strategy.unrollKSLM strategy))
        (Strategy.slmCopies strategy).

(** [auto kInc = [&](Iteration h, int k_inc, int group = 1) { ... };] *)
Definition kInc (h : Iteration) (k_inc group : Z) : Z :=
  let kInterleaveChunk := Strategy.kInterleaveChunk strategy in
  if nonzero kInterleaveChunk then
    let k_inc := k_inc * group in
    let k_inc :=
      if k_inc >? kInterleaveChunk then kInterleaveChunk * wgK
      else if Z.rem (counter h) kInterleaveChunk + k_inc >=? kInterleaveChunk
           then k_inc + kInterleaveChunk * (wgK - 1)
           else k_inc in
    Z.quot k_inc group
  else k_inc.

(** [auto ka_inc = [&](Iteration h) { ... };] *)
Definition ka_inc (h : Iteration) : Z :=
  let inc := ka_load strategy kp h in
  if Strategy.slmA strategy then
    let kWraparound := Strategy.unrollKSLM strategy * Strategy.slmBuffers strategy in
    if Z.rem (counter h + inc) kWraparound <? inc then inc - kWraparound else inc
  else kInc h inc 1.

(** [auto kb_inc = [&](Iteration h) { ... };] *)
Definition kb_inc (h : Iteration) : Z :=
  let inc := kb_load strategy kp h in
  if Strategy.slmB strategy then
    let kWraparound := Strategy.unrollKSLM strategy * Strategy.slmBuffers strategy in
    if Z.rem (counter h + inc) kWraparound <? inc then inc - kWraparound else inc
  else kInc h inc 1.
End IterationLocals.

(** ** Concrete configurations, continued *)

(** [strategy_3buf] without SLM and with k interleaved in chunks of
    [chunk] iterations. *)
Definition strategy_interleave (chunk : Z) : Strategy.t :=
  {| Strategy.slmA := false; Strategy.slmB := false;
     Strategy.slmBuffers := 0; Strategy.slmCopies := 1;
     Strategy.A_copies := 1; Strategy.B_copies := 1;
     Strategy.ka_load := 8; Strategy.kb_load := 8;
     Strategy.kInterleaveChunk := chunk;
     Strategy.unrollM := 32; Strategy.unrollN := 16;
     Strategy.unrollK := 8; Strategy.unrollKSLM := 8;
     Strategy.barrierFreq := 0;
     Strategy.namedBarriersM := false; Strategy.namedBarriersN := false;
     Strategy.splitBarrier := false; Strategy.strictFence := false;
     Strategy.slmFenceWARWA := false; Strategy.kParallelLocal := false;
     Strategy.fusePostOps := false; Strategy.cLoadAhead := false;
     Strategy.registerOutput := false; Strategy.fuseBeta := false;
     Strategy.altFusedBeta := false;
     Strategy.prefetchA := 0; Strategy.prefetchB := 0;
     Strategy.prefetchC := 0; Strategy.prefetchABL3 := 0 |}.

(** A build in which every register is taken; the barrier header is
    allocated and ready. *)
Definition build_no_regs : @Build listPlatform :=
  {| state := State.set_ra ([] : @RA listPlatform)
                (State.set_barrierReady true
                   (State.set_barrierHeader (reg 10) state0));
     locals := locals0;
     code := [] |}.

(** ** The other SLM synchronization events and the periodic barrier *)

Section SLMSync.
Context {P : Platform} {H : Helpers}.
Variable strategy : Strategy.t.
Variable q : Queries.t.

(** [auto doSLMAfterStore2 = [&](Iteration h) { switch (slmBuffers) ... };] *)
Definition doSLMAfterStore2 (h : Z) : Gen unit :=
  let n := Strategy.slmBuffers strategy in
  if (n =? 1) || (n =? 2) || (n =? 3) then ret tt
  else if n =? 4 then kLoopBarrier strategy false Wait
  else stub.

(** [auto doSLMAfterStore = [&](Iteration h) { switch (slmBuffers) ... };]
    (the switch has no default arm). *)
Definition doSLMAfterStore (h : Z) : Gen unit :=
  let n := Strategy.slmBuffers strategy in
  if n =? 1 then ret tt
  else if n =? 2 then slm1x2xFencedBarrier strategy q
  else if n =? 3 then kLoopBarrier strategy false Wait
  else if n =? 4 then
    slmFenceIssue;;
    emit fencewait;;
    when (Strategy.slmFenceWARWA strategy) (wrdeps strategy);;
    kLoopBarrier strategy false Signal
  else ret tt.

(** The actions registered under [if (slmBuffers > 0)], in the order of
    their [ls.schedule] calls; each is registered for the main and for
    the remainder requirement alike. *)
Definition slmStoreActions : list (Z -> Gen unit) :=
  let n := Strategy.slmBuffers strategy in
  if n >? 0 then
    (if n >=? 4 then [doSLMAfterStore2] else [])
    ++ (if n >=? 2 then [doSLMAfterStore] else [])
    ++ [doSLMStore strategy q]
  else [].

(** The action scheduled with [reqBarrier] when [barrierTask] holds. *)
Definition barrierEvent (h : Iteration) : Gen unit :=
  l <- getLocals;;
  when (inMainLoop l)
    (if Strategy.splitBarrier strategy then
       kLoopBarrier strategy false Wait;;
       kLoopBarrier strategy false Signal
     else kLoopBarrier strategy false Normal).
End SLMSync.

(** ** Measures on the emitted stream, continued *)

(** Barrier signals not yet waited for: [+1] for a [barriermsg], [-1]
    for a [barrierwait] or a [sync.bar]. *)
Definition barrierBalance (i : Instr) : Z := isBarrierMsg i - isBarrierWait i.

(** The balance one [kLoopBarrier] of the given type leaves. *)
Definition balanceOf (strategy : Strategy.t) (type : KBarrierType) : Z :=
  match type with
  | Normal => 0
  | Signal => barriersPerSync strategy
  | Wait => - barriersPerSync strategy
  end.

(** [Emits w n g]: whenever [g] returns normally it has appended
    instructions of total weight [n]. *)
Definition Emits {P : Platform} {A} (w : Instr -> Z) (n : Z) (g : Gen A) : Prop :=
  forall b a b',
    g b = (Ok a, b') ->
    exists l, code b' = code b ++ l /\ weight w l = n.

(** [build0] after the SLM synchronization actions of one store period
    with three SLM buffers. *)
Definition code_3buf_period : list Instr :=
  [barrierwait;
   call storeMatrix_Ao;
   slmfence; fencewait; barrierheader; barriermsg barrierHeader_].

Definition build_3buf_period : @Build listPlatform :=
  {| state := State.set_ra ([11; 12; 13]%nat : @RA listPlatform)
                (State.set_barrierReady true
                   (State.set_barrierHeader (reg 10) state0));
     locals := locals0;
     code := code_3buf_period |}.

(** No SLM; a barrier every eight iterations, inside the unrolled block,
    split into signal and wait. *)
Definition strategy_split : Strategy.t :=
  {| Strategy.slmA := false; Strategy.slmB := false;
     Strategy.slmBuffers := 0; Strategy.slmCopies := 1;
     Strategy.A_copies := 1; Strategy.B_copies := 1;
     Strategy.ka_load := 8; Strategy.kb_load := 8;
     Strategy.kInterleaveChunk := 0;
     Strategy.unrollM := 32; Strategy.unrollN := 16;
     Strategy.unrollK := 8; Strategy.unrollKSLM := 8;
     Strategy.barrierFreq := 8;
     Strategy.namedBarriersM := false; Strategy.namedBarriersN := false;
     Strategy.splitBarrier := true; Strategy.strictFence := false;
     Strategy.slmFenceWARWA := false; Strategy.kParallelLocal := false;
     Strategy.fusePostOps := false; Strategy.cLoadAhead := false;
     Strategy.registerOutput := false; Strategy.fuseBeta := false;
     Strategy.altFusedBeta := false;
     Strategy.prefetchA := 0; Strategy.prefetchB := 0;
     Strategy.prefetchC := 0; Strategy.prefetchABL3 := 0 |}.

(** [build0] after the main path of [strategy_split] with one periodic
    barrier in the block. *)
Definition code_split_main_path : list Instr :=
  [cmp_K (cm_le, flagAP) 0;
   barrierheader; barriermsg barrierHeader_;
   sync_nop; jmpi (Some true) lBottom; mark lTop;
   barrierwait; barriermsg barrierHeader_;
   jmpi (Some true) lTop; mark lBottom;
   barrierwait].

Definition build_split_main_path : @Build listPlatform :=
  {| state := State.set_ra ([11; 12; 13]%nat : @RA listPlatform)
                (State.set_barrierReady true
                   (State.set_barrierHeader (reg 10) state0));
     locals := set_curPhase PhaseMainPathEnd locals0;
     code := code_split_main_path |}.

(** [strategy_1buf] with C prefetched [distance] iterations ahead. *)
Definition strategy_prefetchC (distance : Z) : Strategy.t :=
  {| Strategy.slmA := true; Strategy.slmB := false;
     Strategy.slmBuffers := 1; Strategy.slmCopies := 1;
     Strategy.A_copies := 1; Strategy.B_copies := 1;
     Strategy.ka_load := 8; Strategy.kb_load := 8;
     Strategy.kInterleaveChunk := 0;
     Strategy.unrollM := 32; Strategy.unrollN := 16;
     Strategy.unrollK := 16; Strategy.unrollKSLM := 16;
     Strategy.barrierFreq := 0;
     Strategy.namedBarriersM := false; Strategy.namedBarriersN := false;
     Strategy.splitBarrier := false; Strategy.strictFence := false;
     Strategy.slmFenceWARWA := false; Strategy.kParallelLocal := false;
     Strategy.fusePostOps := true; Strategy.cLoadAhead := true;
     Strategy.registerOutput := false; Strategy.fuseBeta := false;
     Strategy.altFusedBeta := false;
     Strategy.prefetchA := 32; Strategy.prefetchB := 0;
     Strategy.prefetchC := distance; Strategy.prefetchABL3 := 0 |}.

Definition Label_eqb (a b : Label) : bool :=
  match a, b with
  | lTop, lTop | lBottom, lBottom | lNextTilePFL3, lNextTilePFL3
  | lOut, lOut | lPeelDone, lPeelDone => true
  | labels m, labels n => m =? n
  | _, _ => false
  end.

(** [mark(L)]. *)
Definition isMark (L : Label) (i : Instr) : Z :=
  match i with
  | mark l => b2z (Label_eqb l L)
  | _ => 0
  end.

(** A jump to [L]. *)
Definition isJumpTo (L : Label) (i : Instr) : Z :=
  match i with
  | jmpi _ l => b2z (Label_eqb l L)
  | _ => 0
  end.

(** An outer product whose offsets [ha], [hb] lie outside the blocks of
    [ka] and [kb] iterations it reads from. *)
Definition opOutsideBlock (ka kb : Z) (i : Instr) : Z :=
  match i with
  | call (outerProduct _ ha hb _ _) =>
      if (0 <=? ha) && (ha <? ka) && (0 <=? hb) && (hb <? kb) then 0 else 1
  | _ => 0
  end.

(** How often [LoopStart] and [LoopEnd] together mark the label [L]. *)
Definition skeletonMarks (strategy : Strategy.t) (kp : State.Params)
    (L : Label) : Z :=
  match L with
  | lTop | lBottom => 1
  | lNextTilePFL3 | lPeelDone => b2z (nonzero (Strategy.prefetchABL3 strategy))
  | lOut => b2z (barrierSubloop strategy kp && noFinalBarrier kp)
  | labels _ => 0
  end.

(** [LoopStart] and [LoopEnd] with no periodic barrier and no peeling. *)
Definition code_skeleton_plain : list Instr :=
  [cmp_K (cm_le, flagAP) 0; sync_nop; jmpi (Some true) lBottom; mark lTop;
   jmpi (Some true) lTop; mark lBottom].

(** Outer products in pairs, chained to eight in the main loop. *)
Definition queries_chain8 : Queries.t :=
  {| Queries.outerProductCount := 8; Queries.minOuterProductCount := 2;
     Queries.needsRemaskA := true; Queries.needsRemaskB := true;
     Queries.Ta_load_bits := 8; Queries.Tb_load_bits := 8;
     Queries.hw_lt_XeHPG := false;
     Queries.hw_eq_Gen12LP := false; Queries.hw_gt_Gen12LP := true;
     Queries.getLoopBias := 0;
     Queries.getUnroll := 8; Queries.getCooldown := 0 |}.

(** ** Incremental remainder loads for the SLM copies ([gemmAiBiRemLoadInc])

    The routine reads [state] and emits; what it emits is recorded as a
    list of the instructions it issues itself and of its calls into other
    files, in program order. *)

Module RemLoad.

(** The loop dimensions [LoopM], [LoopN], [LoopK]. *)
Inductive LoopDim := LoopM | LoopN | LoopK.

Definition LoopDim_eqb (a b : LoopDim) : bool :=
  match a, b with
  | LoopM, LoopM | LoopN, LoopN | LoopK, LoopK => true
  | _, _ => false
  end.

(** [Label done;] and the [Label skipInc;] of iteration [hh]. *)
Inductive Label := done | skipInc (hh : Z).

Inductive Op :=
| zeroMatrix (ofXo : bool)
    (* zeroMatrix(Xi_regs, ..), or zeroMatrix(Xo_regs, ..) when [ofXo] *)
| gemmXLoad (layout addrs : option Z)
    (* gemmALoad / gemmBLoad(Xi_regs, layout, addrs, ..): [None] stands for
       Xi_layout and Xi_addrs, [Some i] for Xi_layoutK[i] and Xi_addrsK[i] *)
| kLoopModifiedFlagAP
| cmp_kSLMX (simt : Z) (ge : bool)
    (* cmp(simt | kSLMPMod | flagAP, kSLMX, 0), kSLMPMod being ge or gt *)
| add_kSLMX (z : Z)                 (* add(1, kSLMX, kSLMX, z) *)
| goto12 (l : Label)                (* goto12(16 | ~flagAP, l) *)
| jmpi_not (l : Label)              (* jmpi(1 | ~flagAP, l) *)
| mark (l : Label)
| join16                            (* join(16) *)
| gemmXIncrement (layout addrs : option Z) (k_inc : Z)
    (* gemmAIncrement / gemmBIncrement(layout, addrs, k_inc, ..) *)
| copyRegisters (layout : Z) (rr_eff cc_eff : Z).
    (* copyRegisters(Xi_layoutK[layout], Xo_layout, Xi_regs, Xo_regs,
                     rr_eff, cc_eff, false, ..) *)

(** What the routine reads besides its arguments, [problem.backward()],
    [strategy.unrollKSLM], [strategy.kInterleaveChunk],
    [state.slmASums] and [state.slmBSums]. *)
Record Config := {
  ka_slm : Z;                       (* state.ka_slm *)
  kb_slm : Z;
  kSLMCountUp : bool;               (* state.kSLMCountUp *)
  fused : bool;                     (* strategy.fused *)
  fusedLoop : LoopDim;              (* strategy.fusedLoop *)
  kInterleave : bool;               (* strategy.kInterleave *)
  wgK : Z;                          (* strategy.wg[LoopK] *)
  Xi_layoutK_size : Z;              (* Xi_layoutK.size() *)
  Xi_addrsK_size : Z;               (* Xi_addrsK.size() *)
}.

Section Routine.
Variable problem : Problem.t.
Variable strategy : Strategy.t.
Variable q : Queries.t.
Variable kp : State.Params.
Variable cfg : Config.
(** The template parameter and the arguments. *)
Variable doA : bool.
Variable h : Z.
Variables incremental incrementalCopy keepAddrTogether willRemask : bool.

Definition kx_slm : Z := if doA then ka_slm cfg else kb_slm cfg.
Definition kSLMSign : Z := if kSLMCountUp cfg then 1 else -1.

Definition prezero : bool :=
  negb willRemask
  && ((if doA then State.slmASums kp else State.slmBSums kp)
      || (Queries.minOuterProductCount q >? 1)).

Definition simtCF : bool :=
  fused cfg && LoopDim_eqb (fusedLoop cfg) (if doA then LoopN else LoopM).
Definition simt : Z := if simtCF then 16 else 1.

(** [keepAddrTogether &= (Xi_addrsK.size() > 1);] *)
Definition keepAddrTogether' : bool :=
  keepAddrTogether && (Xi_addrsK_size cfg >? 1).

(** The lambda [nextCheck] in iteration [hh]. *)
Definition nextCheck (hh : Z) : list Op :=
  let hhRem := kx_slm - hh - 1 in
  if hhRem >? 0 then
    [cmp_kSLMX simt (kSLMCountUp cfg);
     add_kSLMX ((if hhRem =? 1
                 then Strategy.unrollKSLM strategy - kx_slm + 1 else 1)
                * kSLMSign)]
  else [].

Definition kx_stride : Z :=
  let chunk := Strategy.kInterleaveChunk strategy in
  if kInterleave cfg
     && (Z.rem h chunk >=? chunk - Strategy.unrollKSLM strategy)
  then Strategy.unrollKSLM strategy + chunk * (wgK cfg - 1)
  else Strategy.unrollKSLM strategy.

Definition kx_inc (hh : Z) : Z :=
  let inc :=
    if Xi_addrsK_size cfg >? 1 then kx_stride
    else if negb (hh + 1 =? kx_slm) then 1
         else kx_stride - kx_slm + 1 in
  if keepAddrTogether' then 0 else inc.

(** One turn of [for (int hh = 0; hh < kx_slm; hh++)]. *)
Definition loadStep (hh : Z) : list Op :=
  let skip := if kSLMCountUp cfg then skipInc hh else done in
  let hh_eff := if Problem.backward problem then kx_slm - 1 - hh else hh in
  let hh_layout := if Xi_layoutK_size cfg =? 1 then 0 else hh_eff in
  let hh_addr := if Xi_addrsK_size cfg =? 1 then 0 else hh_eff in
  [if simtCF then goto12 skip else jmpi_not skip]
  ++ (if negb (kSLMCountUp cfg) then nextCheck hh else [])
  ++ [gemmXLoad (Some hh_layout) (Some hh_addr)]
  ++ (if kSLMCountUp cfg
      then mark (skipInc hh) :: (if simtCF then [join16] else []) ++ nextCheck hh
      else [])
  ++ [gemmXIncrement (Some hh_layout) (Some hh_addr) (kx_inc hh)]
  ++ (if incrementalCopy
      then [copyRegisters hh_layout (if doA then 0 else hh_eff)
                          (if doA then hh_eff else 0)]
      else []).

(** The values [hh] takes: [0, 1, ..., kx_slm - 1]. *)
Definition turns : list Z := map Z.of_nat (seq 0 (Z.to_nat kx_slm)).

Definition gemmAiBiRemLoadInc : list Op :=
  if negb incremental then
    (if prezero then [zeroMatrix false] else [])
    ++ [gemmXLoad None None]
  else
    [kLoopModifiedFlagAP;
     cmp_kSLMX simt (kSLMCountUp cfg);
     add_kSLMX ((if kx_slm >? 1 then 1 else Strategy.unrollKSLM strategy)
                * kSLMSign)]
    ++ (if prezero then [zeroMatrix incrementalCopy] else [])
    ++ flat_map loadStep turns
    ++ (if negb (kSLMCountUp cfg)
        then mark done :: (if simtCF then [join16] else [])
        else [])
    ++ (if keepAddrTogether'
        then [gemmXIncrement None None (Strategy.unrollKSLM strategy)]
        else []).
End Routine.

(** What an operation adds to [kSLMX]. *)
Definition kSLMXAdded (o : Op) : Z :=
  match o with add_kSLMX z => z | _ => 0 end.

(** What an operation adds to the addresses [Xi_addrsK[i]]. *)
Definition addrsAdded (i : Z) (o : Op) : Z :=
  match o with
  | gemmXIncrement _ (Some j) k_inc => if j =? i then k_inc else 0
  | _ => 0
  end.

Definition isLoad (o : Op) : Z :=
  match o with gemmXLoad _ _ => 1 | _ => 0 end.
End RemLoad.

(** An A block of eight iterations loaded in four k slices through one
    set of addresses, the remainder counter counting down. *)
Definition remload_4slices : RemLoad.Config :=
  {| RemLoad.ka_slm := 4; RemLoad.kb_slm := 4;
     RemLoad.kSLMCountUp := false;
     RemLoad.fused := false; RemLoad.fusedLoop := RemLoad.LoopM;
     RemLoad.kInterleave := false; RemLoad.wgK := 1;
     RemLoad.Xi_layoutK_size := 4; RemLoad.Xi_addrsK_size := 1 |}.


(** ** A recorder for routines that update a few fields of [state]

    The remainder-activation routines update some flags of [state] and
    otherwise call into other files.  They are embedded over the flags
    they update: a computation takes their value, may throw, and yields
    the new value and the calls it made, in program order.  A call is
    recorded, not run: what it does to the rest of [state], and an
    exception it may raise itself, are not part of the embedding. *)

Section Recorder.
Variables (S C : Type).

Definition Rec (A : Type) : Type := S -> Result A * S * list C.

Definition rret {A} (a : A) : Rec A := fun s => (Ok a, s, []).

Definition rbind {A B} (m : Rec A) (k : A -> Rec B) : Rec B :=
  fun s =>
    match m s with
    | (Ok a, s1, l1) =>
        match k a s1 with
        | (r, s2, l2) => (r, s2, l1 ++ l2)
        end
    | (Throw e, s1, l1) => (Throw e, s1, l1)
    end.

Definition rcall (c : C) : Rec unit := fun s => (Ok tt, s, [c]).
Definition rstub : Rec unit := fun s => (Throw stub_exception, s, []).
Definition rget : Rec S := fun s => (Ok s, s, []).
Definition rput (s : S) : Rec unit := fun _ => (Ok tt, s, []).
Definition rwhen (c : bool) (m : Rec unit) : Rec unit :=
  if c then m else rret tt.
End Recorder.

Arguments rret {S C A} a.
Arguments rbind {S C A B} m k.
Arguments rcall {S C} c.
Arguments rstub {S C}.
Arguments rget {S C}.
Arguments rput {S C} s.
Arguments rwhen {S C} c m.

Notation "x <~ c ;;; k" := (rbind c (fun x => k))
  (at level 61, c at next level, right associativity).
Notation "c ;;; k" := (rbind c (fun _ => k))
  (at level 61, right associativity).

(** ** Activation of the A/B remainders ([kLoopActivateABRemainder]) *)

Module ABRemainder.

(** The operands whose addresses are adjusted. *)
Inductive Operand := opA | opB | opAi | opBi.

Inductive Call :=
| wipeActiveVFlags
| loadMasks (ofB : bool) (kOffset : Z)
    (* loadMasks(kMasksA or kMasksB, rems, offsets, ..), offsets[2] = -kOffset *)
| loadLoadStoreDescriptors (ofB : bool) (kOffset : Z)
| setupTeardownLoadStoreDesc (ofB : bool)
    (* setupTeardownLoadStoreDesc(true, state.A_layoutRem or B_layoutRem, ..) *)
| sliceLayout (ofB : bool)
    (* state.Ai_layout.slice(tempAddrs, state.Ai_addrs, true, 0, 1, ..) *)
| adjustSubblockAddrs (x : Operand)
| setAddrRemainder (ofB : bool)
| copyLayoutToRem (ofB : bool)
    (* state.A_layoutRem = state.A_layout; state.A_addrsRem = state.A_addrs; *)
| addRemainder (ofB : bool) (allowDescriptors : bool)
| assignMasks (ofB : bool)
| assignAllDescs (ofB : bool)
| reverseMasks (ofB : bool) (k : Z)
    (* for (auto &mask: kMasksA) mask.reverse(ka_loadRem); *)
| gemmCalcIncrements (ka_loadRem kb_loadRem : Z) (doA doB : bool).

(** [state.remActiveA] and [state.remActiveB]. *)
Record Flags := { remActiveA : bool; remActiveB : bool }.

(** What the routine reads besides [problem.backward()], [strategy.slmA],
    [strategy.slmB], [state.ka_loadRem] and [state.kb_loadRem], and the
    answers of the routines of other files whose result it tests. *)
Record Config := {
  A_block2D : bool;            (* isBlock2D(strategy.A.accessType) *)
  B_block2D : bool;
  Ai_block2D : bool;           (* isBlock2D(state.Ai_strategy.accessType) *)
  Bi_block2D : bool;
  kMasksA_empty : bool;        (* state.kMasksA.empty(), on entry *)
  kMasksB_empty : bool;
  A_descRem : bool;            (* state.A_descRem *)
  B_descRem : bool;
  effCoopA_isK : bool;         (* state.effCoopA == CoopSplit::K *)
  effCoopB_isK : bool;
  A_lateKRem : bool;           (* state.A_lateKRem *)
  B_lateKRem : bool;
  A_padded : bool;             (* strategy.A.padded *)
  B_padded : bool;
  assignMasksA_ok : bool;      (* what assignMasks(state.A_layoutRem, ..) returns *)
  assignMasksB_ok : bool;
  assignAllDescsA_ok : bool;   (* what state.A_layoutRem.assignAllDescs() returns *)
  assignAllDescsB_ok : bool;
}.

Section Routine.
Variable problem : Problem.t.
Variable strategy : Strategy.t.
Variable kp : State.Params.
Variable cfg : Config.

Definition M := Rec Flags Call.

(** The block under [// Start using k masks/descriptors if needed.] for
    one operand. *)
Definition startMasks (ofB : bool) (kOffset : Z) : M unit :=
  let descRem := if ofB then B_descRem cfg else A_descRem cfg in
  rwhen (negb descRem) (rcall (copyLayoutToRem ofB));;;
  rcall (addRemainder ofB descRem);;;
  rcall (assignMasks ofB);;;
  rwhen (negb (if ofB then assignMasksB_ok cfg else assignMasksA_ok cfg)) rstub;;;
  rwhen descRem
    (rcall (loadLoadStoreDescriptors ofB kOffset);;;
     rcall (assignAllDescs ofB);;;
     rwhen (negb (if ofB then assignAllDescsB_ok cfg else assignAllDescsA_ok cfg))
           rstub).

Definition kLoopActivateABRemainder (active doA doB : bool) (kOffset : Z)
    : M unit :=
  s <~ rget;;;
  let ka_loadRem := State.ka_loadRem kp in
  let kb_loadRem := State.kb_loadRem kp in
  let a2D := A_block2D cfg in
  let b2D := B_block2D cfg in
  let ai2D := Strategy.slmA strategy && Ai_block2D cfg in
  let bi2D := Strategy.slmB strategy && Bi_block2D cfg in
  (* Update k masks and k remainder message descriptors as needed. *)
  rwhen (doA && active && remActiveA s)
    (rwhen (negb (kMasksA_empty cfg)) (rcall wipeActiveVFlags);;;
     rcall (loadMasks false kOffset);;;
     rwhen (A_descRem cfg) (rcall (loadLoadStoreDescriptors false kOffset)));;;
  rwhen (doB && active && remActiveB s)
    (rwhen (negb (kMasksB_empty cfg)) (rcall wipeActiveVFlags);;;
     rcall (loadMasks true kOffset);;;
     rwhen (B_descRem cfg) (rcall (loadLoadStoreDescriptors true kOffset)));;;
  (* Early exits if not changing between main loop and remainder loop. *)
  let doA := if Bool.eqb (remActiveA s) active then false else doA in
  let doB := if Bool.eqb (remActiveB s) active then false else doB in
  rwhen (negb active && ((doA && remActiveA s) || (doB && remActiveB s))) rstub;;;
  if negb doA && negb doB then rret tt
  else
    rput {| remActiveA := if doA then active else remActiveA s;
            remActiveB := if doB then active else remActiveB s |};;;
    (* Prepare for descriptor-based remainders. *)
    (if A_descRem cfg && B_descRem cfg then rstub
     else if A_descRem cfg then rcall (setupTeardownLoadStoreDesc false)
     else rwhen (B_descRem cfg) (rcall (setupTeardownLoadStoreDesc true)));;;
    (* Adjust A/B/Ai/Bi addresses if needed. *)
    rwhen doA (rcall (adjustSubblockAddrs opA));;;
    rwhen doB (rcall (adjustSubblockAddrs opB));;;
    rwhen (doA && Strategy.slmA strategy && effCoopA_isK cfg && negb ai2D)
      (rcall (sliceLayout false);;; rcall (adjustSubblockAddrs opAi));;;
    rwhen (doB && Strategy.slmB strategy && effCoopB_isK cfg && negb bi2D)
      (rcall (sliceLayout true);;; rcall (adjustSubblockAddrs opBi));;;
    rwhen (doA && a2D && (ka_loadRem >? 1)) (rcall (setAddrRemainder false));;;
    rwhen (doB && b2D && (kb_loadRem >? 1)) (rcall (setAddrRemainder true));;;
    (* Start using k masks/descriptors if needed. *)
    rwhen (doA && A_lateKRem cfg && negb (A_padded cfg))
      (startMasks false kOffset);;;
    rwhen (doB && B_lateKRem cfg && negb (B_padded cfg))
      (startMasks true kOffset);;;
    rwhen (Problem.backward problem)
      (rwhen doA (rcall (reverseMasks false ka_loadRem));;;
       rwhen doB (rcall (reverseMasks true kb_loadRem)));;;
    rwhen doA (rcall (loadMasks false kOffset));;;
    rwhen doB (rcall (loadMasks true kOffset));;;
    (* Recalculate ld increments if needed. *)
    rcall (gemmCalcIncrements ka_loadRem kb_loadRem doA doB).
End Routine.
End ABRemainder.

(** [Keeps m]: [m] leaves the flags as they are, also when it throws. *)
Definition Keeps {S C A} (m : Rec S C A) : Prop :=
  forall s, snd (fst (m s)) = s.

(** [ThrowsStub m]: the only exception [m] throws is that of [stub()]. *)
Definition ThrowsStub {S C A} (m : Rec S C A) : Prop :=
  forall s, match fst (fst (m s)) with
            | Throw e => e = stub_exception
            | Ok _ => True
            end.

(** [wp m Q E s]: started on the flags [s], [m] returns a result, flags
    and calls that satisfy [Q], or throws with an exception, flags and
    calls that satisfy [E]. *)
Definition wp {S C A} (m : Rec S C A) (Q : A -> S -> list C -> Prop)
    (E : Exn -> S -> list C -> Prop) (s : S) : Prop :=
  match m s with
  | (Ok a, s', l) => Q a s' l
  | (Throw e, s', l) => E e s' l
  end.

(** ** Moves and shifts with 64-bit emulation ([ngen_emulation.hpp])

    [gemmAIncrementInternal] and [gemmBIncrementInternal] scale their
    increments with [emul] and [emulConstant], which multiply by a power
    of two through [eshl].  The operand classes of nGEN are embedded by
    the accessors the header uses, a generator by the instructions it is
    asked to emit. *)

Module Emulation.

(** The data types the header names; [other] stands for a type it does
    not name. *)
Inductive DataType :=
| invalid | ub | uw | w | ud | d | uq | q | hf | bf | bf8 | f | df
| other (code : Z).

(** [RegData], by its accessors. *)
Record RegData := {
  getType : DataType;
  getBase : Z;
  getOffset : Z;
  getVS : Z;
  getWidth : Z;
  getHS : Z;
  getNeg : bool;
  isInvalid : bool;
}.

Definition setType (t : DataType) (r : RegData) : RegData :=
  {| getType := t; getBase := getBase r; getOffset := getOffset r;
     getVS := getVS r; getWidth := getWidth r; getHS := getHS r;
     getNeg := getNeg r; isInvalid := isInvalid r |}.
Definition setOffset (o : Z) (r : RegData) : RegData :=
  {| getType := getType r; getBase := getBase r; getOffset := o;
     getVS := getVS r; getWidth := getWidth r; getHS := getHS r;
     getNeg := getNeg r; isInvalid := isInvalid r |}.
Definition setRegion (vs width hs : Z) (r : RegData) : RegData :=
  {| getType := getType r; getBase := getBase r; getOffset := getOffset r;
     getVS := vs; getWidth := width; getHS := hs;
     getNeg := getNeg r; isInvalid := isInvalid r |}.

(** [Subregister{}]. *)
Definition invalidSubregister : RegData :=
  {| getType := invalid; getBase := 0; getOffset := 0; getVS := 0;
     getWidth := 0; getHS := 0; getNeg := false; isInvalid := true |}.

(** [InstructionModifier]: the execution size and everything else. *)
Record InstructionModifier := {
  getExecSize : Z;
  otherModifiers : Z;
}.
Definition setExecSize (n : Z) (m : InstructionModifier) : InstructionModifier :=
  {| getExecSize := n; otherModifiers := otherModifiers m |}.

Record EmulationStrategy := {
  emulate64 : bool;
  emulateDWxDW : bool;
  emulate64_add32 : bool;
  emulate64_mul : bool;
  emulate64_logic : bool;
  noemulate64_shift : bool;
}.

(** [EmulationState]: [temp[0]] and [temp[1]]; the moves and shifts read
    neither [flag] nor [flagOffset]. *)
Record EmulationState := {
  temp0 : RegData;
  temp1 : RegData;
}.

(** A source operand: a register region, or an integer literal. *)
Inductive Src := reg (r : RegData) | literal (v : Z).

(** The instructions the moves and shifts ask the generator for. *)
Inductive Instr :=
| mov (mod_ : InstructionModifier) (dst : RegData) (src0 : Src)
| shl (mod_ : InstructionModifier) (dst src0 : RegData) (src1 : Z)
| shr (mod_ : InstructionModifier) (dst src0 : RegData) (src1 : Z)
| asr (mod_ : InstructionModifier) (dst src0 : RegData) (src1 : Z)
| or_ (mod_ : InstructionModifier) (dst src0 src1 : RegData).

Definition isQW (op : RegData) : bool :=
  match getType op with q | uq => true | _ => false end.
Definition isDW (op : RegData) : bool :=
  match getType op with d | ud => true | _ => false end.
Definition isW (op : RegData) : bool :=
  match getType op with w | uw => true | _ => false end.

Definition downgradeToDW (op : RegData) : RegData :=
  if isQW op
  then let op1 := setType (match getType op with q => d | _ => ud end) op in
       setOffset (getOffset op1 * 2) op1
  else op.

(** [makeDWPair]; [None]: it throws. *)
Definition makeDWPair (op : RegData) (esize : Z) : option RegData :=
  if isQW op then
    let op1 := downgradeToDW op in
    if getHS op1 >? 1 then
      if negb (getVS op1 =? getHS op1 * getWidth op1) then None
      else Some (setRegion (getHS op1 * 2) 2 1 op1)
    else
      let newVS := if esize =? getWidth op1 then esize * 2
                   else getVS op1 * 2 in
      Some (setRegion newVS (getWidth op1 * 2) 1 op1)
  else Some op.

(** [splitToDW(in, outLo, outHi)], as the pair [(outLo, outHi)]. *)
Definition splitToDW (in_ : RegData) : RegData * RegData :=
  match getType in_ with
  | q | uq =>
      let outLo :=
        setType ud
          (setOffset (getOffset in_ * 2)
             (setRegion (getVS in_ * 2) (getWidth in_) (getHS in_ * 2) in_)) in
      let outHi :=
        setType (match getType in_ with q => d | _ => ud end)
          (setOffset (getOffset in_ * 2 + 1) outLo) in
      (outLo, outHi)
  | _ => (in_, invalidSubregister)
  end.

Section Generator.
(** [isSigned(DataType)] of nGEN. *)
Variable isSigned : DataType -> bool.
(** [g.getHardware() >= HW::XeHP]. *)
Variable hw_ge_XeHP : bool.
(** [getDataType<DT>()]. *)
Variable DT : DataType.

Definition applyDefaultType (op : RegData) : RegData :=
  match getType op with
  | invalid => setType DT op
  | _ => op
  end.

(** [emov] from a register; [None]: it throws, before any instruction. *)
Definition emov (mod_ : InstructionModifier) (dst src0 : RegData)
    (strategy : EmulationStrategy) : option (list Instr) :=
  let dst := applyDefaultType dst in
  let src0 := applyDefaultType src0 in
  let dstQ := isQW dst in
  let s0Q := isQW src0 in
  let s0D := isDW src0 in
  let s0W := isW src0 in
  let s0B := isW src0 in
  let isDF := match getType src0, getType dst with
              | df, df => true
              | _, _ => false
              end in
  let unaligned := (getExecSize mod_ >? 1) && negb (getHS src0 =? 0)
                   && negb (getOffset src0 =? getOffset dst) in
  if (dstQ && (s0D || s0W || s0B)) && emulate64 strategy then
    if getNeg src0 then None
    else
      let s0Signed := isSigned (getType src0) in
      let '(dstLo, dstHi) := splitToDW dst in
      Some (mov mod_ dstLo (reg src0)
            :: (if negb s0Signed then [mov mod_ dstHi (literal 0)]
                else [asr mod_ dstHi dstLo 31]))
  else if ((dstQ || s0Q) && emulate64 strategy)
          || (isDF && unaligned && hw_ge_XeHP) then
    if negb (Bool.eqb dstQ s0Q) then None
    else
      let mod2x := setExecSize (getExecSize mod_ * 2) mod_ in
      match makeDWPair dst (getExecSize mod_) with
      | None => None
      | Some dst2 =>
          match makeDWPair src0 (getExecSize mod_) with
          | None => None
          | Some src2 => Some [mov mod2x dst2 (reg src2)]
          end
      end
  else if match getType dst, getType src0 with
          | f, bf => negb (getHS src0 =? 1) || (getExecSize mod_ =? 1)
          | _, _ => false
          end then
    (* Emulate bf16->f32 upconversion *)
    Some [shl mod_ (setType ud dst) (setType uw src0) 16]
  else if match getType src0, getType dst with
          | bf8, f => true
          | _, _ => false
          end then
    let hfTmp := setType uw src0 in
    Some [shl mod_ hfTmp (setType ub src0) 8;
          mov mod_ dst (reg (setType hf hfTmp))]
  else Some [mov mod_ dst (reg src0)].

(** [eshl]: shift left, emulating 64-bit arithmetic if configured. *)
Definition eshl (mod_ : InstructionModifier) (dst src0 : RegData) (src1 : Z)
    (strategy : EmulationStrategy) (state : EmulationState)
    : option (list Instr) :=
  let dst := applyDefaultType dst in
  let src0 := applyDefaultType src0 in
  let dstQ := isQW dst in
  let s0Q := isQW src0 in
  if src1 =? 0 then emov mod_ dst src0 strategy
  else if dstQ && emulate64 strategy && negb (noemulate64_shift strategy) then
    if src1 >=? 32 then None
    else
      let acc := setType ud (temp0 state) in
      let '(dstLo, dstHi) := splitToDW dst in
      if s0Q then
        let '(s0Lo, s0Hi) := splitToDW src0 in
        Some [shr mod_ acc s0Lo (32 - src1);
              shl mod_ dstHi s0Hi src1;
              shl mod_ dstLo s0Lo src1;
              or_ mod_ dstHi acc dstHi]
      else
        let dstHi := setType ud dstHi in
        Some [shl mod_ dstLo src0 src1;
              shr mod_ dstHi src0 (32 - src1)]
  else
    let src0 := if s0Q && negb dstQ then downgradeToDW src0 else src0 in
    Some [shl mod_ dst src0 src1].

(** [eshr]: shift right, emulating 64-bit arithmetic if configured. *)
Definition eshr (mod_ : InstructionModifier) (dst src0 : RegData) (src1 : Z)
    (strategy : EmulationStrategy) (state : EmulationState)
    : option (list Instr) :=
  let dst := applyDefaultType dst in
  let src0 := applyDefaultType src0 in
  let dstQ := isQW dst in
  let s0Q := isQW src0 in
  if src1 =? 0 then emov mod_ dst src0 strategy
  else if dstQ && emulate64 strategy && negb (noemulate64_shift strategy) then
    if src1 >=? 32 then None
    else
      let acc := setType ud (temp0 state) in
      let '(dstLo, dstHi) := splitToDW dst in
      if s0Q then
        let '(s0Lo, s0Hi) := splitToDW src0 in
        Some [shl mod_ acc s0Lo (32 - src1);
              shr mod_ dstLo s0Lo src1;
              (if isSigned (getType src0) then asr mod_ dstHi s0Hi src1
               else shr mod_ dstHi s0Hi src1);
              or_ mod_ dstLo acc dstLo]
      else
        let dstLo := setType (getType dstHi) dstLo in
        Some [(if isSigned (getType src0) then asr mod_ dstLo src0 src1
               else shr mod_ dstLo src0 src1);
              mov mod_ dstHi (literal 0)]
  else
    let src0 := if s0Q && negb dstQ then downgradeToDW src0 else src0 in
    Some [if isSigned (getType src0) then asr mod_ dst src0 src1
          else shr mod_ dst src0 src1].
End Generator.

(** The register operands of an instruction. *)
Definition operands (i : Instr) : list RegData :=
  match i with
  | mov _ dst (reg s) => [dst; s]
  | mov _ dst (literal _) => [dst]
  | shl _ dst s _ | shr _ dst s _ | asr _ dst s _ => [dst; s]
  | or_ _ dst s0 s1 => [dst; s0; s1]
  end.

(** An instruction with a 64-bit integer operand. *)
Definition usesQW (i : Instr) : bool := existsb isQW (operands i).

(** The register an instruction writes. *)
Definition written (i : Instr) : RegData :=
  match i with
  | mov _ dst _ | shl _ dst _ _ | shr _ dst _ _ | asr _ dst _ _
  | or_ _ dst _ _ => dst
  end.

(** *** What the emitted dword instructions compute

    The shifts of the emulation work on dwords.  Their effect is given
    for a scalar instruction (execution size 1) on dword operands without
    source modifier: a register file maps a register number and a dword
    index to the 32 bits held there. *)

Definition Regs := Z -> Z -> Z.

(** A valid operand without source modifier. *)
Definition plain (r : RegData) : bool := negb (getNeg r) && negb (isInvalid r).

Definition dwordAt (r : RegData) : option (Z * Z) :=
  if isDW r && plain r then Some (getBase r, getOffset r) else None.

Definition readAt (rf : Regs) (l : Z * Z) : Z := rf (fst l) (snd l).

Definition writeAt (rf : Regs) (l : Z * Z) (v : Z) : Regs :=
  fun b o => if (b =? fst l) && (o =? snd l) then v else rf b o.

Definition wrap32 (v : Z) : Z := v mod 2 ^ 32.

(** The content of a dword read with the type of the operand. *)
Definition valueAs (t : DataType) (v : Z) : Z :=
  match t with
  | d => if v <? 2 ^ 31 then v else v - 2 ^ 32
  | _ => v
  end.

Definition scalar (mod_ : InstructionModifier) (count : Z) : bool :=
  (getExecSize mod_ =? 1) && (0 <=? count) && (count <? 32).

Definition exec (i : Instr) (rf : Regs) : option Regs :=
  match i with
  | mov mod_ dst (reg s) =>
      match dwordAt dst, dwordAt s with
      | Some ld, Some ls =>
          if scalar mod_ 0 then Some (writeAt rf ld (readAt rf ls)) else None
      | _, _ => None
      end
  | mov mod_ dst (literal v) =>
      match dwordAt dst with
      | Some ld => if scalar mod_ 0 then Some (writeAt rf ld (wrap32 v)) else None
      | None => None
      end
  | shl mod_ dst s n =>
      match dwordAt dst, dwordAt s with
      | Some ld, Some ls =>
          if scalar mod_ n
          then Some (writeAt rf ld (wrap32 (Z.shiftl (readAt rf ls) n)))
          else None
      | _, _ => None
      end
  | shr mod_ dst s n =>
      match dwordAt dst, dwordAt s with
      | Some ld, Some ls =>
          if scalar mod_ n
          then Some (writeAt rf ld (Z.shiftr (readAt rf ls) n))
          else None
      | _, _ => None
      end
  | asr mod_ dst s n =>
      match dwordAt dst, dwordAt s with
      | Some ld, Some ls =>
          if scalar mod_ n
          then Some (writeAt rf ld
                       (wrap32 (Z.shiftr (valueAs (getType s) (readAt rf ls)) n)))
          else None
      | _, _ => None
      end
  | or_ mod_ dst s0 s1 =>
      match dwordAt dst, dwordAt s0, dwordAt s1 with
      | Some ld, Some l0, Some l1 =>
          if scalar mod_ 0
          then Some (writeAt rf ld (Z.lor (readAt rf l0) (readAt rf l1)))
          else None
      | _, _, _ => None
      end
  end.

Fixpoint run (ops : list Instr) (rf : Regs) : option Regs :=
  match ops with
  | [] => Some rf
  | i :: r =>
      match exec i rf with
      | Some rf1 => run r rf1
      | None => None
      end
  end.

(** The 64 bits a QW operand names: two adjacent dwords, low one first. *)
Definition loOf (r : RegData) : Z * Z := (getBase r, getOffset r * 2).
Definition hiOf (r : RegData) : Z * Z := (getBase r, getOffset r * 2 + 1).
Definition qwordAt (rf : Regs) (r : RegData) : Z :=
  readAt rf (loOf r) + 2 ^ 32 * readAt rf (hiOf r).

(** Every dword of the register file holds 32 bits. *)
Definition dwords (rf : Regs) : Prop := forall b o, 0 <= rf b o < 2 ^ 32.
End Emulation.

(** Sample operands: scalar subregisters, the flags of a platform that
    emulates all 64-bit arithmetic, and the signed integer types. *)
Definition emu_sub (t : Emulation.DataType) (base offset : Z)
    : Emulation.RegData :=
  {| Emulation.getType := t; Emulation.getBase := base;
     Emulation.getOffset := offset; Emulation.getVS := 0;
     Emulation.getWidth := 1; Emulation.getHS := 0;
     Emulation.getNeg := false; Emulation.isInvalid := false |}.

Definition emu_strategy64 : Emulation.EmulationStrategy :=
  {| Emulation.emulate64 := true; Emulation.emulateDWxDW := true;
     Emulation.emulate64_add32 := false; Emulation.emulate64_mul := true;
     Emulation.emulate64_logic := false;
     Emulation.noemulate64_shift := false |}.

Definition emu_state (t0 t1 : Z) : Emulation.EmulationState :=
  {| Emulation.temp0 := emu_sub Emulation.invalid t0 0;
     Emulation.temp1 := emu_sub Emulation.invalid t1 0 |}.

Definition emu_isSigned (t : Emulation.DataType) : bool :=
  match t with
  | Emulation.w | Emulation.d | Emulation.q => true
  | _ => false
  end.

Definition emu_scalar : Emulation.InstructionModifier :=
  {| Emulation.getExecSize := 1; Emulation.otherModifiers := 0 |}.

(** A register file with [lo] and [hi] in the first two dwords of
    register [r] and zero elsewhere. *)
Definition emu_regs (r lo hi : Z) : Emulation.Regs :=
  fun b o => if b =? r then (if o =? 0 then lo else if o =? 1 then hi else 0)
             else 0.
(** ** The phases of a whole run *)





(** ** The time shift of an occurrence *)

(** ** A configuration with split barriers in every loop

    [state.splitBarrierAlways] is set and the strategy splits its periodic
    barrier; the snapshot taken before the loop has no barrier header yet. *)



(** ** The stream of a single-buffer SLM store *)

(** What [kLoopBarrier(withSLMFence, KBarrierType::Normal)] appends: the
    SLM fence and its wait if asked for, then the signal and the wait, on
    the unnamed barrier ([rebuilt]: the barrier header had to be built
    first) or on each named barrier in use. *)
Definition barrierCode (strategy : Strategy.t) (withSLMFence rebuilt : bool)
    : list Instr :=
  (if withSLMFence then [slmfence; fencewait] else [])
  ++ (if negb (nbM strategy) && negb (nbN strategy)
      then (if rebuilt then [barrierheader] else [])
           ++ [barriermsg barrierHeader_; barrierwait]
      else (if nbM strategy then [barriermsg barrierHeaderM] else [])
           ++ (if nbN strategy then [barriermsg barrierHeaderN] else [])
           ++ (if nbM strategy then [sync_bar barrierM] else [])
           ++ (if nbN strategy then [sync_bar barrierN] else [])).

(** What [wrdeps] appends. *)
Definition wrdepsCode (strategy : Strategy.t) : list Instr :=
  (if Strategy.slmA strategy && (Strategy.A_copies strategy >? 1)
   then [call wrdepRanges_A] else [])
  ++ (if Strategy.slmB strategy && (Strategy.B_copies strategy >? 1)
      then [call wrdepRanges_B] else []).

(** What [slm1x2xFencedBarrier] appends, ahead of the stores. *)
Definition preStoreCode (strategy : Strategy.t) (q : Queries.t) (rebuilt : bool)
    : list Instr :=
  if Queries.hw_lt_XeHPG q && negb (Strategy.strictFence strategy) then
    barrierCode strategy false rebuilt
  else if ((Strategy.A_copies strategy >? 2) || (Strategy.B_copies strategy >? 2))
          && negb (Strategy.slmFenceWARWA strategy) then
    barrierCode strategy true rebuilt
  else
    wrdepsCode strategy ++ barrierCode strategy false rebuilt.

(** The sum accumulation that follows the stores. *)
Definition sumsCode (sumA sumB : bool) : list Instr :=
  (if sumA then [call accumulateSum_A] else [])
  ++ (if sumB then [call accumulateSum_B] else []).

(** One [doSLMStore] with a single SLM buffer: the barrier ahead of the
    stores, the stores, the sums, the fenced barrier. *)
Definition singleBufferStoreCode (strategy : Strategy.t) (q : Queries.t)
    (rebuiltBefore sumA sumB rebuiltAfter : bool) : list Instr :=
  preStoreCode strategy q rebuiltBefore
  ++ storesCode strategy
  ++ sumsCode sumA sumB
  ++ barrierCode strategy true rebuiltAfter.

(** SLM fences and their waits. *)
Definition isSLMFence (i : Instr) : Z :=
  match i with
  | slmfence => 1
  | _ => 0
  end.

Definition isFenceWait (i : Instr) : Z :=
  match i with
  | fencewait => 1
  | _ => 0
  end.
(** ** Allocations that may fail

    [state.ra.alloc_sub] and [state.ra.allocRange] throw
    [out_of_registers_exception] when no register is free.  In a recorded
    routine an allocation is a call that is recorded when it returns. *)

Definition rthrow {S C A} (e : Exn) : Rec S C A := fun s => (Throw e, s, []).

Definition rallocate {S C} (ok : bool) (c : C) : Rec S C unit :=
  if ok then rcall c else rthrow out_of_registers_exception.

(** ** Activation of the SLM remainders ([kLoopActivateSLMRemainder]) *)

Module SLMRemainder.

Inductive Call :=
| alloc_kSLMStorage
    (* kSLMStorage = state.ra.alloc_sub<uint32_t>(), when it returns *)
| gemmCalcKSLMA
| gemmCalcKSLMB
| add_sat_kSLMStorage (kOffset : Z)
    (* add(2 | sat, kSLMStorage.uw()(1), kSLMStorage.uw()(1), kOffset) *)
| wipeActiveVFlags
| loadMasks (ofBi : bool) (fromKSLM : bool) (offset : Z)
    (* loadMasks(kMasksAi or kMasksBi, rems, offsets, ..): rems[2] is kSLMA
       or kSLMB when [fromKSLM] and state.K otherwise, offsets[2] is [offset] *)
| copyLayoutToRem (ofBi : bool)
    (* state.Ai_layoutRem = state.Ai_layout; state.Ai_addrsRem = state.Ai_addrs; *)
| addRemainder (ofBi : bool)
| assignMasks (ofBi : bool) (intoKMasksAi : bool)
| allocRange_regsRem (ofBo : bool)
    (* state.Ao_regsRem = state.ra.allocRange(state.Ao_layout.regs()),
       when it returns *)
| reverseMasks (ofBi : bool) (k : Z).

(** The fields of [state] the routine assigns. *)
Record Flags := {
  kSLMStorage_valid : bool;    (* state.kSLMStorage.isValid() *)
  kSLMA_valid : bool;
  kSLMB_valid : bool;
  initSLMKOffset : Z;
  remActiveSLM : bool;
  aioShareRem : bool;
  bioShareRem : bool;
  Ao_regsRem_empty : bool;     (* state.Ao_regsRem.empty() *)
  Bo_regsRem_empty : bool;
  slmRemaskA : bool;
  slmRemaskB : bool;
}.

(** What the routine reads besides [problem], [strategy.slmA],
    [strategy.slmB], [strategy.unrollKSLM] and
    [minOuterProductCount(hw, problem, strategy)], the answers of the
    routines of other files whose result it uses, and whether each of its
    three allocations finds registers: [state.ra.alloc_sub] and
    [state.ra.allocRange] throw [out_of_registers_exception] when they
    do not. *)
Record Config := {
  Ai_incrementalRem : bool;
  Bi_incrementalRem : bool;
  Ai_remIncrCopy : bool;
  Bi_remIncrCopy : bool;
  Ai_lateKRem : bool;
  Bi_lateKRem : bool;
  effCoopA_K : bool;  (* state.effCoopA == CoopSplit::K || state.effCoopA == CoopSplit::FullK *)
  effCoopB_K : bool;
  kMasksAi_empty : bool;       (* state.kMasksAi.empty(), on entry *)
  kMasksBi_empty : bool;
  Ai_padded : bool;            (* state.Ai_strategy.padded *)
  Bi_padded : bool;
  aioShare : bool;
  bioShare : bool;
  crosspackDiffersA : bool;
    (* state.Ai_layoutRem[0].crosspack != state.Ai_layout[0].crosspack,
       after addRemainder *)
  crosspackDiffersB : bool;
  assignMasksAi_ok : bool;     (* what assignMasks(state.Ai_layoutRem, ..) returns *)
  assignMasksBi_ok : bool;
  needsRemaskAi : bool;        (* what needsRemask(Ta_ext, true, ..) returns *)
  needsRemaskBi : bool;
  alloc_kSLMStorage_ok : bool; (* state.ra.alloc_sub<uint32_t>() returns *)
  allocRange_Ao_ok : bool;     (* state.ra.allocRange(state.Ao_layout.regs()) returns *)
  allocRange_Bo_ok : bool;
}.

Section Routine.
Variable problem : Problem.t.
Variable strategy : Strategy.t.
Variable q : Queries.t.
Variable cfg : Config.

Definition M := Rec Flags Call.

Definition needKSLMAMask : bool := Ai_lateKRem cfg && effCoopA_K cfg.
Definition needKSLMBMask : bool := Bi_lateKRem cfg && effCoopB_K cfg.
Definition needKSLMA : bool := Ai_incrementalRem cfg || needKSLMAMask.
Definition needKSLMB : bool := Bi_incrementalRem cfg || needKSLMBMask.
Definition shareKMasksAiBi : bool := negb (needKSLMAMask || needKSLMBMask).

Definition modify (f : Flags -> Flags) : M unit := s <~ rget;;; rput (f s).

Definition set_kSLMStorage_valid (v : bool) (s : Flags) : Flags :=
  {| kSLMStorage_valid := v; kSLMA_valid := kSLMA_valid s;
     kSLMB_valid := kSLMB_valid s; initSLMKOffset := initSLMKOffset s;
     remActiveSLM := remActiveSLM s; aioShareRem := aioShareRem s;
     bioShareRem := bioShareRem s; Ao_regsRem_empty := Ao_regsRem_empty s;
     Bo_regsRem_empty := Bo_regsRem_empty s; slmRemaskA := slmRemaskA s;
     slmRemaskB := slmRemaskB s |}.
Definition set_kSLMA_valid (v : bool) (s : Flags) : Flags :=
  {| kSLMStorage_valid := kSLMStorage_valid s; kSLMA_valid := v;
     kSLMB_valid := kSLMB_valid s; initSLMKOffset := initSLMKOffset s;
     remActiveSLM := remActiveSLM s; aioShareRem := aioShareRem s;
     bioShareRem := bioShareRem s; Ao_regsRem_empty := Ao_regsRem_empty s;
     Bo_regsRem_empty := Bo_regsRem_empty s; slmRemaskA := slmRemaskA s;
     slmRemaskB := slmRemaskB s |}.
Definition set_kSLMB_valid (v : bool) (s : Flags) : Flags :=
  {| kSLMStorage_valid := kSLMStorage_valid s; kSLMA_valid := kSLMA_valid s;
     kSLMB_valid := v; initSLMKOffset := initSLMKOffset s;
     remActiveSLM := remActiveSLM s; aioShareRem := aioShareRem s;
     bioShareRem := bioShareRem s; Ao_regsRem_empty := Ao_regsRem_empty s;
     Bo_regsRem_empty := Bo_regsRem_empty s; slmRemaskA := slmRemaskA s;
     slmRemaskB := slmRemaskB s |}.
Definition set_initSLMKOffset (v : Z) (s : Flags) : Flags :=
  {| kSLMStorage_valid := kSLMStorage_valid s; kSLMA_valid := kSLMA_valid s;
     kSLMB_valid := kSLMB_valid s; initSLMKOffset := v;
     remActiveSLM := remActiveSLM s; aioShareRem := aioShareRem s;
     bioShareRem := bioShareRem s; Ao_regsRem_empty := Ao_regsRem_empty s;
     Bo_regsRem_empty := Bo_regsRem_empty s; slmRemaskA := slmRemaskA s;
     slmRemaskB := slmRemaskB s |}.
Definition set_remActiveSLM (v : bool) (s : Flags) : Flags :=
  {| kSLMStorage_valid := kSLMStorage_valid s; kSLMA_valid := kSLMA_valid s;
     kSLMB_valid := kSLMB_valid s; initSLMKOffset := initSLMKOffset s;
     remActiveSLM := v; aioShareRem := aioShareRem s;
     bioShareRem := bioShareRem s; Ao_regsRem_empty := Ao_regsRem_empty s;
     Bo_regsRem_empty := Bo_regsRem_empty s; slmRemaskA := slmRemaskA s;
     slmRemaskB := slmRemaskB s |}.
(** [state.aioShareRem = false;] *)
Definition unshareAo (s : Flags) : Flags :=
  {| kSLMStorage_valid := kSLMStorage_valid s; kSLMA_valid := kSLMA_valid s;
     kSLMB_valid := kSLMB_valid s; initSLMKOffset := initSLMKOffset s;
     remActiveSLM := remActiveSLM s; aioShareRem := false;
     bioShareRem := bioShareRem s; Ao_regsRem_empty := Ao_regsRem_empty s;
     Bo_regsRem_empty := Bo_regsRem_empty s; slmRemaskA := slmRemaskA s;
     slmRemaskB := slmRemaskB s |}.
Definition unshareBo (s : Flags) : Flags :=
  {| kSLMStorage_valid := kSLMStorage_valid s; kSLMA_valid := kSLMA_valid s;
     kSLMB_valid := kSLMB_valid s; initSLMKOffset := initSLMKOffset s;
     remActiveSLM := remActiveSLM s; aioShareRem := aioShareRem s;
     bioShareRem := false; Ao_regsRem_empty := Ao_regsRem_empty s;
     Bo_regsRem_empty := Bo_regsRem_empty s; slmRemaskA := slmRemaskA s;
     slmRemaskB := slmRemaskB s |}.
(** [state.Ao_regsRem = ..], the range just allocated. *)
Definition fillAoRem (s : Flags) : Flags :=
  {| kSLMStorage_valid := kSLMStorage_valid s; kSLMA_valid := kSLMA_valid s;
     kSLMB_valid := kSLMB_valid s; initSLMKOffset := initSLMKOffset s;
     remActiveSLM := remActiveSLM s; aioShareRem := aioShareRem s;
     bioShareRem := bioShareRem s; Ao_regsRem_empty := false;
     Bo_regsRem_empty := Bo_regsRem_empty s; slmRemaskA := slmRemaskA s;
     slmRemaskB := slmRemaskB s |}.
Definition fillBoRem (s : Flags) : Flags :=
  {| kSLMStorage_valid := kSLMStorage_valid s; kSLMA_valid := kSLMA_valid s;
     kSLMB_valid := kSLMB_valid s; initSLMKOffset := initSLMKOffset s;
     remActiveSLM := remActiveSLM s; aioShareRem := aioShareRem s;
     bioShareRem := bioShareRem s; Ao_regsRem_empty := Ao_regsRem_empty s;
     Bo_regsRem_empty := false; slmRemaskA := slmRemaskA s;
     slmRemaskB := slmRemaskB s |}.
Definition set_slmRemask (a b : bool) (s : Flags) : Flags :=
  {| kSLMStorage_valid := kSLMStorage_valid s; kSLMA_valid := kSLMA_valid s;
     kSLMB_valid := kSLMB_valid s; initSLMKOffset := initSLMKOffset s;
     remActiveSLM := remActiveSLM s; aioShareRem := aioShareRem s;
     bioShareRem := bioShareRem s; Ao_regsRem_empty := Ao_regsRem_empty s;
     Bo_regsRem_empty := Bo_regsRem_empty s; slmRemaskA := a;
     slmRemaskB := b |}.

(** [loadMasks(kMasksAi, remsAi, offsetsAi, ..); loadMasks(kMasksBi, remsBi, offsetsBi, ..);]
    with [remsAi], [offsetsAi], [remsBi], [offsetsBi] as set up under
    [// k mask information.] *)
Definition loadBothMasks (kOffset : Z) : M unit :=
  s <~ rget;;;
  rcall (loadMasks false needKSLMAMask
           (if needKSLMAMask then - kOffset + initSLMKOffset s else - kOffset));;;
  rcall (loadMasks true needKSLMBMask
           (if needKSLMBMask then - kOffset + initSLMKOffset s else - kOffset)).

(** The part after [// If not changing between main loop and remainder, ...]. *)
Definition switchRemainder (active preactivate : bool) (kOffset : Z) : M unit :=
  s <~ rget;;;
  (* Not possible to deactivate remainder path with late k remainder. *)
  rwhen (negb active && remActiveSLM s && (Ai_lateKRem cfg || Bi_lateKRem cfg))
        rstub;;;
  modify (set_remActiveSLM active);;;
  (* Start using k masks if needed. *)
  rwhen (Ai_lateKRem cfg && negb (Ai_padded cfg))
    (rcall (copyLayoutToRem false);;;
     rcall (addRemainder false);;;
     rcall (assignMasks false true);;;
     rwhen (negb (assignMasksAi_ok cfg)) rstub;;;
     s1 <~ rget;;;
     rwhen (aioShare cfg && Ao_regsRem_empty s1 && crosspackDiffersA cfg)
       (modify unshareAo;;;
        rallocate (allocRange_Ao_ok cfg) (allocRange_regsRem false);;;
        modify fillAoRem));;;
  rwhen (Bi_lateKRem cfg && negb (Bi_padded cfg))
    (rcall (copyLayoutToRem true);;;
     rcall (addRemainder true);;;
     rcall (assignMasks true shareKMasksAiBi);;;
     rwhen (negb (assignMasksBi_ok cfg)) rstub;;;
     s1 <~ rget;;;
     rwhen (bioShare cfg && Bo_regsRem_empty s1 && crosspackDiffersB cfg)
       (modify unshareBo;;;
        rallocate (allocRange_Bo_ok cfg) (allocRange_regsRem true);;;
        modify fillBoRem));;;
  rwhen (Problem.backward problem)
    (rcall (reverseMasks false (Strategy.unrollKSLM strategy));;;
     rcall (reverseMasks true (Strategy.unrollKSLM strategy)));;;
  rwhen (negb preactivate) (loadBothMasks kOffset);;;
  let mayAccessAllK :=
    (Queries.minOuterProductCount q >? 1)
    || Problem.needsASums problem || Problem.needsBSums problem in
  modify (set_slmRemask
            (Strategy.slmA strategy && mayAccessAllK
             && negb (Ai_remIncrCopy cfg) && needsRemaskAi cfg)
            (Strategy.slmB strategy && mayAccessAllK
             && negb (Bi_remIncrCopy cfg) && needsRemaskBi cfg)).

Definition kLoopActivateSLMRemainder (active preactivate : bool) (kOffset : Z)
    : M unit :=
  s <~ rget;;;
  (* Calculate or recalculate SLM k remainders as needed. *)
  rwhen (active && negb preactivate && negb (kSLMStorage_valid s))
    (rwhen (needKSLMA || needKSLMB)
       (rallocate (alloc_kSLMStorage_ok cfg) alloc_kSLMStorage;;;
        modify (set_kSLMStorage_valid true));;;
     rwhen (needKSLMA && negb preactivate)
       (modify (set_kSLMA_valid true);;; rcall gemmCalcKSLMA);;;
     rwhen (needKSLMB && negb preactivate)
       (modify (set_kSLMB_valid true);;; rcall gemmCalcKSLMB);;;
     rwhen ((needKSLMA || needKSLMB) && negb (kOffset =? 0))
       (rcall (add_sat_kSLMStorage kOffset));;;
     modify (set_initSLMKOffset kOffset));;;
  s <~ rget;;;
  (* If not changing between main loop and remainder, update k masks as
     needed and return. *)
  if Bool.eqb (remActiveSLM s) active then
    rwhen (active && negb preactivate)
      (rwhen (negb (kMasksAi_empty cfg) || negb (kMasksBi_empty cfg))
             (rcall wipeActiveVFlags);;;
       loadBothMasks kOffset)
  else switchRemainder active preactivate kOffset.
End Routine.

(** A call that loads masks from an SLM remainder counter with an offset
    other than [off]. *)
Definition loadsFromKSLMOffBy (off : Z) (c : Call) : bool :=
  match c with
  | loadMasks _ true o => negb (o =? off)
  | _ => false
  end.

(** A call that allocates or computes an SLM remainder counter, or loads
    k masks. *)
Definition touchesCounters (c : Call) : bool :=
  match c with
  | alloc_kSLMStorage | gemmCalcKSLMA | gemmCalcKSLMB
  | add_sat_kSLMStorage _ | loadMasks _ _ _ => true
  | _ => false
  end.

(** A call that loads the masks of [Ai] ([ofBi = false]) or [Bi] from its
    SLM remainder counter. *)
Definition loadsFromCounter (ofBi : bool) (c : Call) : bool :=
  match c with
  | loadMasks b true _ => Bool.eqb b ofBi
  | _ => false
  end.

(** While [kSLMStorage] is allocated, the counters the configuration needs
    have been taken from it.  This holds before the first activation and
    after the loop's [resetKSLM], which leave all three invalid. *)
Definition countersReady (cfg : Config) (s : Flags) : bool :=
  negb (kSLMStorage_valid s)
  || ((negb (needKSLMA cfg) || kSLMA_valid s)
      && (negb (needKSLMB cfg) || kSLMB_valid s)).
End SLMRemainder.


(** A configuration with a late k remainder on [Ai], split along k, and the
    flags before the first activation. *)
Definition slm_cfg_lateA : SLMRemainder.Config :=
  {| SLMRemainder.Ai_incrementalRem := false;
     SLMRemainder.Bi_incrementalRem := false;
     SLMRemainder.Ai_remIncrCopy := false;
     SLMRemainder.Bi_remIncrCopy := false;
     SLMRemainder.Ai_lateKRem := true;
     SLMRemainder.Bi_lateKRem := false;
     SLMRemainder.effCoopA_K := true;
     SLMRemainder.effCoopB_K := false;
     SLMRemainder.kMasksAi_empty := true;
     SLMRemainder.kMasksBi_empty := true;
     SLMRemainder.Ai_padded := false;
     SLMRemainder.Bi_padded := false;
     SLMRemainder.aioShare := false;
     SLMRemainder.bioShare := false;
     SLMRemainder.crosspackDiffersA := false;
     SLMRemainder.crosspackDiffersB := false;
     SLMRemainder.assignMasksAi_ok := true;
     SLMRemainder.assignMasksBi_ok := true;
     SLMRemainder.needsRemaskAi := false;
     SLMRemainder.needsRemaskBi := false;
     SLMRemainder.alloc_kSLMStorage_ok := true;
     SLMRemainder.allocRange_Ao_ok := true;
     SLMRemainder.allocRange_Bo_ok := true |}.

Definition slm_flags_fresh : SLMRemainder.Flags :=
  {| SLMRemainder.kSLMStorage_valid := false;
     SLMRemainder.kSLMA_valid := false;
     SLMRemainder.kSLMB_valid := false;
     SLMRemainder.initSLMKOffset := 0;
     SLMRemainder.remActiveSLM := false;
     SLMRemainder.aioShareRem := false;
     SLMRemainder.bioShareRem := false;
     SLMRemainder.Ao_regsRem_empty := true;
     SLMRemainder.Bo_regsRem_empty := true;
     SLMRemainder.slmRemaskA := false;
     SLMRemainder.slmRemaskB := false |}.

(** ** Remasking of incoming data for the SLM copies ([gemmSLMRemask]) *)

Module SLMRemask.

Inductive Op :=
| alloc_offK (forB : bool)
    (* offK_A = state.ra.alloc_sub<uint32_t>(), or offK_B when [forB],
       when it returns *)
| mulConstant_offK (forB : bool) (k : Z)
    (* mulConstant(1, offK_A, state.lidN, state.ka_slm), or
       mulConstant(1, offK_B, state.lidM, state.kb_slm) *)
| setupTeardownRemask (ofTb : bool) (index : Z) (setup : bool)
                      (len kOffset : Z) (offK : option bool)
    (* setupTeardownRemask(Ta or Tb, index, setup, len, state.K, ..,
                           kOffset, offK): [offK] is [Some false] for a
       valid offK_A, [Some true] for a valid offK_B, [None] for an
       invalid register *)
| remaskLayout (index : Z) (column : bool)
    (* remaskLayout(index, column, state.Ao_layout or state.Bo_layout, ..) *)
| safeRelease_offK (forB : bool).

Record Config := {
  effCoopA_K : bool;  (* state.effCoopA == CoopSplit::K || state.effCoopA == CoopSplit::FullK *)
  effCoopB_K : bool;
  Ta_bits : Z;        (* problem.Ta.bits() *)
  Tb_bits : Z;
  ka_slm : Z;         (* state.ka_slm *)
  kb_slm : Z;
  alloc_offK_A_ok : bool;  (* state.ra.alloc_sub<uint32_t>() returns, for offK_A *)
  alloc_offK_B_ok : bool;
}.

Section Routine.
Variable problem : Problem.t.
Variable cfg : Config.
Variables remaskA remaskB : bool.
Variable kOffset : Z.

Definition oremaskA : bool := remaskA && effCoopA_K cfg.
Definition oremaskB : bool := remaskB && effCoopB_K cfg.
Definition shareRemask : bool :=
  remaskA && remaskB && negb oremaskA && negb oremaskB
  && (Ta_bits cfg =? Tb_bits cfg).

(** The routine has no state of its own: the recorder runs on [unit]. *)
Definition gemmSLMRemask : Rec unit Op unit :=
  rwhen (Problem.backward problem) rstub;;;
  let aRemaskLen := ka_slm cfg in
  let bRemaskLen := kb_slm cfg in
  let iremaskA := 0 in
  let iremaskB := if shareRemask then iremaskA else 1 in
  rwhen oremaskA
    (rallocate (alloc_offK_A_ok cfg) (alloc_offK false);;;
     rcall (mulConstant_offK false (ka_slm cfg)));;;
  rwhen oremaskB
    (rallocate (alloc_offK_B_ok cfg) (alloc_offK true);;;
     rcall (mulConstant_offK true (kb_slm cfg)));;;
  let offK_A := if oremaskA then Some false else None in
  let offK_B := if oremaskB then Some true else None in
  let aRemaskLen :=
    if shareRemask then Z.max aRemaskLen bRemaskLen else aRemaskLen in
  let bRemaskLen :=
    if shareRemask then aRemaskLen else bRemaskLen in
  rwhen remaskA
    (rcall (setupTeardownRemask false iremaskA true aRemaskLen kOffset offK_A);;;
     rcall (remaskLayout iremaskA true);;;
     rwhen (negb shareRemask)
       (rcall (setupTeardownRemask false iremaskA false aRemaskLen kOffset
                                   offK_A)));;;
  rwhen remaskB
    (rwhen (negb shareRemask)
       (rcall (setupTeardownRemask true iremaskB true bRemaskLen kOffset
                                   offK_B));;;
     rcall (remaskLayout iremaskB false);;;
     rcall (setupTeardownRemask true iremaskB false bRemaskLen kOffset offK_B));;;
  rcall (safeRelease_offK false);;;
  rcall (safeRelease_offK true).
End Routine.

(** A mask in use: its index, its length and the width of the element
    type it was set up for. *)
Definition Mask : Type := Z * Z * Z.

(** The calls are well bracketed when every mask is set up while none is
    in use, every layout is remasked with the mask in use, every mask is
    torn down with the index, length and element width it was set up
    with, and no mask is left in use. *)
Fixpoint bracketed (cfg : Config) (cur : option Mask) (ops : list Op) : bool :=
  match ops with
  | [] => match cur with None => true | Some _ => false end
  | setupTeardownRemask ofTb i true len _ _ :: r =>
      match cur with
      | None =>
          bracketed cfg (Some (i, len, if ofTb then Tb_bits cfg else Ta_bits cfg)) r
      | Some _ => false
      end
  | setupTeardownRemask ofTb i false len _ _ :: r =>
      match cur with
      | Some (j, l, bits) =>
          (i =? j) && (len =? l)
          && ((if ofTb then Tb_bits cfg else Ta_bits cfg) =? bits)
          && bracketed cfg None r
      | None => false
      end
  | remaskLayout i _ :: r =>
      match cur with
      | Some (j, _, _) => (i =? j) && bracketed cfg cur r
      | None => false
      end
  | _ :: r => bracketed cfg cur r
  end.

(** The mask in use is long enough for every layout remasked with it:
    the A layout ([column = true]) spans [ka_slm] in k and the B layout
    [kb_slm]; [len] is the length of the mask in use, if any. *)
Fixpoint longEnough (cfg : Config) (len : option Z) (ops : list Op) : bool :=
  match ops with
  | [] => true
  | setupTeardownRemask _ _ true l _ _ :: r => longEnough cfg (Some l) r
  | setupTeardownRemask _ _ false _ _ _ :: r => longEnough cfg None r
  | remaskLayout _ column :: r =>
      match len with
      | Some l =>
          ((if column then ka_slm cfg else kb_slm cfg) <=? l)
          && longEnough cfg len r
      | None => false
      end
  | _ :: r => longEnough cfg len r
  end.

(** The mask lengths the routine sets up, in order. *)
Fixpoint setupLengths (ops : list Op) : list Z :=
  match ops with
  | [] => []
  | setupTeardownRemask _ _ true l _ _ :: r => l :: setupLengths r
  | _ :: r => setupLengths r
  end.

(** The temporaries that are allocated and not released. *)
Fixpoint leaked (held : bool * bool) (ops : list Op) : bool * bool :=
  match ops with
  | [] => held
  | alloc_offK false :: r => leaked (true, snd held) r
  | alloc_offK true :: r => leaked (fst held, true) r
  | safeRelease_offK false :: r => leaked (false, snd held) r
  | safeRelease_offK true :: r => leaked (fst held, false) r
  | _ :: r => leaked held r
  end.
End SLMRemask.

(** A and B remasked with one mask: 8-bit types, no split along k, SLM
    copies of 16 and 32 in k. *)
Definition remask_cfg_shared : SLMRemask.Config :=
  {| SLMRemask.effCoopA_K := false; SLMRemask.effCoopB_K := false;
     SLMRemask.Ta_bits := 8; SLMRemask.Tb_bits := 8;
     SLMRemask.ka_slm := 16; SLMRemask.kb_slm := 32;
     SLMRemask.alloc_offK_A_ok := true; SLMRemask.alloc_offK_B_ok := true |}.
(** * Properties *)

(** ** Reasoning about generator computations *)

Section Reasoning.
Context {P : Platform}.

Lemma bind_Ok {A B} (g : Gen A) (k : A -> Gen B) b c b' :
  bind g k b = (Ok c, b') ->
  exists a b1, g b = (Ok a, b1) /\ k a b1 = (Ok c, b').
Proof.
  unfold bind. destruct (g b) as [[a | e] b1]; intros E.
  - exists a, b1. split; [reflexivity | exact E].
  - discriminate.
Qed.

Lemma bind_Throw {A B} (g : Gen A) (k : A -> Gen B) b e b' :
  g b = (Throw e, b') -> bind g k b = (Throw e, b').
Proof. unfold bind. intros ->. reflexivity. Qed.

Lemma bind_step {A B} (g : Gen A) (k : A -> Gen B) b a b1 :
  g b = (Ok a, b1) -> bind g k b = k a b1.
Proof. unfold bind. intros ->. reflexivity. Qed.

Lemma weight_app w l1 l2 : weight w (l1 ++ l2) = weight w l1 + weight w l2.
Proof.
  unfold weight. induction l1 as [| x l1 IH]; cbn [fold_right app];
    [reflexivity | rewrite IH; lia].
Qed.

Lemma Counts_ret {A} w (a : A) : Counts w 0 (ret a).
Proof.
  intros b x b' E. inversion E; subst; clear E. split; [reflexivity |].
  exists []. rewrite app_nil_r. split; reflexivity.
Qed.

Lemma Counts_throw {A} w n e : Counts w n (@throw P A e).
Proof. intros b x b' E. discriminate. Qed.

Lemma Counts_emit w i : Counts w (w i) (emit i).
Proof.
  intros b x b' E. inversion E; subst; clear E. split; [reflexivity |].
  exists [i]. split; [reflexivity | cbn; lia].
Qed.

Lemma Counts_getState w : Counts w 0 getState.
Proof.
  intros b x b' E. inversion E; subst; clear E. split; [reflexivity |].
  exists []. rewrite app_nil_r. split; reflexivity.
Qed.

Lemma Counts_getLocals w : Counts w 0 getLocals.
Proof.
  intros b x b' E. inversion E; subst; clear E. split; [reflexivity |].
  exists []. rewrite app_nil_r. split; reflexivity.
Qed.

Lemma Counts_putState w s : Counts w 0 (putState s).
Proof.
  intros b x b' E. inversion E; subst; clear E. split; [reflexivity |].
  exists []. cbn. rewrite app_nil_r. split; reflexivity.
Qed.

Lemma Counts_bind {A B} w n1 n2 n (g : Gen A) (k : A -> Gen B) :
  Counts w n1 g -> (forall a, Counts w n2 (k a)) -> n1 + n2 = n ->
  Counts w n (bind g k).
Proof.
  intros Hg Hk Hn b c b' E.
  apply bind_Ok in E. destruct E as (a & b1 & E1 & E2).
  apply Hg in E1. destruct E1 as (Hp1 & l1 & Hc1 & Hw1).
  apply Hk in E2. destruct E2 as (Hp2 & l2 & Hc2 & Hw2).
  split; [congruence |].
  exists (l1 ++ l2). split.
  - rewrite Hc2, Hc1. symmetry. apply app_assoc.
  - rewrite weight_app. lia.
Qed.

Lemma Counts_bind0 {A B} w (g : Gen A) (k : A -> Gen B) :
  Counts w 0 g -> (forall a, Counts w 0 (k a)) -> Counts w 0 (bind g k).
Proof. intros Hg Hk. apply (Counts_bind w 0 0); auto. Qed.

Lemma Counts_when w n (c : bool) g :
  Counts w n g -> Counts w (if c then n else 0) (when c g).
Proof. intros Hg. destruct c; [exact Hg | apply Counts_ret]. Qed.

Lemma Counts_when0 w (c : bool) g : Counts w 0 g -> Counts w 0 (when c g).
Proof. intros Hg. destruct c; [exact Hg | apply Counts_ret]. Qed.

Lemma Counts_forEach0 {A} w (l : list A) f :
  (forall x, Counts w 0 (f x)) -> Counts w 0 (forEach l f).
Proof.
  intros Hf. induction l as [| x l IH]; cbn [forEach].
  - apply Counts_ret.
  - apply Counts_bind0; [apply Hf | intros _; exact IH].
Qed.

Lemma Counts_modifyState w f : Counts w 0 (modifyState f).
Proof.
  unfold modifyState. apply Counts_bind0; [apply Counts_getState |].
  intros st. apply Counts_putState.
Qed.

Lemma Counts_modifyLocals w f :
  (forall l, curPhase (f l) = curPhase l) -> Counts w 0 (modifyLocals f).
Proof.
  intros Hf b x b' E. unfold modifyLocals, bind, getLocals, putLocals in E.
  inversion E; subst; clear E. cbn. split; [apply Hf |].
  exists []. rewrite app_nil_r. split; reflexivity.
Qed.

Section WithHelpers.
Context {H : Helpers}.

Lemma Counts_stateHelper w f : Counts w 0 (stateHelper f).
Proof.
  unfold stateHelper. apply Counts_bind0; [apply Counts_getState |].
  intros st. destruct (runHelper f st);
    [apply Counts_putState | apply Counts_throw].
Qed.

Lemma Counts_callHelper w f : Counts w (w (call f)) (callHelper f).
Proof.
  unfold callHelper.
  apply (Counts_bind w (w (call f)) 0); [apply Counts_emit | | lia].
  intros _. apply Counts_bind0; [apply Counts_getState |].
  intros st. destruct (runHelper f st);
    [apply Counts_putState | apply Counts_throw].
Qed.
End WithHelpers.
End Reasoning.

Create HintDb gen.

#[local] Hint Unfold slmFenceIssue releaseFenceTemp getFenceTemp
  kLoopAllocBarrierHeader kLoopGetBarrierHeader wrdeps vflagTeardown
  resetKSLM teardownRemasks resetForNewLoop stub : gen.

(** Discharges [Counts w 0 g] for computations built from the primitives
    whose instructions all weigh nothing under [w]. *)
Ltac quiet :=
  repeat first
    [ apply Counts_ret
    | apply Counts_throw
    | apply Counts_getState
    | apply Counts_getLocals
    | apply Counts_putState
    | apply Counts_modifyState
    | apply Counts_stateHelper
    | apply Counts_modifyLocals; intros; reflexivity
    | exact (Counts_emit _ _)
    | exact (Counts_callHelper _ _)
    | apply Counts_when0
    | apply Counts_forEach0; intros
    | apply Counts_bind0; [ | intros ]
    | match goal with
      | |- Counts _ _ (if ?c then _ else _) => destruct c
      | |- Counts _ _ (match ?x with _ => _ end) => destruct x
      end
    | progress autounfold with gen ].

(** ** SLM store address rotation *)

Section SLMStoreRotation.
Variable strategy : Strategy.t.
Let u := Strategy.unrollKSLM strategy.
Let b := Strategy.slmBuffers strategy.
Hypothesis u_pos : 0 < u.
Hypothesis b_pos : 0 < b.

Lemma slmBuffer_mod (h : Z) : 0 <= h -> slmBuffer strategy h = (h / u) mod b.
Proof.
  intros Hh. unfold slmBuffer. fold u b.
  rewrite Z.quot_div_nonneg by lia.
  apply Z.rem_mod_nonneg; [apply Z.div_pos; lia | lia].
Qed.

Lemma slmBuffer_next (h : Z) :
  0 <= h ->
  slmBuffer strategy (h + u) =
    if slmBuffer strategy h =? b - 1 then 0 else slmBuffer strategy h + 1.
Proof.
  intros Hh. rewrite !slmBuffer_mod by lia.
  replace (h + u) with (h + 1 * u) by lia.
  rewrite Z.div_add by lia.
  set (q := h / u).
  assert (Hq : 0 <= q) by (apply Z.div_pos; lia).
  pose proof (Z.mod_pos_bound q b b_pos) as Hr.
  destruct (Z.eqb_spec (q mod b) (b - 1)) as [E | E].
  - rewrite <- Zplus_mod_idemp_l, E.
    replace (b - 1 + 1) with b by lia. apply Z.mod_same. lia.
  - rewrite <- Zplus_mod_idemp_l. apply Z.mod_small. lia.
Qed.

(** Starting in slot [s], [n] stores move the address by the distance
    between slot [(s + n) mod b] and slot [s]. *)
Lemma netSLMStoreInc_slots (n : nat) (h : Z) :
  0 <= h ->
  netSLMStoreInc strategy h n =
    ((slmBuffer strategy h + Z.of_nat n) mod b - slmBuffer strategy h) * u.
Proof.
  revert h. induction n as [| n IH]; intros h Hh.
  - cbn [netSLMStoreInc]. rewrite Z.add_0_r.
    rewrite slmBuffer_mod by lia. rewrite Z.mod_mod by lia. lia.
  - cbn [netSLMStoreInc]. fold u. rewrite IH by lia.
    rewrite slmBuffer_next by lia. unfold kIncSLMStore. fold u b.
    pose proof (slmBuffer_mod h Hh) as Hs.
    pose proof (Z.mod_pos_bound (h / u) b b_pos) as Hr.
    rewrite <- Hs in Hr.
    destruct (Z.eqb_spec (slmBuffer strategy h) (b - 1)) as [E | E].
    + rewrite E.
      replace (b - 1 + Z.of_nat (S n)) with (Z.of_nat n + 1 * b) by lia.
      rewrite Z.mod_add by lia. rewrite Z.add_0_l. lia.
    + replace (slmBuffer strategy h + 1 + Z.of_nat n)
        with (slmBuffer strategy h + Z.of_nat (S n)) by lia.
      lia.
Qed.
End SLMStoreRotation.

(** C9: after a store at iteration [h >= 0] the SLM store address moves by
    [+unrollKSLM], except after a store to the last buffer, where it moves
    by [-(slmBuffers-1)*unrollKSLM]; hence over any [slmBuffers]
    consecutive store blocks the net movement is zero, and after [n] stores
    from slot 0 the address sits at slot [n mod slmBuffers]. *)
Theorem doSLMStoreInc_cycles (strategy : Strategy.t) (h : Z) :
  0 < Strategy.unrollKSLM strategy ->
  0 < Strategy.slmBuffers strategy ->
  0 <= h ->
  kIncSLMStore strategy h =
    (if slmBuffer strategy h =? Strategy.slmBuffers strategy - 1
     then - (Strategy.slmBuffers strategy - 1) * Strategy.unrollKSLM strategy
     else Strategy.unrollKSLM strategy)
  /\ netSLMStoreInc strategy h (Z.to_nat (Strategy.slmBuffers strategy)) = 0
  /\ (forall n : nat,
        netSLMStoreInc strategy 0 n =
          (Z.of_nat n mod Strategy.slmBuffers strategy)
          * Strategy.unrollKSLM strategy)
  /\ (forall n : nat,
        0 <= slmBuffer strategy (h + Z.of_nat n * Strategy.unrollKSLM strategy)
          < Strategy.slmBuffers strategy).
Proof.
  intros Hu Hb Hh. repeat split.
  - unfold kIncSLMStore. destruct (_ =? _); lia.
  - rewrite netSLMStoreInc_slots by assumption.
    rewrite Z2Nat.id by lia.
    replace (slmBuffer strategy h + Strategy.slmBuffers strategy)
      with (slmBuffer strategy h + 1 * Strategy.slmBuffers strategy) by lia.
    rewrite Z.mod_add by lia.
    rewrite slmBuffer_mod by assumption.
    rewrite Z.mod_mod by lia. lia.
  - intros n. rewrite netSLMStoreInc_slots by (assumption || lia).
    rewrite slmBuffer_mod by (assumption || lia).
    rewrite Z.div_0_l by lia. rewrite Z.mod_0_l by lia.
    rewrite Z.add_0_l. lia.
  - rewrite slmBuffer_mod by (assumption || nia).
    apply Z.mod_pos_bound. lia.
  - rewrite slmBuffer_mod by (assumption || nia).
    apply Z.mod_pos_bound. lia.
Qed.

Lemma doSLMStoreInc_cycles_witness :
  kIncSLMStore strategy_3buf 16 = -16
  /\ netSLMStoreInc strategy_3buf 16 3 = 0.
Proof.
  pose proof (doSLMStoreInc_cycles strategy_3buf 16) as H.
  destruct H as (H1 & H2 & _); [reflexivity | reflexivity | discriminate | ].
  split; [exact H1 | exact H2].
Defined.

(** ** Remainder prezeroing and remasking *)

(** C10: with integer A and B and no A/B sums, at most one operand is
    prezeroed and at most one is remasked; when both qualify, A is
    dropped if [unrollM >= unrollN] and B otherwise; and when an operand
    goes through SLM, neither is remasked in registers. *)
Theorem integer_remainder_selects_one
    (problem : Problem.t) (strategy : Strategy.t)
    (ka_loadRem kb_loadRem minOPCount : Z) (needsA needsB : bool) :
  Problem.Ta_isInteger problem = true ->
  Problem.Tb_isInteger problem = true ->
  Problem.needsASums problem = false ->
  Problem.needsBSums problem = false ->
  let pA := prezeroARem problem strategy ka_loadRem kb_loadRem minOPCount in
  let pB := prezeroBRem problem strategy ka_loadRem kb_loadRem minOPCount in
  let rA := remaskA problem strategy minOPCount needsA needsB in
  let rB := remaskB problem strategy minOPCount needsA needsB in
  pA && pB = false
  /\ rA && rB = false
  /\ (prezeroARem0 strategy ka_loadRem minOPCount = true ->
      prezeroBRem0 strategy kb_loadRem minOPCount = true ->
      (pA, pB) = if Strategy.unrollM strategy >=? Strategy.unrollN strategy
                 then (false, true) else (true, false))
  /\ (remaskA0 strategy minOPCount needsA = true ->
      remaskB0 strategy minOPCount needsB = true ->
      (rA, rB) = if Strategy.unrollM strategy >=? Strategy.unrollN strategy
                 then (false, true) else (true, false))
  /\ (Strategy.slmA strategy || Strategy.slmB strategy = true ->
      rA = false /\ rB = false).
Proof.
  intros HTa HTb HsA HsB.
  unfold prezeroARem, prezeroBRem, prezeroRem, remaskA, remaskB, remaskAB,
    integerNoSums, remaskA0, remaskB0, prezeroARem0, prezeroBRem0, readA, readB.
  rewrite HTa, HTb, HsA, HsB. cbn [negb andb].
  destruct (Strategy.slmA strategy), (Strategy.slmB strategy),
    (ka_loadRem <? minOPCount), (kb_loadRem <? minOPCount),
    (minOPCount >? 1), needsA, needsB,
    (Strategy.unrollM strategy >=? Strategy.unrollN strategy);
    cbn; repeat split; intros; congruence.
Qed.

Lemma integer_remainder_selects_one_witness :
  remaskA problem_int8 strategy_3buf 4 true true = false
  /\ remaskB problem_int8 strategy_3buf 4 true true = false.
Proof.
  pose proof (integer_remainder_selects_one problem_int8 strategy_3buf 1 1 4
                true true eq_refl eq_refl eq_refl eq_refl) as H.
  cbv zeta in H. destruct H as (_ & _ & _ & _ & H).
  exact (H eq_refl).
Defined.

(** ** [kLoopSingle] *)

(** C8: [kLoopSingle] returns [false] when [kLoopSetup] does, leaving the
    build exactly as setup left it ([kLoop] and [kLoopTeardown] are not
    run); it returns [true] exactly when setup returned [true] and [kLoop]
    and then [kLoopTeardown] ran to completion. *)
Theorem kLoopSingle_result {P : Platform}
    (kLoopSetup : Gen bool) (kLoop kLoopTeardown : Gen unit) (b : Build) :
  (forall b1, kLoopSetup b = (Ok false, b1) ->
     kLoopSingle kLoopSetup kLoop kLoopTeardown b = (Ok false, b1))
  /\ (forall b', kLoopSingle kLoopSetup kLoop kLoopTeardown b = (Ok false, b') ->
        kLoopSetup b = (Ok false, b'))
  /\ (forall b', kLoopSingle kLoopSetup kLoop kLoopTeardown b = (Ok true, b') <->
        exists b1 b2, kLoopSetup b = (Ok true, b1)
                      /\ kLoop b1 = (Ok tt, b2)
                      /\ kLoopTeardown b2 = (Ok tt, b')).
Proof.
  unfold kLoopSingle, bind, ret. repeat split.
  - intros b1 ->. reflexivity.
  - intros b'. destruct (kLoopSetup b) as [[[|] | e] b1].
    + destruct (kLoop b1) as [[[] | e] b2]; [| discriminate].
      destruct (kLoopTeardown b2) as [[[] | e] b3]; discriminate.
    + intros E. injection E as <-. reflexivity.
    + discriminate.
  - destruct (kLoopSetup b) as [[[|] | e] b1].
    + destruct (kLoop b1) as [[[] | e] b2] eqn:E2; [| discriminate].
      destruct (kLoopTeardown b2) as [[[] | e] b3] eqn:E3; [| discriminate].
      intros E. injection E as <-. exists b1, b2. auto.
    + discriminate.
    + discriminate.
  - intros (b1 & b2 & -> & -> & ->). reflexivity.
Qed.

Lemma kLoopSingle_result_witness :
  kLoopSingle (P := listPlatform) (ret false) (emit mov_K_kInput) (ret tt) build0
  = (Ok false, build0).
Proof.
  apply (kLoopSingle_result (P := listPlatform)
           (ret false) (emit mov_K_kInput) (ret tt) build0).
  reflexivity.
Defined.

(** ** From entry to the unroll check *)

Section UntilAnalyze.
Context {P : Platform} {H : Helpers}.
Variable problem : Problem.t.
Variable strategy : Strategy.t.
Variable q : Queries.t.

Lemma NoEmit_stateHelper f : NoEmit (stateHelper f).
Proof.
  intros b r b'. unfold stateHelper, bind, getState, putState, throw.
  destruct (runHelper f (state b)); intros E; inversion E; reflexivity.
Qed.

Lemma NoEmit_when_stub c : NoEmit (when c stub).
Proof.
  intros b r b'. destruct c; cbn; intros E; inversion E; reflexivity.
Qed.

Lemma NoEmit_bind {A B} (g : Gen A) (k : A -> Gen B) :
  NoEmit g -> (forall a, NoEmit (k a)) -> NoEmit (bind g k).
Proof.
  intros Hg Hk b r b'. unfold bind.
  destruct (g b) as [[a | e] b1] eqn:E1; intros E.
  - apply Hk in E. apply Hg in E1. congruence.
  - inversion E; subst. apply Hg in E1. exact E1.
Qed.

Lemma NoEmit_kLoopSchedule kp : NoEmit (kLoopSchedule problem strategy q kp).
Proof.
  unfold kLoopSchedule.
  repeat (apply NoEmit_bind; [| intros _]);
    first [apply NoEmit_when_stub | apply NoEmit_stateHelper].
Qed.

Lemma saveStatePreLoop_run (b : Build) :
  exists b', saveStatePreLoop b = (Ok tt, b') /\ code b' = code b
             /\ state b' = state b.
Proof. eexists. split; [reflexivity | split; reflexivity]. Qed.

Lemma initK_code (b b' : Build) :
  initK problem strategy b = (Ok tt, b') ->
  code b' = code b ++
    (if saveK problem strategy (State.params (state b))
        && negb (isValid (State.K (state b)))
     then [mov_K_kInput] else []).
Proof.
  unfold initK, bind, getState, putState, when, emit, ret, throw.
  destruct (isValid (State.K (state b))); cbn [negb andb].
  - rewrite andb_false_r. intros E. inversion E; subst.
    symmetry. apply app_nil_r.
  - destruct (saveK problem strategy (State.params (state b))); cbn [andb].
    + destruct (alloc (State.ra (state b))) as [[r ra'] |];
        intros E; inversion E; subst; reflexivity.
    + intros E. inversion E; subst. symmetry. apply app_nil_r.
Qed.

Lemma zeroAccumulators_extends (b b' : Build) :
  zeroAccumulators problem strategy b = (Ok tt, b') ->
  exists l, code b' = code b ++ l.
Proof.
  intros E.
  assert (Hc : Counts (fun _ => 0) 0 (zeroAccumulators problem strategy)).
  { unfold zeroAccumulators. quiet. }
  apply Hc in E. destruct E as (_ & l & Hl & _). exists l. exact Hl.
Qed.

Lemma kLoopPreamble_code (b b1 : Build) :
  kLoopPreamble problem strategy b = (Ok tt, b1) ->
  exists l, code b1 = code b ++
    (if saveK problem strategy (State.params (state b))
        && negb (isValid (State.K (state b)))
     then [mov_K_kInput] else []) ++ l.
Proof.
  unfold kLoopPreamble. intros E.
  apply bind_Ok in E. destruct E as (st & b2 & E0 & E).
  cbv [getState] in E0. injection E0 as Est Eb. subst st b2.
  apply bind_Ok in E. destruct E as ([] & b2 & E0 & E).
  cbv [putState] in E0. injection E0 as Eb. subst b2.
  apply bind_Ok in E. destruct E as ([] & b3 & E0 & E).
  apply bind_Ok in E. destruct E as ([] & b4 & E1 & E).
  apply bind_Ok in E. destruct E as ([] & b5 & E2 & E).
  pose proof (NoEmit_when_stub _ _ _ _ E0) as C0.
  pose proof (NoEmit_when_stub _ _ _ _ E1) as C1.
  assert (S3 : state b3 = State.set_lastThresh 0 (state b)).
  { destruct (_ && _) in E0; inversion E0; reflexivity. }
  assert (S4 : state b4 = state b3).
  { destruct (_ && _) in E1; inversion E1; reflexivity. }
  apply initK_code in E2. apply zeroAccumulators_extends in E.
  destruct E as (l & Hl). exists l.
  rewrite Hl, E2, C1, C0, S4, S3. cbn. rewrite app_assoc. reflexivity.
Qed.

(** What follows the preamble, when the unroll disagrees. *)
Lemma unroll_mismatch_after_preamble (b b1 b2 : Build) :
  Queries.getUnroll q <> Strategy.unrollK strategy ->
  kLoopPreamble problem strategy b = (Ok tt, b1) ->
  kLoopSchedule problem strategy q (State.params (state b)) b1 = (Ok tt, b2) ->
  exists b', kLoopUntilAnalyze problem strategy q b = (Throw stub_exception, b')
             /\ code b' = code b1.
Proof.
  intros Hne E1 E2.
  destruct (saveStatePreLoop_run b2) as (b3 & E3 & C3 & _).
  exists b3. split.
  - unfold kLoopUntilAnalyze, bind at 1, getState.
    rewrite (bind_step _ _ _ _ _ E1), (bind_step _ _ _ _ _ E2),
      (bind_step _ _ _ _ _ E3).
    unfold analyzeCheck.
    destruct (Z.eqb_spec (Queries.getUnroll q) (Strategy.unrollK strategy));
      [contradiction | reflexivity].
  - rewrite C3. exact (NoEmit_kLoopSchedule _ _ _ _ E2).
Qed.

Lemma kLoopUntilAnalyze_throws (b : Build) :
  (Queries.getUnroll q <> Strategy.unrollK strategy
   \/ lookaheadMismatch strategy (State.params (state b)) = true) ->
  exists e b', kLoopUntilAnalyze problem strategy q b = (Throw e, b').
Proof.
  intros Hc. unfold kLoopUntilAnalyze, bind at 1, getState.
  destruct (kLoopPreamble problem strategy b) as [[[] | e] b1] eqn:E1.
  2: { exists e, b1. apply bind_Throw. exact E1. }
  rewrite (bind_step _ _ _ _ _ E1).
  destruct (kLoopSchedule problem strategy q (State.params (state b)) b1)
    as [[[] | e] b2] eqn:E2.
  2: { exists e, b2. apply bind_Throw. exact E2. }
  destruct Hc as [Hne | Hm].
  - destruct (unroll_mismatch_after_preamble b b1 b2 Hne E1 E2) as (b' & E & _).
    exists stub_exception, b'.
    unfold kLoopUntilAnalyze, bind at 1, getState in E.
    rewrite (bind_step _ _ _ _ _ E1) in E. exact E.
  - exfalso. revert E2. unfold kLoopSchedule, bind at 1.
    destruct (slmBufferLA strategy); cbn [when]; [| discriminate].
    unfold ret at 1. unfold bind at 1. rewrite Hm. discriminate.
Qed.
End UntilAnalyze.

(** C7: when A and B both go through SLM and their load lookaheads are
    incompatible, [kLoop] throws before reaching the sequencer; if the
    preamble went through and the buffer count is a supported one, the
    exception is the [stub()] of these checks, raised right after the
    preamble. *)
Theorem incompatible_lookahead_fails {P : Platform} {H : Helpers}
    (problem : Problem.t) (strategy : Strategy.t) (q : Queries.t) (b : Build) :
  Strategy.slmA strategy = true ->
  Strategy.slmB strategy = true ->
  (lookaheadALoad strategy <> lookaheadBLoad strategy
   \/ lookaheadALoadRem strategy (State.params (state b))
      <> lookaheadBLoadRem strategy (State.params (state b))
   \/ (Strategy.ka_load strategy <> Strategy.kb_load strategy
       /\ lookaheadALoad strategy
          <> lookaheadALoadRem strategy (State.params (state b)))) ->
  (exists e b', kLoopUntilAnalyze problem strategy q b = (Throw e, b'))
  /\ (forall b1,
        kLoopPreamble problem strategy b = (Ok tt, b1) ->
        slmBufferLA strategy <> None ->
        kLoopUntilAnalyze problem strategy q b = (Throw stub_exception, b1)).
Proof.
  intros HA HB Hbad.
  assert (Hm : lookaheadMismatch strategy (State.params (state b)) = true).
  { unfold lookaheadMismatch. rewrite HA, HB. cbn [andb].
    destruct (Z.eqb_spec (lookaheadALoad strategy) (lookaheadBLoad strategy)),
      (Z.eqb_spec (lookaheadALoadRem strategy (State.params (state b)))
                  (lookaheadBLoadRem strategy (State.params (state b)))),
      (Z.eqb_spec (Strategy.ka_load strategy) (Strategy.kb_load strategy)),
      (Z.eqb_spec (lookaheadALoad strategy)
                  (lookaheadALoadRem strategy (State.params (state b))));
      cbn; try reflexivity; exfalso; tauto. }
  split.
  - apply kLoopUntilAnalyze_throws. right. exact Hm.
  - intros b1 E1 HLA.
    unfold kLoopUntilAnalyze, bind at 1, getState.
    rewrite (bind_step _ _ _ _ _ E1).
    apply bind_Throw. unfold kLoopSchedule, bind at 1.
    destruct (slmBufferLA strategy); [| contradiction].
    cbn [when]. unfold ret at 1. apply bind_Throw. rewrite Hm. reflexivity.
Qed.

Lemma incompatible_lookahead_fails_witness :
  exists e b',
    kLoopUntilAnalyze (P := listPlatform) (H := idHelpers)
      problem_int8 strategy_slmAB queries_pairs build0 = (Throw e, b').
Proof.
  apply (incompatible_lookahead_fails (P := listPlatform) (H := idHelpers)
           problem_int8 strategy_slmAB queries_pairs build0).
  - reflexivity.
  - reflexivity.
  - left. discriminate.
Defined.

(** C2, as the code has it: when the analyzer's unroll disagrees with
    [unrollK], [kLoop] throws; when it is the unroll check that throws,
    the stream already holds the preamble (the loop-counter [mov] when K
    is saved and was not supplied, then the first-segment zeroing), and
    nothing has been emitted after the preamble. *)
Theorem unroll_mismatch_fails_after_preamble {P : Platform} {H : Helpers}
    (problem : Problem.t) (strategy : Strategy.t) (q : Queries.t) (b : Build) :
  Queries.getUnroll q <> Strategy.unrollK strategy ->
  (exists e b', kLoopUntilAnalyze problem strategy q b = (Throw e, b'))
  /\ (forall b1 b2,
        kLoopPreamble problem strategy b = (Ok tt, b1) ->
        kLoopSchedule problem strategy q (State.params (state b)) b1 = (Ok tt, b2) ->
        exists b' l,
          kLoopUntilAnalyze problem strategy q b = (Throw stub_exception, b')
          /\ code b' = code b1
          /\ code b1 = code b ++
               (if saveK problem strategy (State.params (state b))
                   && negb (isValid (State.K (state b)))
                then [mov_K_kInput] else []) ++ l).
Proof.
  intros Hne. split.
  - apply kLoopUntilAnalyze_throws. left. exact Hne.
  - intros b1 b2 E1 E2.
    destruct (unroll_mismatch_after_preamble problem strategy q b b1 b2 Hne E1 E2)
      as (b' & E & C).
    destruct (kLoopPreamble_code problem strategy b b1 E1) as (l & Hl).
    exists b', l. auto.
Qed.

Lemma unroll_mismatch_fails_after_preamble_witness :
  exists e b',
    kLoopUntilAnalyze (P := listPlatform) (H := idHelpers)
      problem_int8 strategy_1buf queries_dpas build0 = (Throw e, b').
Proof.
  apply (unroll_mismatch_fails_after_preamble (P := listPlatform) (H := idHelpers)
           problem_int8 strategy_1buf queries_dpas build0).
  discriminate.
Defined.

(** At an unroll mismatch (the analyzer reports 8, the strategy says 16)
    the failing generation has already emitted the loop-counter [mov]. *)
Lemma unroll_mismatch_has_emitted :
  Queries.getUnroll queries_dpas <> Strategy.unrollK strategy_1buf
  /\ code build0 = []
  /\ fst (kLoopUntilAnalyze (P := listPlatform) (H := idHelpers)
            problem_int8 strategy_1buf queries_dpas build0)
     = Throw stub_exception
  /\ code (snd (kLoopUntilAnalyze (P := listPlatform) (H := idHelpers)
                  problem_int8 strategy_1buf queries_dpas build0))
     = [mov_K_kInput]
  /\ code (snd (kLoopUntilAnalyze (P := listPlatform) (H := idHelpers)
                  problem_int8 strategy_1buf queries_dpas build0))
     <> [].
Proof.
  repeat split; try reflexivity; discriminate.
Qed.

(** ** Lookahead of prefetches and outer products *)


(** ** Barriers around SLM stores *)

Section SLMStoreBarriers.
Context {P : Platform} {H : Helpers}.
Variable strategy : Strategy.t.
Variable q : Queries.t.

Lemma kLoopBarrier_quiet w f t :
  w slmfence = 0 -> w fencewait = 0 -> w barrierheader = 0 ->
  (forall h, w (barriermsg h) = 0) -> w barrierwait = 0 ->
  (forall n, w (sync_bar n) = 0) ->
  Counts w 0 (kLoopBarrier strategy f t).
Proof.
  intros W1 W2 W3 W4 W5 W6.
  assert (E1 : Counts w 0 (emit slmfence))
    by (rewrite <- W1; apply Counts_emit).
  assert (E2 : Counts w 0 (emit fencewait))
    by (rewrite <- W2; apply Counts_emit).
  assert (E3 : Counts w 0 (emit barrierheader))
    by (rewrite <- W3; apply Counts_emit).
  assert (E4 : forall h, Counts w 0 (emit (barriermsg h)))
    by (intros h; rewrite <- (W4 h); apply Counts_emit).
  assert (E5 : Counts w 0 (emit barrierwait))
    by (rewrite <- W5; apply Counts_emit).
  assert (E6 : forall n, Counts w 0 (emit (sync_bar n)))
    by (intros n; rewrite <- (W6 n); apply Counts_emit).
  unfold kLoopBarrier.
  repeat first [ exact E1 | exact E2 | exact E3 | apply E4 | exact E5
               | apply E6 | quiet ].
Qed.

Lemma when_callHelper_code (c : bool) f b b' :
  when c (callHelper f) b = (Ok tt, b') ->
  code b' = code b ++ (if c then [call f] else []).
Proof.
  destruct c; cbn [when].
  - unfold callHelper, bind, emit, getState, putState, throw. cbn.
    destruct (runHelper f (state b)); intros E; inversion E; reflexivity.
  - intros E. inversion E. symmetry. apply app_nil_r.
Qed.

End SLMStoreBarriers.

Lemma weight_b2z_nonneg (p : Instr -> bool) (l : list Instr) :
  0 <= weight (fun i => b2z (p i)) l.
Proof.
  unfold weight. induction l as [| x l IH]; cbn [fold_right]; [lia |].
  destruct (p x); cbn [b2z]; lia.
Qed.

Lemma weight_b2z_zero (p : Instr -> bool) (l : list Instr) :
  weight (fun i => b2z (p i)) l = 0 -> Forall (fun i => p i = false) l.
Proof.
  induction l as [| x l IH]; intros Hw; [constructor |].
  pose proof (weight_b2z_nonneg p l) as Hn.
  unfold weight in *. cbn [fold_right] in Hw.
  destruct (p x) eqn:Ex; cbn [b2z] in Hw; [lia |].
  constructor; [exact Ex | apply IH; lia].
Qed.

Lemma dropThrough_app (p : Instr -> bool) pre x r :
  Forall (fun i => p i = false) pre -> p x = true ->
  dropThrough p (pre ++ x :: r) = r.
Proof.
  intros Hpre Hx. induction Hpre as [| y pre Hy _ IH]; cbn.
  - rewrite Hx. reflexivity.
  - rewrite Hy. exact IH.
Qed.

Lemma takeUntil_app (p : Instr -> bool) mid x r :
  Forall (fun i => p i = false) mid -> p x = true ->
  takeUntil p (mid ++ x :: r) = mid.
Proof.
  intros Hmid Hx. induction Hmid as [| y mid Hy _ IH]; cbn.
  - rewrite Hx. reflexivity.
  - rewrite Hy, IH. reflexivity.
Qed.

Lemma between_app (p : Instr -> bool) pre mid post x :
  Forall (fun i => p i = false) pre ->
  Forall (fun i => p i = false) mid ->
  p x = true ->
  between p (pre ++ x :: mid ++ x :: post) = mid.
Proof.
  intros Hpre Hmid Hx. unfold between.
  rewrite dropThrough_app by assumption. apply takeUntil_app; assumption.
Qed.

Lemma barriersPerSync_pos (strategy : Strategy.t) : 1 <= barriersPerSync strategy.
Proof.
  unfold barriersPerSync. destruct (nbM strategy), (nbN strategy); cbn; lia.
Qed.

(** ** Entering the short loop *)

Section ShortLoop.
Context {P : Platform} {H : Helpers}.
Variable problem : Problem.t.
Variable strategy : Strategy.t.
Variable q : Queries.t.












End ShortLoop.

(** ** The loop check across phases *)

Section LoopCheck.
Context {P : Platform} {H : Helpers}.
Variable problem : Problem.t.
Variable strategy : Strategy.t.
Variable q : Queries.t.
Variable kp : State.Params.

Let dec := isLoopDecrement (Strategy.unrollK strategy).

Lemma dec_loopCheck :
  dec (add_K (Some (cm_gt, f0_0)) (imm (- Strategy.unrollK strategy))) = 1.
Proof. unfold dec, isLoopDecrement. rewrite Z.eqb_refl. reflexivity. Qed.

Lemma loopCheckAction_dec h : Counts dec 1 (loopCheckAction strategy kp h).
Proof.
  unfold loopCheckAction.
  apply (Counts_bind dec 1 0); [| intros _; quiet | lia].
  rewrite <- dec_loopCheck. apply Counts_emit.
Qed.

Lemma notifyPhase_tail_quiet (w : Instr -> Z) (g : Gen unit) b b' ph :
  Counts w 0 g ->
  (modifyLocals (set_curPhase ph);; g) b = (Ok tt, b') ->
  curPhase (locals b') = Some ph
  /\ exists l, code b' = code b ++ l /\ weight w l = 0.
Proof.
  intros Hg E. apply bind_Ok in E. destruct E as ([] & b1 & E1 & E).
  cbv [modifyLocals bind getLocals putLocals] in E1.
  injection E1 as E1. subst b1.
  apply Hg in E. destruct E as (Hp & l & Hl & Hw).
  split; [rewrite Hp; reflexivity | exists l; split; assumption].
Qed.

Lemma notifyPhase_dec ph b b' :
  notifyPhase problem strategy q ph b = (Ok tt, b') ->
  curPhase (locals b') = Some ph
  /\ exists l, code b' = code b ++ l /\ weight dec l = 0.
Proof.
  unfold notifyPhase. apply notifyPhase_tail_quiet.
  destruct ph; quiet;
    apply kLoopBarrier_quiet; intros; reflexivity.
Qed.

Lemma loopCheckEvent_dec h b b' :
  schedule_if (loopCheckAction strategy kp) loopCheckGuard h b = (Ok tt, b') ->
  curPhase (locals b') = curPhase (locals b)
  /\ exists l, code b' = code b ++ l
               /\ weight dec l = b2z (inMainLoop (locals b)).
Proof.
  unfold schedule_if, loopCheckGuard. intros E.
  apply bind_Ok in E. destruct E as (c & b1 & E1 & E).
  cbv [bind getLocals ret] in E1. injection E1 as Ec Eb. subst c b1.
  destruct (inMainLoop (locals b)); cbn [b2z].
  - exact (loopCheckAction_dec h _ _ _ E).
  - exact (Counts_ret dec tt _ _ _ E).
Qed.

Lemma hooks_dec step :
  stepOccurrences [step] = [] ->
  Counts dec 0 (runStep (fun _ => ret tt) step).
Proof.
  destruct step; cbn [stepOccurrences runStep]; intros E;
    try discriminate; unfold offsetCounter, jumpIfLT, jumpTarget, jump;
    quiet.
Qed.

Lemma runStep_hook (event event' : Iteration -> Gen unit) step :
  stepOccurrences [step] = [] -> runStep event step = runStep event' step.
Proof. destruct step; cbn; intros E; [discriminate | reflexivity ..]. Qed.

Lemma loopChecks_dec steps b b' :
  forEach steps
    (runStep (schedule_if (loopCheckAction strategy kp) loopCheckGuard)) b
  = (Ok tt, b') ->
  curPhase (locals b') = curPhase (locals b)
  /\ exists l, code b' = code b ++ l
               /\ weight dec l
                  = Z.of_nat (length (stepOccurrences steps))
                    * b2z (inMainLoop (locals b)).
Proof.
  revert b. induction steps as [| step steps IH]; intros b E.
  - inversion E; subst. split; [reflexivity |].
    exists []. rewrite app_nil_r. split; reflexivity.
  - cbn [forEach] in E. apply bind_Ok in E. destruct E as ([] & b1 & E1 & E).
    assert (S1 : curPhase (locals b1) = curPhase (locals b)
                 /\ exists l, code b1 = code b ++ l
                    /\ weight dec l
                       = Z.of_nat (length (stepOccurrences [step]))
                         * b2z (inMainLoop (locals b))).
    { destruct step as [h | | | |]; cbn [stepOccurrences length].
      - cbn [runStep] in E1. apply loopCheckEvent_dec in E1.
        destruct E1 as (P1 & l1 & C1 & W1). split; [exact P1 |].
        exists l1. split; [exact C1 | lia].
      - rewrite (runStep_hook _ (fun _ => ret tt)) in E1 by reflexivity.
        apply hooks_dec in E1; [| reflexivity].
        destruct E1 as (P1 & l1 & C1 & W1). split; [exact P1 |].
        exists l1. split; [exact C1 | lia].
      - rewrite (runStep_hook _ (fun _ => ret tt)) in E1 by reflexivity.
        apply hooks_dec in E1; [| reflexivity].
        destruct E1 as (P1 & l1 & C1 & W1). split; [exact P1 |].
        exists l1. split; [exact C1 | lia].
      - rewrite (runStep_hook _ (fun _ => ret tt)) in E1 by reflexivity.
        apply hooks_dec in E1; [| reflexivity].
        destruct E1 as (P1 & l1 & C1 & W1). split; [exact P1 |].
        exists l1. split; [exact C1 | lia].
      - rewrite (runStep_hook _ (fun _ => ret tt)) in E1 by reflexivity.
        apply hooks_dec in E1; [| reflexivity].
        destruct E1 as (P1 & l1 & C1 & W1). split; [exact P1 |].
        exists l1. split; [exact C1 | lia]. }
    destruct S1 as (P1 & l1 & C1 & W1).
    apply IH in E. destruct E as (P2 & l2 & C2 & W2).
    split; [congruence |].
    exists (l1 ++ l2). split.
    + rewrite C2, C1. symmetry. apply app_assoc.
    + rewrite weight_app, W1, W2.
      unfold inMainLoop. rewrite P1.
      replace (stepOccurrences (step :: steps))
        with (stepOccurrences [step] ++ stepOccurrences steps)
        by (destruct step; reflexivity).
      rewrite length_app, Nat2Z.inj_add. lia.
Qed.

Lemma loopStart_dec unroll : Counts dec 0 (loopStart strategy q kp unroll).
Proof.
  unfold loopStart. quiet; apply kLoopBarrier_quiet; intros; reflexivity.
Qed.

Lemma loopEnd_dec : Counts dec 0 (loopEnd strategy q kp).
Proof.
  unfold loopEnd. quiet; apply kLoopBarrier_quiet; intros; reflexivity.
Qed.

Lemma materializePhase_dec ph occ b b' :
  materializePhase problem strategy q kp
    (schedule_if (loopCheckAction strategy kp) loopCheckGuard) (ph, occ) b
  = (Ok tt, b') ->
  exists l, code b' = code b ++ l
            /\ weight dec l
               = if Phase_eqb ph PhaseMainLoop
                 then Z.of_nat (length (stepOccurrences occ)) else 0.
Proof.
  unfold materializePhase. cbn [fst snd]. intros E.
  apply bind_Ok in E. destruct E as ([] & b1 & E1 & E).
  apply notifyPhase_dec in E1. destruct E1 as (P1 & l1 & C1 & W1).
  destruct (Phase_eqb ph PhaseMainLoop) eqn:Eph.
  - apply bind_Ok in E. destruct E as ([] & b2 & E2 & E).
    apply bind_Ok in E. destruct E as ([] & b3 & E3 & E).
    apply loopStart_dec in E2. destruct E2 as (P2 & l2 & C2 & W2).
    apply loopChecks_dec in E3. destruct E3 as (_ & l3 & C3 & W3).
    apply loopEnd_dec in E. destruct E as (_ & l4 & C4 & W4).
    exists (l1 ++ l2 ++ l3 ++ l4). split.
    + rewrite C4, C3, C2, C1. rewrite <- !app_assoc. reflexivity.
    + rewrite !weight_app, W1, W2, W3, W4.
      unfold inMainLoop. rewrite P2, P1, Eph. cbn [b2z]. lia.
  - apply loopChecks_dec in E. destruct E as (_ & l2 & C2 & W2).
    exists (l1 ++ l2). split.
    + rewrite C2, C1. symmetry. apply app_assoc.
    + rewrite weight_app, W1, W2. unfold inMainLoop. rewrite P1, Eph.
      cbn [b2z]. lia.
Qed.

Lemma materialize_dec plan b b' :
  materialize problem strategy q kp
    (schedule_if (loopCheckAction strategy kp) loopCheckGuard) plan b
  = (Ok tt, b') ->
  exists l, code b' = code b ++ l
            /\ weight dec l = mainLoopOccurrences plan.
Proof.
  unfold materialize. revert b.
  induction plan as [| [ph occ] plan IH]; intros b E.
  - inversion E; subst. exists []. rewrite app_nil_r. split; reflexivity.
  - cbn [forEach] in E. apply bind_Ok in E. destruct E as ([] & b1 & E1 & E).
    apply materializePhase_dec in E1. destruct E1 as (l1 & C1 & W1).
    apply IH in E. destruct E as (l2 & C2 & W2).
    exists (l1 ++ l2). split.
    + rewrite C2, C1. symmetry. apply app_assoc.
    + rewrite weight_app, W1, W2. reflexivity.
Qed.
End LoopCheck.

Lemma blockOccurrences_own_period (U shift : Z) :
  0 < U -> length (blockOccurrences U U shift) = 1%nat.
Proof.
  intros HU. unfold blockOccurrences.
  rewrite length_map, length_seq, Z.div_same by lia. reflexivity.
Qed.

(** C4: whatever hooks the sequencer calls in between, the counter
    decrement [add(1 | gt | f0[0], K, K, -unrollK)] of the loop check is
    emitted once per occurrence in a MainLoop segment and never in a
    segment of another phase; a MainLoop block, in which an event of
    period [unrollK] occurs once, holds exactly one. *)
Theorem loop_decrement_only_in_main_loop {P : Platform} {H : Helpers}
    (problem : Problem.t) (strategy : Strategy.t) (q : Queries.t)
    (kp : State.Params) (plan : list (Phase * list Step)) (b b' : Build) :
  0 < Strategy.unrollK strategy ->
  materialize problem strategy q kp
    (schedule_if (loopCheckAction strategy kp) loopCheckGuard) plan b
  = (Ok tt, b') ->
  (exists l, code b' = code b ++ l
             /\ weight (isLoopDecrement (Strategy.unrollK strategy)) l
                = mainLoopOccurrences plan)
  /\ (forall ph steps b1 b2,
        materializePhase problem strategy q kp
          (schedule_if (loopCheckAction strategy kp) loopCheckGuard) (ph, steps) b1
        = (Ok tt, b2) ->
        exists l, code b2 = code b1 ++ l
                  /\ weight (isLoopDecrement (Strategy.unrollK strategy)) l
                     = if Phase_eqb ph PhaseMainLoop
                       then Z.of_nat (length (stepOccurrences steps)) else 0)
  /\ (forall shift T steps b1 b2,
        stepOccurrences steps
        = map (fun o => {| counter := o; total := T |})
              (blockOccurrences (Strategy.unrollK strategy)
                                (Strategy.unrollK strategy) shift) ->
        materializePhase problem strategy q kp
          (schedule_if (loopCheckAction strategy kp) loopCheckGuard)
          (PhaseMainLoop, steps) b1
        = (Ok tt, b2) ->
        exists l, code b2 = code b1 ++ l
                  /\ weight (isLoopDecrement (Strategy.unrollK strategy)) l = 1).
Proof.
  intros HU E. split; [| split].
  - exact (materialize_dec problem strategy q kp plan b b' E).
  - intros ph steps b1 b2. apply materializePhase_dec.
  - intros shift T steps b1 b2 Hsteps E1. apply materializePhase_dec in E1.
    destruct E1 as (l & C & W). exists l. split; [exact C |].
    rewrite W. cbn [Phase_eqb]. rewrite Hsteps.
    rewrite length_map, blockOccurrences_own_period by exact HU. reflexivity.
Qed.

Lemma all_phases_run :
  exists b',
    materialize (P := listPlatform) (H := idHelpers)
      problem_int8 strategy_1buf queries_pairs params0
      (schedule_if (loopCheckAction (P := listPlatform) (H := idHelpers)
                      strategy_1buf params0)
                   (loopCheckGuard (P := listPlatform)))
      plan_all_phases build0
    = (Ok tt, b')
    /\ code b' = code_all_phases.
Proof. eexists. split; vm_compute; reflexivity. Defined.

Lemma loop_decrement_only_in_main_loop_witness :
  exists l, code_all_phases = [] ++ l /\ weight (isLoopDecrement 16) l = 1.
Proof.
  destruct all_phases_run as (b' & E & C).
  destruct (loop_decrement_only_in_main_loop (P := listPlatform) (H := idHelpers)
              problem_int8 strategy_1buf queries_pairs params0
              plan_all_phases build0 b' eq_refl E) as ((l & Hl & Hw) & _).
  exists l. rewrite <- C. split; [exact Hl | exact Hw].
Defined.

(** ** Coverage of the outer-product event *)

Lemma sumOver_app {A} (n : A -> Z) (l1 l2 : list A) :
  sumOver n (l1 ++ l2) = sumOver n l1 + sumOver n l2.
Proof.
  unfold sumOver. induction l1 as [| x l1 IH]; cbn [fold_right app];
    [reflexivity | rewrite IH; lia].
Qed.


Section Coverage.
Variable q : Queries.t.
Variable T c m : Z.
Hypothesis m_def : Queries.minOuterProductCount q = m.
Hypothesis chained : Queries.outerProductCount q = c * m.
Hypothesis m_pos : 0 < m.
Hypothesis c_pos : 0 < c.
Hypothesis T_nonneg : 0 <= T.







End Coverage.

Section CoverageRun.
Context {P : Platform} {H : Helpers}.
Variable problem : Problem.t.
Variable strategy : Strategy.t.
Variable q : Queries.t.
Variable kp : State.Params.






End CoverageRun.


(** * Properties of the further parts *)

(** ** Symbolic evaluation of generator computations *)

Lemma Reg_eqb_refl (r : Reg) : Reg_eqb r r = true.
Proof. destruct r; cbn; [reflexivity | apply Nat.eqb_refl]. Qed.

(** Symbolic evaluation of a generator computation on a build whose
    fields are given: the monad's operations are unfolded and the
    conditions the computation is stuck on are split, one at a time. *)
Ltac gen_unfold :=
  cbv beta iota delta
    [bind ret emit getState putState getLocals putLocals when throw stub
     modifyState modifyLocals].

Ltac gen_simpl :=
  cbn [state locals code fst snd negb andb orb
       State.params State.K State.remActiveA State.remActiveB
       State.remActiveSLM State.kSLMA State.kSLMB State.kSLMStorage
       State.lastThresh State.barrierHeader State.barrierReady State.ra
       State.rest State.set_K State.set_remActive State.set_kSLM
       State.set_lastThresh State.set_barrierHeader State.set_barrierReady
       State.set_ra isValid app];
  cbv beta.

Ltac gen_case :=
  let E := fresh "E" in
  match goal with
  | |- context [try_alloc ?r] => destruct (try_alloc r) as [? ?] eqn:E
  | |- context [alloc ?r] => destruct (alloc r) as [[? ?] |] eqn:E
  | |- context [safeRelease ?x ?r] => destruct (safeRelease x r) as [? ?] eqn:E
  | |- context [runHelper ?f ?s] => destruct (runHelper f s) eqn:E
  | |- context [if negb ?c then _ else _] => destruct c eqn:E
  | |- context [if ?c && _ then _ else _] => destruct c eqn:E
  | |- context [if ?c || _ then _ else _] => destruct c eqn:E
  | |- context [if ?c then _ else _] => destruct c eqn:E
  end.

Ltac gen_run := gen_unfold; gen_simpl; repeat (gen_case; gen_simpl; try discriminate).

Ltac gen_pairs :=
  repeat match goal with
         | H : (_, _) = (_, _) |- _ => inversion H; subst; clear H
         end.

(** ** Remainder activation along the iterations *)

(** The test shared by [A_remActive], [B_remActive], [slmRemActive] and
    [opRemActive]: the block of [k] iterations that holds [h] reaches
    beyond the trip count [T]. *)
Lemma remActive_block (T h k : Z) :
  0 < k -> 0 <= h ->
  (T - h <? k - Z.rem h k) = (T <? (h / k + 1) * k).
Proof.
  intros Hk Hh. rewrite Z.rem_mod_nonneg by lia.
  pose proof (Z.div_mod h k ltac:(lia)) as E.
  destruct (Z.ltb_spec (T - h) (k - h mod k)), (Z.ltb_spec T ((h / k + 1) * k));
    try reflexivity; exfalso; nia.
Qed.

Lemma remActive_block_mono (T h h' k : Z) :
  0 < k -> 0 <= h -> h <= h' ->
  (T - h <? k - Z.rem h k) = true -> (T - h' <? k - Z.rem h' k) = true.
Proof.
  intros Hk Hh Hle. rewrite !remActive_block by lia.
  intros E. apply Z.ltb_lt in E. apply Z.ltb_lt.
  pose proof (Z.div_le_mono h h' k Hk Hle). nia.
Qed.

(** X1: each of the four remainder tests of [kLoop] holds at [h] exactly
    when the block of its period that contains [h] reaches beyond the
    trip count; hence a remainder that is active at [h] is active at
    every later iteration of the run. *)
Theorem remActive_from_last_block
    (strategy : Strategy.t) (q : Queries.t) (h : Iteration) (d : Z) :
  0 <= counter h -> 0 <= d ->
  (0 < Strategy.ka_load strategy ->
   A_remActive strategy h
   = (total h <? (counter h / Strategy.ka_load strategy + 1)
                 * Strategy.ka_load strategy)
   /\ (A_remActive strategy h = true ->
       A_remActive strategy (later h d) = true))
  /\ (0 < Strategy.kb_load strategy ->
      B_remActive strategy h
      = (total h <? (counter h / Strategy.kb_load strategy + 1)
                    * Strategy.kb_load strategy)
      /\ (B_remActive strategy h = true ->
          B_remActive strategy (later h d) = true))
  /\ (0 < Strategy.unrollKSLM strategy ->
      slmRemActive strategy h
      = (total h <? (counter h / Strategy.unrollKSLM strategy + 1)
                    * Strategy.unrollKSLM strategy)
      /\ (slmRemActive strategy h = true ->
          slmRemActive strategy (later h d) = true))
  /\ (0 < opCountMain q ->
      opRemActive q h
      = (total h <? (counter h / opCountMain q + 1) * opCountMain q)
      /\ (opRemActive q h = true -> opRemActive q (later h d) = true)).
Proof.
  intros Hh Hd.
  unfold A_remActive, B_remActive, slmRemActive, opRemActive, remaining, later.
  cbn [counter total].
  repeat split; intros; try (apply remActive_block; lia).
  all: eapply remActive_block_mono; [| | | eassumption]; lia.
Qed.

Lemma remActive_from_last_block_witness :
  A_remActive strategy_3buf {| counter := 8; total := 12 |} = (12 <? (8 / 8 + 1) * 8)
  /\ A_remActive strategy_3buf (later {| counter := 8; total := 12 |} 3) = true.
Proof.
  destruct (remActive_from_last_block strategy_3buf queries_dpas
              {| counter := 8; total := 12 |} 3 ltac:(cbn; lia) ltac:(lia))
    as (HA & _).
  destruct (HA ltac:(cbn; lia)) as (E & M).
  split; [exact E | apply M; reflexivity].
Defined.

(** ** Register copies and address increments *)

Lemma copy_rotates (k c h j : Z) :
  0 < k -> 0 < c -> 0 <= h -> 0 <= j ->
  Z.rem (Z.quot (h + j * k) k) c = (Z.rem (Z.quot h k) c + j) mod c.
Proof.
  intros Hk Hc Hh Hj.
  rewrite !Z.quot_div_nonneg by nia.
  rewrite Z.div_add by lia.
  assert (0 <= h / k) by (apply Z.div_pos; lia).
  rewrite !Z.rem_mod_nonneg by lia.
  rewrite Zplus_mod_idemp_l. reflexivity.
Qed.

Lemma rotation_differs (x j c : Z) :
  0 <= x < c -> 0 < j < c -> (x + j) mod c <> x.
Proof.
  intros Hx Hj. destruct (Z_lt_dec (x + j) c) as [L | L].
  - rewrite Z.mod_small by lia. lia.
  - replace (x + j) with (x + j - c + 1 * c) by lia.
    rewrite Z.mod_add by lia. rewrite Z.mod_small by lia. lia.
Qed.

(** X2: while the main loads are in use, the register copy an A (or B)
    load goes to advances by one, modulo the number of copies, with every
    load block; so the load issued [lookaheadALoad] iterations ahead,
    that is [A_copies - 1] blocks ahead, never goes to the copy that
    holds the data of the current block when there are two copies or
    more. *)
Theorem load_copies_rotate
    (strategy : Strategy.t) (kp : State.Params) (h : Iteration) (j : Z) :
  0 <= counter h -> 0 <= j ->
  (0 < Strategy.ka_load strategy -> 0 < Strategy.A_copies strategy ->
   A_remActive strategy (later h (j * Strategy.ka_load strategy)) = false ->
   A_copy strategy kp (later h (j * Strategy.ka_load strategy))
   = (A_copy strategy kp h + j) mod Strategy.A_copies strategy
   /\ (j = Strategy.A_copies strategy - 1 -> 0 < j ->
       later h (j * Strategy.ka_load strategy) = later h (lookaheadALoad strategy)
       /\ A_copy strategy kp (later h (lookaheadALoad strategy))
          <> A_copy strategy kp h))
  /\ (0 < Strategy.kb_load strategy -> 0 < Strategy.B_copies strategy ->
      B_remActive strategy (later h (j * Strategy.kb_load strategy)) = false ->
      B_copy strategy kp (later h (j * Strategy.kb_load strategy))
      = (B_copy strategy kp h + j) mod Strategy.B_copies strategy
      /\ (j = Strategy.B_copies strategy - 1 -> 0 < j ->
          later h (j * Strategy.kb_load strategy) = later h (lookaheadBLoad strategy)
          /\ B_copy strategy kp (later h (lookaheadBLoad strategy))
             <> B_copy strategy kp h)).
Proof.
  intros Hh Hj. split.
  - intros Hk Hc Hrem.
    assert (Hrem0 : A_remActive strategy h = false).
    { destruct (A_remActive strategy h) eqn:E; [| reflexivity].
      rewrite <- Hrem. symmetry. revert E.
      unfold A_remActive, remaining, later. cbn [counter total].
      apply remActive_block_mono; nia. }
    assert (Erot : A_copy strategy kp (later h (j * Strategy.ka_load strategy))
                   = (A_copy strategy kp h + j) mod Strategy.A_copies strategy).
    { unfold A_copy, ka_load. rewrite Hrem, Hrem0. unfold later. cbn [counter].
      apply copy_rotates; assumption. }
    split; [exact Erot |].
    intros Ej Hj0.
    assert (El : later h (j * Strategy.ka_load strategy)
                 = later h (lookaheadALoad strategy)).
    { unfold lookaheadALoad. f_equal. rewrite Ej. ring. }
    split; [exact El |].
    rewrite <- El, Erot. apply rotation_differs; [| lia].
    unfold A_copy, ka_load. rewrite Hrem0.
    rewrite Z.quot_div_nonneg by lia.
    rewrite Z.rem_mod_nonneg by (try apply Z.div_pos; lia).
    apply Z.mod_pos_bound. lia.
  - intros Hk Hc Hrem.
    assert (Hrem0 : B_remActive strategy h = false).
    { destruct (B_remActive strategy h) eqn:E; [| reflexivity].
      rewrite <- Hrem. symmetry. revert E.
      unfold B_remActive, remaining, later. cbn [counter total].
      apply remActive_block_mono; nia. }
    assert (Erot : B_copy strategy kp (later h (j * Strategy.kb_load strategy))
                   = (B_copy strategy kp h + j) mod Strategy.B_copies strategy).
    { unfold B_copy, kb_load. rewrite Hrem, Hrem0. unfold later. cbn [counter].
      apply copy_rotates; assumption. }
    split; [exact Erot |].
    intros Ej Hj0.
    assert (El : later h (j * Strategy.kb_load strategy)
                 = later h (lookaheadBLoad strategy)).
    { unfold lookaheadBLoad. f_equal. rewrite Ej. ring. }
    split; [exact El |].
    rewrite <- El, Erot. apply rotation_differs; [| lia].
    unfold B_copy, kb_load. rewrite Hrem0.
    rewrite Z.quot_div_nonneg by lia.
    rewrite Z.rem_mod_nonneg by (try apply Z.div_pos; lia).
    apply Z.mod_pos_bound. lia.
Qed.

Lemma load_copies_rotate_witness :
  A_copy strategy_slmAB params0 (later {| counter := 16; total := 64 |} (1 * 8))
  = (A_copy strategy_slmAB params0 {| counter := 16; total := 64 |} + 1) mod 2
  /\ A_copy strategy_slmAB params0
       (later {| counter := 16; total := 64 |} (lookaheadALoad strategy_slmAB))
     <> A_copy strategy_slmAB params0 {| counter := 16; total := 64 |}.
Proof.
  destruct (load_copies_rotate strategy_slmAB params0
              {| counter := 16; total := 64 |} 1 ltac:(cbn; lia) ltac:(lia))
    as (HA & _).
  destruct (HA ltac:(cbn; lia) ltac:(cbn; lia) ltac:(reflexivity)) as (E & L).
  split; [exact E |].
  exact (proj2 (L ltac:(reflexivity) ltac:(lia))).
Defined.

(** X3: with k interleaving, an increment of [k_inc] iterations that is
    no longer than a chunk is lengthened by the chunks of the other
    [wg[LoopK] - 1] threads once for every chunk boundary between [h] and
    [h + k_inc]: none inside a chunk, one when the step leaves it. *)
Theorem kInc_skips_foreign_chunks
    (strategy : Strategy.t) (wgK : Z) (h : Iteration) (k_inc : Z) :
  0 < Strategy.kInterleaveChunk strategy ->
  0 <= counter h ->
  0 < k_inc <= Strategy.kInterleaveChunk strategy ->
  kInc strategy wgK h k_inc 1
  = k_inc
    + Strategy.kInterleaveChunk strategy * (wgK - 1)
      * ((counter h + k_inc) / Strategy.kInterleaveChunk strategy
         - counter h / Strategy.kInterleaveChunk strategy)
  /\ 0 <= (counter h + k_inc) / Strategy.kInterleaveChunk strategy
          - counter h / Strategy.kInterleaveChunk strategy <= 1.
Proof.
  intros Hc Hh Hk. unfold kInc, nonzero.
  set (c := Strategy.kInterleaveChunk strategy) in *.
  replace (c =? 0) with false by (symmetry; apply Z.eqb_neq; lia).
  cbn [negb]. rewrite Z.mul_1_r, Z.quot_1_r.
  replace (k_inc >? c) with false
    by (symmetry; rewrite Z.gtb_ltb; apply Z.ltb_ge; lia).
  rewrite Z.rem_mod_nonneg by lia.
  pose proof (Z.div_mod (counter h) c ltac:(lia)) as E.
  pose proof (Z.mod_pos_bound (counter h) c Hc) as B.
  destruct (Z.geb_spec (counter h mod c + k_inc) c) as [G | G].
  - assert (Ed : (counter h + k_inc) / c = counter h / c + 1).
    { symmetry. apply (Z.div_unique _ _ _ (counter h mod c + k_inc - c)); lia. }
    rewrite Ed. split; lia.
  - assert (Ed : (counter h + k_inc) / c = counter h / c).
    { symmetry. apply (Z.div_unique _ _ _ (counter h mod c + k_inc)); lia. }
    rewrite Ed. split; lia.
Qed.

Lemma kInc_skips_foreign_chunks_witness :
  kInc (strategy_interleave 32) 4 {| counter := 24; total := 256 |} 16 1
  = 16 + 32 * (4 - 1) * ((24 + 16) / 32 - 24 / 32).
Proof.
  exact (proj1 (kInc_skips_foreign_chunks (strategy_interleave 32) 4
                  {| counter := 24; total := 256 |} 16
                  ltac:(cbn; lia) ltac:(cbn; lia) ltac:(cbn; lia))).
Defined.

Lemma ring_step (h inc W : Z) :
  0 < W -> 0 <= h -> 0 < inc <= W ->
  Z.rem h W + (if Z.rem (h + inc) W <? inc then inc - W else inc)
  = Z.rem (h + inc) W.
Proof.
  intros HW Hh Hinc. rewrite !Z.rem_mod_nonneg by lia.
  pose proof (Z.mod_pos_bound h W HW) as B.
  pose proof (Z.div_mod h W ltac:(lia)) as E.
  destruct (Z_lt_dec (h mod W + inc) W) as [L | L].
  - assert (Em : (h + inc) mod W = h mod W + inc).
    { symmetry. apply (Z.mod_unique _ _ (h / W)); lia. }
    rewrite Em. destruct (Z.ltb_spec (h mod W + inc) inc); lia.
  - assert (Em : (h + inc) mod W = h mod W + inc - W).
    { symmetry. apply (Z.mod_unique _ _ (h / W + 1)); lia. }
    rewrite Em. destruct (Z.ltb_spec (h mod W + inc - W) inc); lia.
Qed.

(** X4: for an operand that goes through SLM, the increment of its load
    address after the load at [h] keeps the address inside the ring of
    [unrollKSLM * slmBuffers] iterations that the SLM buffers hold: the
    offset [h % kWraparound] moves to [(h + k_load(h)) % kWraparound],
    stepping back by the ring's length when the load block reaches its
    end. *)
Theorem slm_load_address_wraps
    (strategy : Strategy.t) (kp : State.Params) (wgK : Z) (h : Iteration) :
  0 < Strategy.unrollKSLM strategy * Strategy.slmBuffers strategy ->
  0 <= counter h ->
  (Strategy.slmA strategy = true ->
   0 < ka_load strategy kp h
     <= Strategy.unrollKSLM strategy * Strategy.slmBuffers strategy ->
   Z.rem (counter h) (Strategy.unrollKSLM strategy * Strategy.slmBuffers strategy)
   + ka_inc strategy kp wgK h
   = Z.rem (counter h + ka_load strategy kp h)
           (Strategy.unrollKSLM strategy * Strategy.slmBuffers strategy)
   /\ 0 <= Z.rem (counter h)
                 (Strategy.unrollKSLM strategy * Strategy.slmBuffers strategy)
           + ka_inc strategy kp wgK h
        < Strategy.unrollKSLM strategy * Strategy.slmBuffers strategy)
  /\ (Strategy.slmB strategy = true ->
      0 < kb_load strategy kp h
        <= Strategy.unrollKSLM strategy * Strategy.slmBuffers strategy ->
      Z.rem (counter h) (Strategy.unrollKSLM strategy * Strategy.slmBuffers strategy)
      + kb_inc strategy kp wgK h
      = Z.rem (counter h + kb_load strategy kp h)
              (Strategy.unrollKSLM strategy * Strategy.slmBuffers strategy)
      /\ 0 <= Z.rem (counter h)
                    (Strategy.unrollKSLM strategy * Strategy.slmBuffers strategy)
              + kb_inc strategy kp wgK h
           < Strategy.unrollKSLM strategy * Strategy.slmBuffers strategy).
Proof.
  intros HW Hh.
  set (W := Strategy.unrollKSLM strategy * Strategy.slmBuffers strategy) in *.
  split; intros Hslm Hinc.
  - unfold ka_inc. rewrite Hslm. fold W.
    rewrite (ring_step (counter h) (ka_load strategy kp h) W HW Hh Hinc).
    split; [reflexivity |].
    rewrite Z.rem_mod_nonneg by lia. apply Z.mod_pos_bound. exact HW.
  - unfold kb_inc. rewrite Hslm. fold W.
    rewrite (ring_step (counter h) (kb_load strategy kp h) W HW Hh Hinc).
    split; [reflexivity |].
    rewrite Z.rem_mod_nonneg by lia. apply Z.mod_pos_bound. exact HW.
Qed.

Lemma slm_load_address_wraps_witness :
  Z.rem 16 (8 * 3) + ka_inc strategy_3buf params0 1 {| counter := 16; total := 64 |}
  = Z.rem (16 + 8) (8 * 3)
  /\ ka_inc strategy_3buf params0 1 {| counter := 16; total := 64 |} = - 16.
Proof.
  split; [| reflexivity].
  exact (proj1 (proj1 (slm_load_address_wraps strategy_3buf params0 1
                         {| counter := 16; total := 64 |}
                         ltac:(cbn; lia) ltac:(cbn; lia))
                      ltac:(reflexivity) ltac:(cbn; lia))).
Defined.

(** ** The barrier header *)

(** X5: once [kLoopGetBarrierHeader] has returned, the header it returned
    is a valid register marked ready in [state], and asking again returns
    the same register without emitting anything or touching the build. *)
Theorem kLoopGetBarrierHeader_idempotent {P : Platform}
    (b b1 : Build) (r : Reg) :
  kLoopGetBarrierHeader b = (Ok r, b1) ->
  kLoopGetBarrierHeader b1 = (Ok r, b1)
  /\ r = State.barrierHeader (state b1)
  /\ isValid r = true
  /\ State.barrierReady (state b1) = true.
Proof.
  destruct b as [st lc cd].
  cbv [kLoopGetBarrierHeader kLoopAllocBarrierHeader bind getState
       putState when stub throw emit ret state locals code].
  destruct (isValid (State.barrierHeader st)) eqn:Ev; cbn [negb].
  - destruct (State.barrierReady st) eqn:Er; cbn [negb].
    + intros E. inversion E; subst; clear E.
      rewrite Ev. cbn [negb]. rewrite Er. cbn [negb].
      repeat split; assumption.
    + destruct (State.r0_info_isARF (State.params st)) eqn:Ea;
        [discriminate |].
      intros E. inversion E; subst; clear E.
      cbn [State.set_barrierReady State.barrierHeader State.barrierReady].
      rewrite Ev. cbn [negb]. repeat split; first [assumption | reflexivity].
  - destruct (alloc (State.ra st)) as [[n ra'] |]; [| discriminate].
    cbn [State.set_barrierReady State.set_barrierHeader
           State.set_ra State.barrierHeader State.barrierReady State.params
           negb].
    destruct (State.r0_info_isARF (State.params st)) eqn:Ea;
      [discriminate |].
    intros E. inversion E; subst; clear E.
    cbn [State.set_barrierReady State.set_barrierHeader
           State.set_ra State.barrierHeader State.barrierReady State.params
           isValid negb].
    repeat split; reflexivity.
Qed.

Lemma kLoopGetBarrierHeader_idempotent_witness :
  kLoopGetBarrierHeader
    {| state := State.set_ra ([11; 12; 13]%nat : @RA listPlatform)
                  (State.set_barrierReady true
                     (State.set_barrierHeader (reg 10) state0));
       locals := locals0;
       code := [barrierheader] |}
  = (Ok (reg 10),
     {| state := State.set_ra ([11; 12; 13]%nat : @RA listPlatform)
                   (State.set_barrierReady true
                      (State.set_barrierHeader (reg 10) state0));
        locals := locals0;
        code := [barrierheader] |}).
Proof.
  exact (proj1 (kLoopGetBarrierHeader_idempotent (P := listPlatform)
                  build0 _ (reg 10) ltac:(vm_compute; reflexivity))).
Defined.

(** X6: the stream of a signalling barrier on the unnamed barrier: the
    SLM fence if asked for, the barrier header if it has to be built, the
    barrier message, and the wait unless the barrier is only signalled.
    The header is built again unless it was valid and ready and a
    register was free for the fence temporary: when none is free the
    temporary is the header itself, which is then no longer ready.  In
    every case the barrier leaves a valid header marked ready. *)
Theorem unnamed_barrier_stream {P : Platform}
    (strategy : Strategy.t) (withSLMFence : bool) (type : KBarrierType)
    (b b' : Build) :
  nbM strategy = false -> nbN strategy = false ->
  isWait type = false ->
  kLoopBarrier strategy withSLMFence type b = (Ok tt, b') ->
  code b'
  = code b
    ++ (if withSLMFence then [slmfence; fencewait] else [])
    ++ (if isValid (State.barrierHeader (state b))
           && State.barrierReady (state b)
           && isValid (fst (try_alloc (State.ra (state b))))
        then [] else [barrierheader])
    ++ [barriermsg barrierHeader_]
    ++ (if isSignal type then [] else [barrierwait])
  /\ isValid (State.barrierHeader (state b')) = true
  /\ State.barrierReady (state b') = true.
Proof.
  intros HM HN HW. destruct b as [st lc cd].
  unfold kLoopBarrier. rewrite HM, HN, HW, andb_false_r.
  unfold kLoopGetBarrierHeader, kLoopAllocBarrierHeader, getFenceTemp,
    releaseFenceTemp.
  gen_run.
  all: intros E'; inversion E'; subst; clear E'; gen_simpl.
  all: gen_pairs; rewrite <- ?app_assoc; cbn [app]; repeat split;
    try assumption; try reflexivity; try congruence.
Qed.

Lemma unnamed_barrier_stream_witness :
  [slmfence; fencewait; barrierheader; barriermsg barrierHeader_; barrierwait]
  = [] ++ [slmfence; fencewait] ++ [barrierheader]
       ++ [barriermsg barrierHeader_] ++ [barrierwait].
Proof.
  exact (proj1 (unnamed_barrier_stream (P := listPlatform)
                  strategy_1buf true Normal build_no_regs
                  {| state := state build_no_regs;
                     locals := locals0;
                     code := [slmfence; fencewait; barrierheader;
                              barriermsg barrierHeader_; barrierwait] |}
                  ltac:(reflexivity) ltac:(reflexivity) ltac:(reflexivity)
                  ltac:(vm_compute; reflexivity))).
Defined.

(** X7: what a barrier does when registers run out.  A signalling
    barrier on the unnamed barrier throws only if the header itself
    cannot be allocated (the header serves as fence temporary when no
    other register is free); a fenced wait, or a fenced signal on named
    barriers, throws when neither a free register nor a header is there
    for the fence.  Nothing is emitted and the build is as before. *)
Theorem barrier_out_of_registers {P : Platform}
    (strategy : Strategy.t) (withSLMFence : bool) (type : KBarrierType)
    (b : Build) :
  isValid (State.barrierHeader (state b)) = false ->
  (nbM strategy = false -> nbN strategy = false -> isWait type = false ->
   alloc (State.ra (state b)) = None ->
   kLoopBarrier strategy withSLMFence type b
   = (Throw out_of_registers_exception, b))
  /\ (withSLMFence = true ->
      isWait type || nbM strategy || nbN strategy = true ->
      fst (try_alloc (State.ra (state b))) = invalid ->
      kLoopBarrier strategy withSLMFence type b
      = (Throw out_of_registers_exception, b)).
Proof.
  intros Hv. destruct b as [st lc cd]. cbn [state] in Hv. split.
  - intros HM HN HW Ha. cbn [state] in Ha. unfold kLoopBarrier.
    rewrite HM, HN, HW, andb_false_r.
    unfold kLoopGetBarrierHeader, kLoopAllocBarrierHeader, getFenceTemp,
      releaseFenceTemp.
    gen_unfold. gen_simpl. rewrite Hv, Ha. gen_simpl. reflexivity.
  - intros Hf Hc Ht. cbn [state] in Ht. subst withSLMFence.
    unfold kLoopBarrier, kLoopGetBarrierHeader, kLoopAllocBarrierHeader,
      getFenceTemp, releaseFenceTemp.
    gen_unfold. gen_simpl.
    destruct (try_alloc (State.ra st)) as [t ra1] eqn:Et.
    cbn [fst] in Ht. subst t.
    destruct (isWait type), (nbM strategy), (nbN strategy);
      try discriminate; gen_simpl; rewrite ?Et; gen_simpl;
      rewrite ?Hv; gen_simpl; reflexivity.
Qed.

Lemma barrier_out_of_registers_witness :
  kLoopBarrier (P := listPlatform) strategy_1buf true Wait
    {| state := State.set_ra ([] : @RA listPlatform) state0;
       locals := locals0; code := [mov_K_kInput] |}
  = (Throw out_of_registers_exception,
     {| state := State.set_ra ([] : @RA listPlatform) state0;
        locals := locals0; code := [mov_K_kInput] |}).
Proof.
  exact (proj2 (barrier_out_of_registers (P := listPlatform)
                  strategy_1buf true Wait
                  {| state := State.set_ra ([] : @RA listPlatform) state0;
                     locals := locals0; code := [mov_K_kInput] |}
                  ltac:(reflexivity))
               ltac:(reflexivity) ltac:(reflexivity) ltac:(reflexivity)).
Defined.

(** X8: without an SLM fence, a full barrier is a signal followed by a
    wait: both leave the same stream and the same build, and fail alike. *)
Theorem barrier_is_signal_then_wait {P : Platform}
    (strategy : Strategy.t) (b : Build) :
  kLoopBarrier strategy false Normal b
  = (kLoopBarrier strategy false Signal;; kLoopBarrier strategy false Wait) b.
Proof.
  destruct b as [st lc cd].
  unfold kLoopBarrier, kLoopGetBarrierHeader, kLoopAllocBarrierHeader,
    getFenceTemp, releaseFenceTemp.
  cbn [isWait isSignal KBarrierType_eqb].
  gen_run; gen_pairs; try reflexivity; try congruence.
Qed.

(** ** Counting with arbitrary weights *)

Section Tally.
Context {P : Platform}.

Lemma Counts_eq {A} w n m (g : Gen A) : Counts w n g -> n = m -> Counts w m g.
Proof. intros Hg <-. exact Hg. Qed.

Lemma Counts_seq {A B} w n1 n2 (g : Gen A) (k : A -> Gen B) :
  Counts w n1 g -> (forall a, Counts w n2 (k a)) -> Counts w (n1 + n2) (bind g k).
Proof. intros Hg Hk. apply (Counts_bind w n1 n2); auto. Qed.

Lemma Counts_Emits {A} w n (g : Gen A) : Counts w n g -> Emits w n g.
Proof. intros Hg b a b' E. exact (proj2 (Hg b a b' E)). Qed.

Lemma Emits_eq {A} w n m (g : Gen A) : Emits w n g -> n = m -> Emits w m g.
Proof. intros Hg <-. exact Hg. Qed.

Lemma Emits_seq {A B} w n1 n2 (g : Gen A) (k : A -> Gen B) :
  Emits w n1 g -> (forall a, Emits w n2 (k a)) -> Emits w (n1 + n2) (bind g k).
Proof.
  intros Hg Hk b c b' E.
  apply bind_Ok in E. destruct E as (a & b1 & E1 & E2).
  apply Hg in E1. destruct E1 as (l1 & Hc1 & Hw1).
  apply Hk in E2. destruct E2 as (l2 & Hc2 & Hw2).
  exists (l1 ++ l2). split.
  - rewrite Hc2, Hc1. symmetry. apply app_assoc.
  - rewrite weight_app. lia.
Qed.

Lemma Emits_modifyLocals w f : Emits w 0 (modifyLocals f).
Proof.
  intros b x b' E. unfold modifyLocals, bind, getLocals, putLocals in E.
  inversion E; subst; clear E. cbn.
  exists []. rewrite app_nil_r. split; reflexivity.
Qed.

Lemma Emits_forEach0 {A} w (l : list A) f :
  (forall x, Emits w 0 (f x)) -> Emits w 0 (forEach l f).
Proof.
  intros Hf. induction l as [| x l IH]; cbn [forEach].
  - apply Counts_Emits, Counts_ret.
  - apply (Emits_seq w 0 0); [apply Hf | intros _; exact IH].
Qed.
End Tally.

(** Finds the weight of a computation from its structure; conditions on
    the configuration are to be split beforehand. *)
Ltac tally :=
  first
    [ solve [quiet]
    | lazymatch goal with
      | |- Counts _ _ (bind _ _) =>
          eapply Counts_seq; [tally | intros; tally]
      | |- Counts _ _ (emit _) => apply Counts_emit
      | |- Counts _ _ (callHelper _) => apply Counts_callHelper
      | |- Counts _ _ (when true _) => cbn [when]; tally
      | |- Counts _ _ (when false _) => cbn [when]; tally
      | |- Counts _ _ (when _ _) => eapply Counts_when; tally
      end ].

Section BarrierBalance.
Context {P : Platform} {H : Helpers}.
Variable strategy : Strategy.t.
Variable q : Queries.t.

Lemma kLoopBarrier_balance f t :
  Counts barrierBalance (balanceOf strategy t) (kLoopBarrier strategy f t).
Proof.
  unfold kLoopBarrier, balanceOf, barriersPerSync.
  destruct t, f, (nbM strategy), (nbN strategy);
    cbn [isWait isSignal KBarrierType_eqb negb andb when b2z];
    (eapply Counts_eq; [tally | reflexivity]).
Qed.

Lemma slm1x2xFencedBarrier_balance :
  Counts barrierBalance 0 (slm1x2xFencedBarrier strategy q).
Proof.
  unfold slm1x2xFencedBarrier.
  destruct (_ && _); [apply (kLoopBarrier_balance _ Normal) |].
  destruct (_ && _); [apply (kLoopBarrier_balance _ Normal) |].
  apply (Counts_bind _ 0 0); [unfold wrdeps; quiet | intros _ | reflexivity].
  apply (kLoopBarrier_balance _ Normal).
Qed.

Lemma slmSync_quiet (c : bool) :
  Counts barrierBalance 0
    (slmFenceIssue;; emit fencewait;; when c (wrdeps strategy)).
Proof. unfold wrdeps. quiet. Qed.

Lemma doSLMStore_balance h :
  Strategy.slmA strategy || Strategy.slmB strategy = true ->
  Counts barrierBalance
    (if Strategy.slmBuffers strategy =? 3 then barriersPerSync strategy else 0)
    (doSLMStore strategy q h).
Proof.
  intros Hslm. unfold doSLMStore.
  replace (negb (Strategy.slmA strategy) && negb (Strategy.slmB strategy))
    with false
    by (destruct (Strategy.slmA strategy), (Strategy.slmB strategy);
        cbn in *; congruence).
  set (n := Strategy.slmBuffers strategy).
  assert (Hstores : forall k : Gen unit, forall m,
             Counts barrierBalance m k ->
             Counts barrierBalance m
               (when (Strategy.slmA strategy) (callHelper storeMatrix_Ao);;
                when (Strategy.slmB strategy) (callHelper storeMatrix_Bo);;
                st <- getState;;
                when (State.slmASums (State.params st))
                     (callHelper accumulateSum_A);;
                st0 <- getState;;
                when (State.slmBSums (State.params st0))
                     (callHelper accumulateSum_B);;
                k)).
  { intros k m Hk.
    apply (Counts_bind _ 0 m); [quiet | intros _ | lia].
    apply (Counts_bind _ 0 m); [quiet | intros _ | lia].
    apply (Counts_bind _ 0 m); [quiet | intros st | lia].
    apply (Counts_bind _ 0 m); [quiet | intros _ | lia].
    apply (Counts_bind _ 0 m); [quiet | intros st0 | lia].
    apply (Counts_bind _ 0 m); [quiet | intros _ | lia].
    exact Hk. }
  destruct (Z.eqb_spec n 1) as [E1 | N1].
  { rewrite ?E1. cbn [Z.eqb Pos.eqb].
    apply (Counts_bind _ 0 0);
      [apply slm1x2xFencedBarrier_balance | intros _ | reflexivity].
    apply Hstores. apply (kLoopBarrier_balance _ Normal). }
  destruct (Z.eqb_spec n 2) as [E2 | N2].
  { rewrite ?E2. cbn [Z.eqb Pos.eqb orb].
    apply (Counts_bind _ 0 0); [quiet | intros _ | reflexivity].
    apply Hstores. quiet. }
  destruct (Z.eqb_spec n 3) as [E3 | N3].
  { rewrite ?E3. cbn [Z.eqb Pos.eqb orb].
    apply (Counts_bind _ 0 (barriersPerSync strategy));
      [quiet | intros _ | reflexivity].
    apply Hstores.
    apply (Counts_bind _ 0 (barriersPerSync strategy));
      [unfold wrdeps; quiet | intros _ | reflexivity].
    apply (kLoopBarrier_balance _ Signal). }
  destruct (Z.eqb_spec n 4) as [E4 | N4].
  { rewrite ?E4. cbn [Z.eqb Pos.eqb orb].
    apply (Counts_bind _ 0 0); [quiet | intros _ | reflexivity].
    apply Hstores. quiet. }
  cbn [orb]. apply (Counts_bind _ 0 0); [quiet | intros _ | reflexivity].
  apply Hstores. quiet.
Qed.

Lemma doSLMAfterStore_balance h :
  Counts barrierBalance
    (if Strategy.slmBuffers strategy =? 3 then - barriersPerSync strategy
     else if Strategy.slmBuffers strategy =? 4 then barriersPerSync strategy
     else 0)
    (doSLMAfterStore strategy q h).
Proof.
  unfold doSLMAfterStore.
  destruct (Z.eqb_spec (Strategy.slmBuffers strategy) 1) as [E1 | N1].
  { rewrite ?E1. cbn [Z.eqb Pos.eqb]. quiet. }
  destruct (Z.eqb_spec (Strategy.slmBuffers strategy) 2) as [E2 | N2].
  { rewrite ?E2. cbn [Z.eqb Pos.eqb]. apply slm1x2xFencedBarrier_balance. }
  destruct (Z.eqb_spec (Strategy.slmBuffers strategy) 3) as [E3 | N3].
  { apply (kLoopBarrier_balance _ Wait). }
  destruct (Z.eqb_spec (Strategy.slmBuffers strategy) 4) as [E4 | N4];
    [| quiet].
  apply (Counts_bind _ 0 (barriersPerSync strategy)); [quiet | intros _ | lia].
  apply (Counts_bind _ 0 (barriersPerSync strategy)); [quiet | intros _ | lia].
  apply (Counts_bind _ 0 (barriersPerSync strategy));
    [unfold wrdeps; quiet | intros _ | lia].
  apply (kLoopBarrier_balance _ Signal).
Qed.

Lemma doSLMAfterStore2_balance h :
  Counts barrierBalance
    (if Strategy.slmBuffers strategy =? 4 then - barriersPerSync strategy else 0)
    (doSLMAfterStore2 strategy h).
Proof.
  unfold doSLMAfterStore2.
  destruct (Z.eqb_spec (Strategy.slmBuffers strategy) 4) as [E4 | N4].
  { rewrite ?E4. cbn [Z.eqb Pos.eqb orb]. apply (kLoopBarrier_balance _ Wait). }
  destruct (_ || _); quiet.
Qed.
End BarrierBalance.

Lemma weight_balance (l : list Instr) :
  weight barrierBalance l = weight isBarrierMsg l - weight isBarrierWait l.
Proof.
  unfold weight, barrierBalance.
  induction l as [| x l IH]; cbn [fold_right]; [reflexivity | rewrite IH; lia].
Qed.

(** X9: with SLM in use, the synchronization actions that [kLoop]
    registers for the SLM stores (the store itself and, with two buffers
    or more, the actions one and two store periods later) together
    signal the barrier exactly as often as they wait for it, for every
    number of SLM buffers the code accepts. *)
Theorem slm_store_barriers_balanced {P : Platform} {H : Helpers}
    (strategy : Strategy.t) (q : Queries.t) (h : Z) (b b' : Build) :
  Strategy.slmA strategy || Strategy.slmB strategy = true ->
  forEach (slmStoreActions strategy q) (fun act => act h) b = (Ok tt, b') ->
  exists l,
    code b' = code b ++ l
    /\ weight isBarrierMsg l = weight isBarrierWait l.
Proof.
  intros Hslm E.
  assert (HE : Emits barrierBalance 0
                 (forEach (slmStoreActions strategy q) (fun act => act h))).
  { unfold slmStoreActions.
    pose proof (doSLMStore_balance strategy q h Hslm) as HS.
    pose proof (doSLMAfterStore_balance strategy q h) as HA.
    pose proof (doSLMAfterStore2_balance strategy h) as HA2.
    set (n := Strategy.slmBuffers strategy) in *.
    destruct (Z.gtb_spec n 0) as [G0 | G0];
      [| apply Counts_Emits, Counts_ret].
    destruct (Z.geb_spec n 4) as [G4 | G4].
    - replace (n >=? 2) with true by (symmetry; apply Z.geb_le; lia).
      cbn [app forEach].
      destruct (Z.eqb_spec n 4) as [E4 | N4].
      + replace (n =? 3) with false in * by (symmetry; apply Z.eqb_neq; lia).
        apply Counts_Emits.
        eapply Counts_eq;
          [eapply Counts_seq; [exact HA2 | intros _];
           eapply Counts_seq; [exact HA | intros _];
           eapply Counts_seq; [exact HS | intros _; apply Counts_ret] |].
        lia.
      + intros b0 a b1 E0. exfalso. revert E0.
        unfold doSLMAfterStore2. fold n.
        replace (n =? 1) with false by (symmetry; apply Z.eqb_neq; lia).
        replace (n =? 2) with false by (symmetry; apply Z.eqb_neq; lia).
        replace (n =? 3) with false by (symmetry; apply Z.eqb_neq; lia).
        replace (n =? 4) with false by (symmetry; apply Z.eqb_neq; lia).
        cbn [orb]. unfold stub, throw, bind. discriminate.
    - replace (n =? 4) with false in * by (symmetry; apply Z.eqb_neq; lia).
      destruct (Z.geb_spec n 2) as [G2 | G2]; cbn [app forEach].
      + apply Counts_Emits.
        eapply Counts_eq;
          [eapply Counts_seq; [exact HA | intros _];
           eapply Counts_seq; [exact HS | intros _; apply Counts_ret] |].
        destruct (n =? 3); lia.
      + replace (n =? 3) with false in * by (symmetry; apply Z.eqb_neq; lia).
        apply Counts_Emits.
        eapply Counts_eq;
          [eapply Counts_seq; [exact HS | intros _; apply Counts_ret] |].
        lia. }
  destruct (HE b tt b' E) as (l & Hl & Hw).
  exists l. split; [exact Hl |]. rewrite weight_balance in Hw. lia.
Qed.

Lemma slm_store_barriers_balanced_witness :
  exists l,
    code_3buf_period = [] ++ l
    /\ weight isBarrierMsg l = weight isBarrierWait l.
Proof.
  exact (slm_store_barriers_balanced (P := listPlatform) (H := idHelpers)
           strategy_3buf queries_dpas 0 build0 build_3buf_period
           ltac:(reflexivity) ltac:(vm_compute; reflexivity)).
Defined.

(** ** Split barriers around the main loop *)

Ltac tally_barrier :=
  first
    [ solve [quiet]
    | lazymatch goal with
      | |- Counts _ _ (kLoopBarrier _ _ _) => apply kLoopBarrier_balance
      | |- Counts _ _ (bind _ _) =>
          eapply Counts_seq; [tally_barrier | intros; tally_barrier]
      | |- Counts _ _ (when true _) => cbn [when]; tally_barrier
      | |- Counts _ _ (when false _) => cbn [when]; tally_barrier
      | |- Counts _ _ (if true then _ else _) => cbv iota; tally_barrier
      | |- Counts _ _ (if false then _ else _) => cbv iota; tally_barrier
      end ].

Section SplitBarriers.
Context {P : Platform} {H : Helpers}.
Variable problem : Problem.t.
Variable strategy : Strategy.t.
Variable q : Queries.t.
Variable kp : State.Params.

Lemma loopStart_balance unroll :
  Counts barrierBalance
    (b2z (splitBarrierFreq strategy) * barriersPerSync strategy)
    (loopStart strategy q kp unroll).
Proof.
  unfold loopStart, splitBarrierFreq, barrierSubloop, barrierTask, balanceOf.
  destruct (Strategy.barrierFreq strategy >? 0),
    (Strategy.barrierFreq strategy <=? Strategy.unrollK strategy),
    (noFinalBarrier kp), (Strategy.splitBarrier strategy);
    cbn [andb negb b2z];
    (eapply Counts_eq;
       [tally_barrier
       | cbv [barrierBalance isBarrierMsg isBarrierWait balanceOf]; lia]).
Qed.

Lemma loopEnd_balance : Counts barrierBalance 0 (loopEnd strategy q kp).
Proof.
  unfold loopEnd, barrierSubloop, barrierTask.
  destruct (Strategy.barrierFreq strategy >? 0),
    (Strategy.barrierFreq strategy <=? Strategy.unrollK strategy),
    (noFinalBarrier kp), (Strategy.splitBarrier strategy);
    cbn [andb negb b2z];
    (eapply Counts_eq;
       [tally_barrier
       | cbv [barrierBalance isBarrierMsg isBarrierWait balanceOf]; lia]).
Qed.

Lemma barrierEvent_balance h : Counts barrierBalance 0 (barrierEvent strategy h).
Proof.
  unfold barrierEvent.
  apply Counts_bind0; [apply Counts_getLocals | intros l].
  apply Counts_when0.
  destruct (Strategy.splitBarrier strategy);
    (eapply Counts_eq;
       [tally_barrier
       | cbv [barrierBalance isBarrierMsg isBarrierWait balanceOf]; lia]).
Qed.

Lemma notifyPhase_MainPathEnd_balance :
  Emits barrierBalance
    (- (b2z (splitBarrierFreq strategy) * barriersPerSync strategy))
    (notifyPhase problem strategy q PhaseMainPathEnd).
Proof.
  unfold notifyPhase.
  eapply Emits_eq;
    [eapply Emits_seq; [apply Emits_modifyLocals | intros _];
     apply Counts_Emits;
     eapply Counts_seq; [unfold vflagTeardown; quiet | intros _];
     eapply Counts_when; apply (kLoopBarrier_balance _ _ Wait) |].
  destruct (splitBarrierFreq strategy); cbn [balanceOf b2z]; lia.
Qed.

Lemma notifyPhase_MainLoop_balance :
  Emits barrierBalance 0 (notifyPhase problem strategy q PhaseMainLoop).
Proof.
  unfold notifyPhase.
  eapply Emits_eq;
    [eapply Emits_seq; [apply Emits_modifyLocals | intros _];
     apply Counts_Emits, Counts_ret |].
  reflexivity.
Qed.
End SplitBarriers.

(** X10: over the main path (the MainLoop notification, [LoopStart], any
    number of periodic barrier events, [LoopEnd] and the MainPathEnd
    notification) the emitted stream holds as many barrier signals as
    barrier waits, with or without split barriers, for barriers inside
    the unrolled block and for barriers around a sub-loop alike. *)
Theorem main_path_barriers_balanced {P : Platform} {H : Helpers}
    (problem : Problem.t) (strategy : Strategy.t) (q : Queries.t)
    (kp : State.Params) (unroll : Z) (hs : list Iteration) (b b' : Build) :
  (notifyPhase problem strategy q PhaseMainLoop;;
   loopStart strategy q kp unroll;;
   forEach hs (barrierEvent strategy);;
   loopEnd strategy q kp;;
   notifyPhase problem strategy q PhaseMainPathEnd) b = (Ok tt, b') ->
  exists l,
    code b' = code b ++ l
    /\ weight isBarrierMsg l = weight isBarrierWait l.
Proof.
  intros E.
  assert (HE : Emits barrierBalance 0
                 (notifyPhase problem strategy q PhaseMainLoop;;
                  loopStart strategy q kp unroll;;
                  forEach hs (barrierEvent strategy);;
                  loopEnd strategy q kp;;
                  notifyPhase problem strategy q PhaseMainPathEnd)).
  { eapply Emits_eq;
      [eapply Emits_seq; [apply notifyPhase_MainLoop_balance | intros _];
       eapply Emits_seq;
         [apply Counts_Emits, loopStart_balance | intros _];
       eapply Emits_seq;
         [apply Emits_forEach0; intros h;
          apply Counts_Emits, barrierEvent_balance | intros _];
       eapply Emits_seq;
         [apply Counts_Emits, loopEnd_balance | intros _];
       apply notifyPhase_MainPathEnd_balance |].
    lia. }
  destruct (HE b tt b' E) as (l & Hl & Hw).
  exists l. split; [exact Hl |]. rewrite weight_balance in Hw. lia.
Qed.

Lemma main_path_barriers_balanced_witness :
  exists l,
    code_split_main_path = [] ++ l
    /\ weight isBarrierMsg l = weight isBarrierWait l.
Proof.
  exact (main_path_barriers_balanced (P := listPlatform) (H := idHelpers)
           problem_int8 strategy_split queries_dpas params0 8
           [{| counter := 7; total := 64 |}] build0 build_split_main_path
           ltac:(vm_compute; reflexivity)).
Defined.

(** ** Jumps on the loop counter *)

(** X11: [JumpIfLT] compares the loop counter with the threshold only
    when the threshold differs from the one compared last
    ([lastThresh]); two jumps on the same threshold in a row share one
    compare, and a first jump on threshold [0] after [lastThresh] was
    reset to [0] is emitted with no compare at all. *)
Theorem jumpIfLT_shares_compare {P : Platform}
    (thresh label1 label2 : Z) (b : Build) :
  exists b',
    (jumpIfLT thresh label1;; jumpIfLT thresh label2) b = (Ok tt, b')
    /\ code b'
       = code b
         ++ (if thresh =? State.lastThresh (state b) then []
             else [cmp_K (cm_lt, flagAP) thresh])
         ++ [jmpi (Some true) (labels label1); jmpi (Some true) (labels label2)]
    /\ State.lastThresh (state b') = thresh.
Proof.
  destruct b as [st lc cd]. unfold jumpIfLT.
  gen_unfold. gen_simpl.
  destruct (thresh =? State.lastThresh st); gen_simpl;
    rewrite Z.eqb_refl; gen_simpl;
    (eexists; split; [reflexivity |]); gen_simpl;
    rewrite <- ?app_assoc; split; reflexivity.
Qed.

(** ** Loops peeled for the C prefetch *)

(** X12: when C is prefetched inside the loop ([prefetchC > 0]) the
    number of peeled loops is the least number of unrolled blocks that
    covers the prefetch distance left over by the cooldown, and it is
    zero when the cooldown covers the distance. *)
Theorem prefetchCPeelLoops_least_cover (strategy : Strategy.t) (q : Queries.t) :
  0 < Strategy.prefetchC strategy ->
  0 < Strategy.unrollK strategy ->
  0 <= prefetchCPeelLoops strategy q
  /\ (prefetchCPeelLoops strategy q - 1) * Strategy.unrollK strategy
     < Z.max 0 (Strategy.prefetchC strategy - Queries.getCooldown q)
     <= prefetchCPeelLoops strategy q * Strategy.unrollK strategy.
Proof.
  intros Hc Hu. unfold prefetchCPeelLoops, div_up.
  replace (Strategy.prefetchC strategy >? 0) with true
    by (symmetry; apply Z.gtb_lt; lia).
  set (m := Z.max 0 (Strategy.prefetchC strategy - Queries.getCooldown q)).
  set (u := Strategy.unrollK strategy) in *.
  assert (Hm : 0 <= m) by (subst m; lia).
  rewrite Z.quot_div_nonneg by lia.
  pose proof (Z.div_mod (m + u - 1) u ltac:(lia)) as E.
  pose proof (Z.mod_pos_bound (m + u - 1) u Hu) as B.
  assert (0 <= (m + u - 1) / u) by (apply Z.div_pos; lia).
  split; [assumption | nia].
Qed.

Lemma prefetchCPeelLoops_least_cover_witness :
  (prefetchCPeelLoops (strategy_prefetchC 40) queries_pairs - 1) * 16
  < Z.max 0 (40 - 0)
  <= prefetchCPeelLoops (strategy_prefetchC 40) queries_pairs * 16.
Proof.
  exact (proj2 (prefetchCPeelLoops_least_cover (strategy_prefetchC 40)
                  queries_pairs ltac:(cbn; lia) ltac:(cbn; lia))).
Defined.

(** ** Labels of the loop skeleton *)

Ltac tally_labels :=
  first
    [ solve [quiet]
    | lazymatch goal with
      | |- Counts _ _ (kLoopBarrier _ _ _) =>
          apply kLoopBarrier_quiet; intros; reflexivity
      | |- Counts _ _ (bind _ _) =>
          eapply Counts_seq; [tally_labels | intros; tally_labels]
      | |- Counts _ _ (emit _) => apply Counts_emit
      | |- Counts _ _ (callHelper _) => apply Counts_callHelper
      | |- Counts _ _ (when true _) => cbn [when]; tally_labels
      | |- Counts _ _ (when false _) => cbn [when]; tally_labels
      | |- Counts _ _ (when _ _) => apply Counts_when0; tally_labels
      | |- Counts _ _ (if true then _ else _) => cbv iota; tally_labels
      | |- Counts _ _ (if false then _ else _) => cbv iota; tally_labels
      | |- Counts _ _ (if _ then _ else _) =>
          match goal with |- Counts _ _ (if ?c then _ else _) => destruct c end;
          tally_labels
      end ].

Section LoopLabels.
Context {P : Platform} {H : Helpers}.
Variable strategy : Strategy.t.
Variable q : Queries.t.
Variable kp : State.Params.

Lemma skeleton_marks unroll L :
  Counts (isMark L) (skeletonMarks strategy kp L)
    (loopStart strategy q kp unroll;; loopEnd strategy q kp).
Proof.
  unfold loopStart, loopEnd, skeletonMarks.
  destruct L;
    destruct (nonzero (Strategy.prefetchABL3 strategy)),
      (barrierSubloop strategy kp), (noFinalBarrier kp);
    cbn [andb b2z];
    (eapply Counts_eq; [tally_labels | cbv [isMark Label_eqb b2z]; lia]).
Qed.

Lemma skeleton_jumps unroll L :
  skeletonMarks strategy kp L = 0 ->
  Counts (isJumpTo L) 0
    (loopStart strategy q kp unroll;; loopEnd strategy q kp).
Proof.
  unfold loopStart, loopEnd, skeletonMarks.
  destruct L;
    destruct (nonzero (Strategy.prefetchABL3 strategy)),
      (barrierSubloop strategy kp), (noFinalBarrier kp);
    cbn [andb b2z]; intros Hm; try discriminate;
    (eapply Counts_eq; [tally_labels | cbv [isJumpTo Label_eqb b2z]; lia]).
Qed.

End LoopLabels.

(** X13: in the stream of [LoopStart] followed by [LoopEnd], whatever the
    configuration, no label is marked twice and every label that is
    jumped to is marked: the loop top and bottom always, the L3-prefetch
    labels and the exit of the barrier sub-loop exactly when the code
    that jumps to them is emitted. *)
Theorem loop_skeleton_labels {P : Platform} {H : Helpers}
    (strategy : Strategy.t) (q : Queries.t) (kp : State.Params)
    (unroll : Z) (b b' : Build) :
  (loopStart strategy q kp unroll;; loopEnd strategy q kp) b = (Ok tt, b') ->
  exists l,
    code b' = code b ++ l
    /\ forall L,
         weight (isMark L) l <= 1
         /\ (weight (isJumpTo L) l = 0 \/ weight (isMark L) l = 1).
Proof.
  intros E.
  destruct (skeleton_marks strategy q kp unroll lTop b tt b' E) as (_ & l & Hl & _).
  exists l. split; [exact Hl |]. intros L.
  destruct (skeleton_marks strategy q kp unroll L b tt b' E) as (_ & l1 & Hl1 & Hm).
  rewrite Hl in Hl1. apply app_inv_head in Hl1. subst l1.
  assert (Hrange : skeletonMarks strategy kp L = 0
                   \/ skeletonMarks strategy kp L = 1).
  { unfold skeletonMarks. destruct L; try (right; reflexivity);
      try (left; reflexivity);
      match goal with |- context [b2z ?c] => destruct c end; cbn [b2z]; auto. }
  split; [lia |].
  destruct Hrange as [H0 | H1]; [left | right; lia].
  destruct (skeleton_jumps strategy q kp unroll L H0 b tt b' E) as (_ & l2 & Hl2 & Hj).
  rewrite Hl in Hl2. apply app_inv_head in Hl2. subst l2. exact Hj.
Qed.

Lemma loop_skeleton_labels_witness :
  exists l,
    code_skeleton_plain = [] ++ l
    /\ forall L,
         weight (isMark L) l <= 1
         /\ (weight (isJumpTo L) l = 0 \/ weight (isMark L) l = 1).
Proof.
  exact (loop_skeleton_labels (P := listPlatform) (H := idHelpers)
           strategy_3buf queries_dpas params0 8 build0
           {| state := state0; locals := locals0; code := code_skeleton_plain |}
           ltac:(vm_compute; reflexivity)).
Defined.

(** ** Operand offsets of the outer product *)

(** X14: the offsets [ha], [hb] that the outer-product event hands to
    [outerProduct] lie inside the blocks they index, [0 <= ha < ka] and
    [0 <= hb < kb] with [ka = ka_repack(h)] and [kb = kb_load(h)], in a
    forward problem and in a backward one, where they count from the
    end of the block. *)
Theorem outer_product_offsets_in_block {P : Platform} {H : Helpers}
    (problem : Problem.t) (strategy : Strategy.t) (q : Queries.t)
    (kp : State.Params) (h : Iteration) (b b' : Build) :
  0 <= counter h ->
  0 < ka_repack strategy kp h ->
  0 < kb_load strategy kp h ->
  outerProductEvent problem strategy q kp h b = (Ok tt, b') ->
  exists l,
    code b' = code b ++ l
    /\ weight (opOutsideBlock (ka_repack strategy kp h) (kb_load strategy kp h)) l
       = 0.
Proof.
  intros Hh Hka Hkb E.
  assert (HC : Counts (opOutsideBlock (ka_repack strategy kp h)
                                      (kb_load strategy kp h)) 0
                 (outerProductEvent problem strategy q kp h)).
  { unfold outerProductEvent. cbv zeta.
    destruct (Z.rem (counter h + minOPCount q) (opCount q h) =? 0);
      cbn [negb]; [| apply Counts_ret].
    apply Counts_bind0; [| intros _; quiet].
    match goal with
    | |- Counts ?w 0 (callHelper ?f) =>
        replace 0 with (w (call f)); [apply Counts_callHelper |]
    end.
    unfold opOutsideBlock.
    set (ka := ka_repack strategy kp h) in *.
    set (kb := kb_load strategy kp h) in *.
    rewrite !Z.rem_mod_nonneg by lia.
    pose proof (Z.mod_pos_bound (counter h) ka Hka) as Ba.
    pose proof (Z.mod_pos_bound (counter h) kb Hkb) as Bb.
    destruct (Problem.backward problem).
    - destruct (Z.leb_spec 0 (ka - 1 - counter h mod ka)); [| lia].
      destruct (Z.ltb_spec (ka - 1 - counter h mod ka) ka); [| lia].
      destruct (Z.leb_spec 0 (kb - 1 - counter h mod kb)); [| lia].
      destruct (Z.ltb_spec (kb - 1 - counter h mod kb) kb); [| lia].
      reflexivity.
    - destruct (Z.leb_spec 0 (counter h mod ka)); [| lia].
      destruct (Z.ltb_spec (counter h mod ka) ka); [| lia].
      destruct (Z.leb_spec 0 (counter h mod kb)); [| lia].
      destruct (Z.ltb_spec (counter h mod kb) kb); [| lia].
      reflexivity. }
  exact (proj2 (HC b tt b' E)).
Qed.

Lemma outer_product_offsets_in_block_witness :
  exists l,
    [call (outerProduct 6 6 6 8 false)] = [] ++ l
    /\ weight (opOutsideBlock 8 8) l = 0.
Proof.
  exact (outer_product_offsets_in_block (P := listPlatform) (H := idHelpers)
           problem_int8 strategy_3buf queries_chain8 params0
           {| counter := 6; total := 64 |} build0
           {| state := state0; locals := locals0;
              code := [call (outerProduct 6 6 6 8 false)] |}
           ltac:(cbn; lia) ltac:(cbn; lia) ltac:(cbn; lia)
           ltac:(vm_compute; reflexivity)).
Defined.

(** ** Incremental remainder loads *)

Section RemLoadSums.
Import RemLoad.
Variable problem : Problem.t.
Variable strategy : Strategy.t.
Variable q : Queries.t.
Variable kp : State.Params.
Variable cfg : Config.
Variable doA : bool.
Variable h : Z.
Variables incrementalCopy keepAddrTogether willRemask : bool.

Let k := kx_slm cfg doA.
Let U := Strategy.unrollKSLM strategy.
Let sign := kSLMSign cfg.

(** What the check of turn [hh] adds to [kSLMX]. *)
Let checked (hh : Z) : Z :=
  if k - hh - 1 >? 0
  then (if k - hh - 1 =? 1 then U - k + 1 else 1) * sign
  else 0.

Lemma loadStep_kSLMX hh :
  sumOver kSLMXAdded
    (loadStep problem strategy cfg doA h incrementalCopy keepAddrTogether hh)
  = checked hh.
Proof.
  unfold loadStep, nextCheck, checked. fold k U sign.
  rewrite !sumOver_app.
  destruct (kSLMCountUp cfg), (simtCF cfg doA), incrementalCopy,
    (k - hh - 1 >? 0);
    cbn [negb app sumOver fold_right kSLMXAdded]; lia.
Qed.

Lemma turns_kSLMX (n a : nat) :
  Z.of_nat (a + n) = k ->
  sumOver kSLMXAdded
    (flat_map (loadStep problem strategy cfg doA h incrementalCopy
                        keepAddrTogether)
              (map Z.of_nat (seq a n)))
  = if (n <=? 1)%nat then 0 else (U - k + 1 + Z.of_nat n - 2) * sign.
Proof.
  revert a. induction n as [| n IH]; intros a Hk; [reflexivity |].
  cbn [seq map flat_map]. rewrite sumOver_app, loadStep_kSLMX.
  rewrite (IH (S a)) by lia.
  unfold checked.
  destruct n as [| [| n]].
  - cbn [Nat.leb]. replace (k - Z.of_nat a - 1) with 0 by lia. reflexivity.
  - cbn [Nat.leb]. replace (k - Z.of_nat a - 1) with 1 by lia.
    cbn [Z.gtb Z.compare Z.eqb Pos.eqb]. lia.
  - cbn [Nat.leb].
    destruct (Z.gtb_spec (k - Z.of_nat a - 1) 0); [| lia].
    destruct (Z.eqb_spec (k - Z.of_nat a - 1) 1); lia.
Qed.

(** What the address increment of turn [hh] adds to the one address set. *)
Lemma loadStep_addrs hh :
  Xi_addrsK_size cfg = 1 ->
  sumOver (addrsAdded 0)
    (loadStep problem strategy cfg doA h incrementalCopy keepAddrTogether hh)
  = if hh + 1 =? k then kx_stride strategy cfg h - k + 1 else 1.
Proof.
  intros Hs. unfold loadStep, nextCheck, kx_inc, keepAddrTogether'. fold k.
  rewrite Hs. cbn [Z.eqb Pos.eqb Z.gtb Z.compare Pos.compare Pos.compare_cont].
  rewrite andb_false_r.
  rewrite !sumOver_app.
  destruct (kSLMCountUp cfg), (simtCF cfg doA), incrementalCopy,
    (k - hh - 1 >? 0), (hh + 1 =? k);
    cbn [negb app sumOver fold_right addrsAdded Z.eqb]; lia.
Qed.

Lemma turns_addrs (n a : nat) :
  Xi_addrsK_size cfg = 1 ->
  Z.of_nat (a + n) = k ->
  sumOver (addrsAdded 0)
    (flat_map (loadStep problem strategy cfg doA h incrementalCopy
                        keepAddrTogether)
              (map Z.of_nat (seq a n)))
  = if (n =? 0)%nat then 0
    else kx_stride strategy cfg h - k + Z.of_nat n.
Proof.
  intros Hs. revert a. induction n as [| n IH]; intros a Hk; [reflexivity |].
  cbn [seq map flat_map]. rewrite sumOver_app, loadStep_addrs by exact Hs.
  rewrite (IH (S a)) by lia.
  destruct n as [| n].
  - cbn [Nat.eqb]. destruct (Z.eqb_spec (Z.of_nat a + 1) k); lia.
  - cbn [Nat.eqb]. destruct (Z.eqb_spec (Z.of_nat a + 1) k); lia.
Qed.
End RemLoadSums.

(** X15: an incremental remainder load moves the SLM remainder counter
    [kSLMX] by exactly one SLM block, [+unrollKSLM] when it counts up and
    [-unrollKSLM] when it counts down, however many k slices [kx_slm]
    the block is loaded in: the instructions that add to [kSLMX] add up
    to that.  A load that is not incremental leaves [kSLMX] alone. *)
Theorem remainder_load_advances_kSLMX
    (problem : Problem.t) (strategy : Strategy.t) (q : Queries.t)
    (kp : State.Params) (cfg : RemLoad.Config) (doA : bool) (h : Z)
    (incremental incrementalCopy keepAddrTogether willRemask : bool) :
  sumOver RemLoad.kSLMXAdded
    (RemLoad.gemmAiBiRemLoadInc problem strategy q kp cfg doA h incremental
       incrementalCopy keepAddrTogether willRemask)
  = if incremental
    then RemLoad.kSLMSign cfg * Strategy.unrollKSLM strategy
    else 0.
Proof.
  unfold RemLoad.gemmAiBiRemLoadInc.
  destruct incremental; cbn [negb].
  - rewrite !sumOver_app. unfold RemLoad.turns.
    set (k := RemLoad.kx_slm cfg doA).
    assert (Hz : forall c : bool,
               sumOver RemLoad.kSLMXAdded
                 (if c then [RemLoad.zeroMatrix incrementalCopy] else []) = 0)
      by (intros []; reflexivity).
    assert (Hd : sumOver RemLoad.kSLMXAdded
                   (if negb (RemLoad.kSLMCountUp cfg)
                    then RemLoad.mark RemLoad.done
                         :: (if RemLoad.simtCF cfg doA
                             then [RemLoad.join16] else [])
                    else []) = 0)
      by (destruct (RemLoad.kSLMCountUp cfg), (RemLoad.simtCF cfg doA);
          reflexivity).
    assert (Hk : sumOver RemLoad.kSLMXAdded
                   (if RemLoad.keepAddrTogether' cfg keepAddrTogether
                    then [RemLoad.gemmXIncrement None None
                            (Strategy.unrollKSLM strategy)]
                    else []) = 0)
      by (destruct (RemLoad.keepAddrTogether' cfg keepAddrTogether);
          reflexivity).
    rewrite Hz, Hd, Hk.
    cbn [sumOver fold_right RemLoad.kSLMXAdded].
    destruct (Z_le_dec k 0) as [L | L].
    + replace (Z.to_nat k) with 0%nat by lia.
      cbn [seq map flat_map sumOver fold_right].
      destruct (Z.gtb_spec k 1); lia.
    + rewrite (turns_kSLMX problem strategy cfg doA h incrementalCopy
                 keepAddrTogether (Z.to_nat k) 0) by (fold k; lia).
      fold k.
      destruct (Z.gtb_spec k 1) as [G | G].
      * replace (Z.to_nat k <=? 1)%nat with false
          by (symmetry; apply Nat.leb_gt; lia).
        rewrite Z2Nat.id by lia. lia.
      * replace (Z.to_nat k <=? 1)%nat with true
          by (symmetry; apply Nat.leb_le; lia).
        lia.
  - rewrite sumOver_app.
    destruct (RemLoad.prezero q kp doA willRemask); reflexivity.
Qed.

(** X16: when the k slices of the block share one set of addresses
    ([Xi_addrsK.size() == 1]), the address increments of an incremental
    remainder load add up to one step of [kx_stride] for the whole block:
    [1] after every slice but the last and the rest after the last; the
    set is never advanced through [keepAddrTogether], which needs more
    than one set. *)
Theorem remainder_load_advances_addresses
    (problem : Problem.t) (strategy : Strategy.t) (q : Queries.t)
    (kp : State.Params) (cfg : RemLoad.Config) (doA : bool) (h : Z)
    (incrementalCopy keepAddrTogether willRemask : bool) :
  RemLoad.Xi_addrsK_size cfg = 1 ->
  1 <= RemLoad.kx_slm cfg doA ->
  sumOver (RemLoad.addrsAdded 0)
    (RemLoad.gemmAiBiRemLoadInc problem strategy q kp cfg doA h true
       incrementalCopy keepAddrTogether willRemask)
  = RemLoad.kx_stride strategy cfg h
  /\ RemLoad.keepAddrTogether' cfg keepAddrTogether = false.
Proof.
  intros Hs Hk.
  assert (Hkeep : RemLoad.keepAddrTogether' cfg keepAddrTogether = false).
  { unfold RemLoad.keepAddrTogether'. rewrite Hs. apply andb_false_r. }
  split; [| exact Hkeep].
  unfold RemLoad.gemmAiBiRemLoadInc. cbn [negb].
  rewrite Hkeep, !sumOver_app. unfold RemLoad.turns.
  rewrite (turns_addrs problem strategy cfg doA h incrementalCopy
             keepAddrTogether (Z.to_nat (RemLoad.kx_slm cfg doA)) 0 Hs)
    by lia.
  replace (Z.to_nat (RemLoad.kx_slm cfg doA) =? 0)%nat with false
    by (symmetry; apply Nat.eqb_neq; lia).
  rewrite Z2Nat.id by lia.
  destruct (RemLoad.prezero q kp doA willRemask),
    (RemLoad.kSLMCountUp cfg), (RemLoad.simtCF cfg doA);
    cbn [negb sumOver fold_right RemLoad.addrsAdded]; lia.
Qed.

Lemma remainder_load_advances_addresses_witness :
  sumOver (RemLoad.addrsAdded 0)
    (RemLoad.gemmAiBiRemLoadInc problem_int8 strategy_3buf queries_dpas params0
       remload_4slices true 0 true false false false)
  = 8.
Proof.
  exact (proj1 (remainder_load_advances_addresses problem_int8 strategy_3buf
                  queries_dpas params0 remload_4slices true 0 false false false
                  ltac:(reflexivity) ltac:(cbn; lia))).
Defined.

(** ** Activation of the A/B remainders *)

Section RecorderFacts.
Context {S C : Type}.

Lemma Keeps_ret {A} (a : A) : @Keeps S C A (rret a).
Proof. intros s. reflexivity. Qed.

Lemma Keeps_call (c : C) : @Keeps S C unit (rcall c).
Proof. intros s. reflexivity. Qed.

Lemma Keeps_stub : @Keeps S C unit rstub.
Proof. intros s. reflexivity. Qed.

Lemma Keeps_bind {A B} (m : Rec S C A) (k : A -> Rec S C B) :
  Keeps m -> (forall a, Keeps (k a)) -> Keeps (rbind m k).
Proof.
  intros Hm Hk s. unfold rbind. specialize (Hm s).
  destruct (m s) as [[[a | e] s1] l1]; cbn [fst snd] in *; subst s1;
    [| reflexivity].
  specialize (Hk a s). destruct (k a s) as [[r s2] l2]. exact Hk.
Qed.

Lemma Keeps_when (c : bool) (m : Rec S C unit) : Keeps m -> Keeps (rwhen c m).
Proof. intros Hm. destruct c; [exact Hm | apply Keeps_ret]. Qed.

Lemma ThrowsStub_ret {A} (a : A) : @ThrowsStub S C A (rret a).
Proof. intros s. exact I. Qed.

Lemma ThrowsStub_call (c : C) : @ThrowsStub S C unit (rcall c).
Proof. intros s. exact I. Qed.

Lemma ThrowsStub_stub : @ThrowsStub S C unit rstub.
Proof. intros s. reflexivity. Qed.

Lemma ThrowsStub_put (s0 : S) : @ThrowsStub S C unit (rput s0).
Proof. intros s. exact I. Qed.

Lemma ThrowsStub_bind {A B} (m : Rec S C A) (k : A -> Rec S C B) :
  ThrowsStub m -> (forall a, ThrowsStub (k a)) -> ThrowsStub (rbind m k).
Proof.
  intros Hm Hk s. unfold rbind. specialize (Hm s).
  destruct (m s) as [[[a | e] s1] l1]; cbn [fst snd] in *; [| exact Hm].
  specialize (Hk a s1). destruct (k a s1) as [[r s2] l2]. exact Hk.
Qed.

Lemma ThrowsStub_when (c : bool) (m : Rec S C unit) :
  ThrowsStub m -> ThrowsStub (rwhen c m).
Proof. intros Hm. destruct c; [exact Hm | apply ThrowsStub_ret]. Qed.

Lemma wp_ret {A} (a : A) (Q : A -> S -> list C -> Prop) E s :
  Q a s [] -> wp (rret a) Q E s.
Proof. intros HQ. exact HQ. Qed.

Lemma wp_call (c : C) (Q : unit -> S -> list C -> Prop) E s :
  Q tt s [c] -> wp (rcall c) Q E s.
Proof. intros HQ. exact HQ. Qed.

Lemma wp_stub (Q : unit -> S -> list C -> Prop) (E : _ -> S -> list C -> Prop) s :
  E stub_exception s [] -> wp rstub Q E s.
Proof. intros HE. exact HE. Qed.

Lemma wp_get (Q : S -> S -> list C -> Prop) E s : Q s s [] -> wp rget Q E s.
Proof. intros HQ. exact HQ. Qed.

Lemma wp_put (s0 : S) (Q : unit -> S -> list C -> Prop) E s :
  Q tt s0 [] -> wp (rput s0) Q E s.
Proof. intros HQ. exact HQ. Qed.

Lemma wp_bind {A B} (m : Rec S C A) (k : A -> Rec S C B) Q E s :
  wp m (fun a s1 l1 =>
          wp (k a) (fun b s2 l2 => Q b s2 (l1 ++ l2))
                   (fun e s2 l2 => E e s2 (l1 ++ l2)) s1) E s ->
  wp (rbind m k) Q E s.
Proof.
  unfold wp, rbind. destruct (m s) as [[[a | e] s1] l1]; [| exact (fun x => x)].
  destruct (k a s1) as [[[b | e] s2] l2]; exact (fun x => x).
Qed.

Lemma wp_conseq {A} (m : Rec S C A) (Q Q' : A -> S -> list C -> Prop)
      (E E' : _ -> S -> list C -> Prop) s :
  wp m Q E s ->
  (forall a s1 l1, Q a s1 l1 -> Q' a s1 l1) ->
  (forall e s1 l1, E e s1 l1 -> E' e s1 l1) ->
  wp m Q' E' s.
Proof.
  unfold wp. destruct (m s) as [[[a | e] s1] l1]; intros H HQ HE;
    [apply HQ | apply HE]; exact H.
Qed.

Lemma wp_bind_put {B} (s0 : S) (k : unit -> Rec S C B) Q E s :
  wp (k tt) Q E s0 -> wp (rbind (rput s0) k) Q E s.
Proof. intros Hk. apply wp_bind, wp_put. exact Hk. Qed.

Lemma wp_bind_get {B} (k : S -> Rec S C B) Q E s :
  wp (k s) Q E s -> wp (rbind rget k) Q E s.
Proof. intros Hk. apply wp_bind, wp_get. exact Hk. Qed.

Lemma wp_bind_keeps {A B} (m : Rec S C A) (k : A -> Rec S C B)
      (Q : B -> S -> Prop) s :
  Keeps m -> ThrowsStub m ->
  (forall a, wp (k a) (fun b s2 _ => Q b s2)
                (fun e _ _ => e = stub_exception) s) ->
  wp (rbind m k) (fun b s2 _ => Q b s2) (fun e _ _ => e = stub_exception) s.
Proof.
  intros HK HT Hk. apply wp_bind. unfold wp at 1.
  specialize (HK s). specialize (HT s).
  destruct (m s) as [[[a | e] s1] l1]; cbn [fst snd] in *; [| exact HT].
  subst s1. apply Hk.
Qed.

Lemma wp_keeps {A} (m : Rec S C A) (Q : A -> S -> Prop) s :
  Keeps m -> ThrowsStub m -> (forall a, Q a s) ->
  wp m (fun a s1 _ => Q a s1) (fun e _ _ => e = stub_exception) s.
Proof.
  intros HK HT HQ. unfold wp. specialize (HK s). specialize (HT s).
  destruct (m s) as [[[a | e] s1] l1]; cbn [fst snd] in *; [| exact HT].
  subst s1. apply HQ.
Qed.

End RecorderFacts.

Ltac keeps :=
  repeat first
    [ apply Keeps_ret | apply Keeps_call | apply Keeps_stub
    | apply Keeps_when | apply Keeps_bind; [| intros]
    | match goal with
      | |- Keeps (if ?c then _ else _) => destruct c
      end ].

Ltac throws_stub :=
  repeat first
    [ apply ThrowsStub_ret | apply ThrowsStub_call | apply ThrowsStub_stub
    | apply ThrowsStub_put
    | apply ThrowsStub_when | apply ThrowsStub_bind; [| intros]
    | match goal with
      | |- ThrowsStub (if ?c then _ else _) => destruct c
      end ].

(** X18: [kLoopActivateABRemainder] never switches a remainder off.
    Called to deactivate, it throws when a selected operand has its
    remainder active and otherwise returns without a call and without a
    change.  Called to activate, it either throws (only through
    [stub()]) or leaves the remainder active for the selected operands
    and the flag of the other operand as it was. *)
Theorem ab_remainder_never_deactivated
    (problem : Problem.t) (strategy : Strategy.t) (kp : State.Params)
    (cfg : ABRemainder.Config) (doA doB : bool) (kOffset : Z)
    (s : ABRemainder.Flags) :
  ABRemainder.kLoopActivateABRemainder problem strategy kp cfg
    false doA doB kOffset s
  = (if (doA && ABRemainder.remActiveA s) || (doB && ABRemainder.remActiveB s)
     then (Throw stub_exception, s, [])
     else (Ok tt, s, []))
  /\ match ABRemainder.kLoopActivateABRemainder problem strategy kp cfg
             true doA doB kOffset s with
     | (Ok _, s', _) =>
         ABRemainder.remActiveA s' = ABRemainder.remActiveA s || doA
         /\ ABRemainder.remActiveB s' = ABRemainder.remActiveB s || doB
     | (Throw e, _, _) => e = stub_exception
     end.
Proof.
  destruct s as [ra rb]. split.
  - destruct doA, doB, ra, rb; reflexivity.
  - change (wp (ABRemainder.kLoopActivateABRemainder problem strategy kp cfg
                  true doA doB kOffset)
               (fun _ s' _ =>
                  ABRemainder.remActiveA s' = ra || doA
                  /\ ABRemainder.remActiveB s' = rb || doB)
               (fun e _ _ => e = stub_exception)
               {| ABRemainder.remActiveA := ra; ABRemainder.remActiveB := rb |}).
    unfold ABRemainder.kLoopActivateABRemainder, ABRemainder.startMasks.
    apply wp_bind_get. cbv zeta.
    cbn [ABRemainder.remActiveA ABRemainder.remActiveB].
    apply wp_bind_keeps; [keeps | throws_stub | intros _].
    apply wp_bind_keeps; [keeps | throws_stub | intros _].
    destruct doA, doB, ra, rb; cbn [Bool.eqb negb andb orb];
      (apply wp_bind_keeps; [keeps | throws_stub | intros _]);
      try (apply wp_ret; split; reflexivity);
      apply wp_bind_put;
      (apply wp_keeps; [keeps | throws_stub | intros _]);
      split; reflexivity.
Qed.

(** ** Moves and shifts with 64-bit emulation *)

Section EmulationFacts.
Import Emulation.

Lemma splitToDW_halves (r : RegData) :
  isQW r = true ->
  isQW (fst (splitToDW r)) = false /\ isQW (snd (splitToDW r)) = false.
Proof.
  unfold isQW, splitToDW.
  destruct (getType r); intros H; try discriminate H; split; reflexivity.
Qed.

Lemma downgradeToDW_noQW (r : RegData) : isQW (downgradeToDW r) = false.
Proof.
  unfold downgradeToDW. destruct (isQW r) eqn:E; [| exact E].
  unfold isQW in *. destruct (getType r); try discriminate E; reflexivity.
Qed.

Lemma makeDWPair_noQW (r r' : RegData) (esize : Z) :
  makeDWPair r esize = Some r' -> isQW r' = false.
Proof.
  unfold makeDWPair. destruct (isQW r) eqn:E.
  - pose proof (downgradeToDW_noQW r) as D.
    destruct (getHS (downgradeToDW r) >? 1).
    + destruct (negb _); intros H; inversion H; subst; exact D.
    + intros H; inversion H; subst; exact D.
  - intros H; inversion H; subst; exact E.
Qed.

Lemma emov_noQW isSigned hw_ge_XeHP DT mod_ dst src0 strategy ops :
  emulate64 strategy = true ->
  emov isSigned hw_ge_XeHP DT mod_ dst src0 strategy = Some ops ->
  existsb usesQW ops = false.
Proof.
  intros He. unfold emov. rewrite He, !andb_true_r.
  set (dst' := applyDefaultType DT dst).
  set (src' := applyDefaultType DT src0).
  clearbody dst' src'.
  destruct (isQW dst') eqn:Ed.
  - destruct (splitToDW_halves dst' Ed) as [Hlo Hhi].
    destruct (splitToDW dst') as [dstLo dstHi]. cbn [fst snd] in Hlo, Hhi.
    cbn [andb orb].
    destruct (isDW src' || isW src' || isW src') eqn:Es.
    + assert (Esq : isQW src' = false).
      { unfold isQW, isDW, isW in *. destruct (getType src');
          try reflexivity; discriminate Es. }
      destruct (getNeg src'); [discriminate |].
      intros H; inversion H; subst; clear H.
      destruct (negb (isSigned (getType src')));
        cbn [existsb usesQW operands app]; rewrite ?Hlo, ?Hhi, ?Esq;
        reflexivity.
    + destruct (isQW src') eqn:Esq; cbn [Bool.eqb negb]; [| discriminate].
      destruct (makeDWPair dst' (getExecSize mod_)) as [d2 |] eqn:Md;
        [| discriminate].
      destruct (makeDWPair src' (getExecSize mod_)) as [s2 |] eqn:Ms;
        [| discriminate].
      intros H; inversion H; subst; clear H.
      cbn [existsb usesQW operands].
      rewrite (makeDWPair_noQW _ _ _ Md), (makeDWPair_noQW _ _ _ Ms).
      reflexivity.
  - cbn [andb orb].
    destruct (isQW src') eqn:Esq; cbn [Bool.eqb negb orb]; [discriminate |].
    assert (Hplain : existsb usesQW [mov mod_ dst' (reg src')] = false).
    { cbn [existsb usesQW operands]. rewrite Ed, Esq. reflexivity. }
    assert (Hty : forall t r, t <> q -> t <> uq -> isQW (setType t r) = false).
    { intros t r Hq Hu. unfold isQW. cbn [getType setType].
      destruct t; try reflexivity; congruence. }
    repeat match goal with
           | |- (if ?c then _ else _) = Some _ -> _ => destruct c
           | |- (match ?c with Some _ => _ | None => _ end) = Some _ -> _ =>
               destruct c eqn:?
           | |- None = Some _ -> _ => discriminate
           | |- Some _ = Some _ -> _ =>
               let H := fresh in intros H; inversion H; subst; clear H
           end;
      cbn [existsb usesQW operands];
      rewrite ?Ed, ?Esq, ?Hty by discriminate;
      try reflexivity;
      repeat match goal with
             | H : makeDWPair _ _ = Some _ |- _ =>
                 rewrite (makeDWPair_noQW _ _ _ H); clear H
             end; reflexivity.
Qed.

Lemma setType_noQW (t : DataType) (r : RegData) :
  t <> q -> t <> uq -> isQW (setType t r) = false.
Proof.
  intros Hq Hu. unfold isQW. cbn [getType setType].
  destruct t; try reflexivity; congruence.
Qed.

Lemma eshl_noQW isSigned hw_ge_XeHP DT mod_ dst src0 src1 strategy state ops :
  emulate64 strategy = true -> noemulate64_shift strategy = false ->
  eshl isSigned hw_ge_XeHP DT mod_ dst src0 src1 strategy state = Some ops ->
  existsb usesQW ops = false.
Proof.
  intros He Hn. unfold eshl. rewrite Hn.
  destruct (src1 =? 0); [apply emov_noQW; exact He |].
  rewrite He. cbn [negb]. rewrite !andb_true_r.
  set (dst' := applyDefaultType DT dst).
  set (src' := applyDefaultType DT src0).
  clearbody dst' src'.
  pose proof (setType_noQW ud (temp0 state)) as Hacc.
  destruct (isQW dst') eqn:Ed.
  - destruct (src1 >=? 32); [discriminate |].
    destruct (splitToDW_halves dst' Ed) as [Hlo Hhi].
    destruct (splitToDW dst') as [dstLo dstHi]. cbn [fst snd] in Hlo, Hhi.
    destruct (isQW src') eqn:Es.
    + destruct (splitToDW_halves src' Es) as [Slo Shi].
      destruct (splitToDW src') as [s0Lo s0Hi]. cbn [fst snd] in Slo, Shi.
      intros H; inversion H; subst; clear H.
      cbn [existsb usesQW operands].
      rewrite Hlo, Hhi, Slo, Shi, Hacc by discriminate. reflexivity.
    + intros H; inversion H; subst; clear H.
      cbn [existsb usesQW operands].
      rewrite Hlo, Es, setType_noQW by discriminate. reflexivity.
  - cbn [negb andb]. rewrite ?andb_true_r.
    destruct (isQW src') eqn:Es; intros H; inversion H; subst; clear H;
      cbn [existsb usesQW operands];
      rewrite ?Ed, ?Es, ?downgradeToDW_noQW; reflexivity.
Qed.

Lemma eshr_noQW isSigned hw_ge_XeHP DT mod_ dst src0 src1 strategy state ops :
  emulate64 strategy = true -> noemulate64_shift strategy = false ->
  eshr isSigned hw_ge_XeHP DT mod_ dst src0 src1 strategy state = Some ops ->
  existsb usesQW ops = false.
Proof.
  intros He Hn. unfold eshr. rewrite Hn.
  destruct (src1 =? 0); [apply emov_noQW; exact He |].
  rewrite He. cbn [negb]. rewrite !andb_true_r.
  set (dst' := applyDefaultType DT dst).
  set (src' := applyDefaultType DT src0).
  clearbody dst' src'.
  pose proof (setType_noQW ud (temp0 state)) as Hacc.
  destruct (isQW dst') eqn:Ed.
  - destruct (src1 >=? 32); [discriminate |].
    destruct (splitToDW_halves dst' Ed) as [Hlo Hhi].
    destruct (splitToDW dst') as [dstLo dstHi]. cbn [fst snd] in Hlo, Hhi.
    destruct (isQW src') eqn:Es.
    + destruct (splitToDW_halves src' Es) as [Slo Shi].
      destruct (splitToDW src') as [s0Lo s0Hi]. cbn [fst snd] in Slo, Shi.
      intros H; inversion H; subst; clear H.
      destruct (isSigned (getType src')); cbn [existsb usesQW operands];
        rewrite Hlo, Hhi, Slo, Shi, Hacc by discriminate; reflexivity.
    + assert (Hlo' : isQW (setType (getType dstHi) dstLo) = false).
      { unfold isQW in Hhi |- *. cbn [getType setType]. exact Hhi. }
      intros H; inversion H; subst; clear H.
      destruct (isSigned (getType src')); cbn [existsb usesQW operands];
        rewrite Hlo', Hhi, Es; reflexivity.
  - cbn [negb andb]. rewrite ?andb_true_r.
    destruct (isQW src') eqn:Es; intros H; inversion H; subst; clear H;
      match goal with
      | |- context [isSigned ?t] => destruct (isSigned t)
      end; cbn [existsb usesQW operands];
      rewrite ?Ed, ?Es, ?downgradeToDW_noQW; reflexivity.
Qed.

(** X23: with 64-bit emulation switched on for shifts, [eshl] and [eshr]
    use no 64-bit integer operand: every instruction they emit works on
    dwords or smaller.  A shift by 32 or more of a QW destination is
    refused, and nothing else is: the routine then throws before it has
    emitted anything. *)
Theorem emulated_shifts_emit_no_qword
    (isSigned : DataType -> bool) (hw_ge_XeHP : bool) (DT : DataType)
    (mod_ : InstructionModifier) (dst src0 : RegData) (src1 : Z)
    (strategy : EmulationStrategy) (state : EmulationState) :
  emulate64 strategy = true -> noemulate64_shift strategy = false ->
  (forall ops,
      eshl isSigned hw_ge_XeHP DT mod_ dst src0 src1 strategy state = Some ops ->
      existsb usesQW ops = false)
  /\ (forall ops,
         eshr isSigned hw_ge_XeHP DT mod_ dst src0 src1 strategy state = Some ops ->
         existsb usesQW ops = false)
  /\ (src1 <> 0 ->
      (eshl isSigned hw_ge_XeHP DT mod_ dst src0 src1 strategy state = None
       <-> isQW (applyDefaultType DT dst) = true /\ 32 <= src1)
      /\ (eshr isSigned hw_ge_XeHP DT mod_ dst src0 src1 strategy state = None
          <-> isQW (applyDefaultType DT dst) = true /\ 32 <= src1)).
Proof.
  intros He Hn.
  split; [intros ops; apply eshl_noQW; assumption |].
  split; [intros ops; apply eshr_noQW; assumption |].
  intros H0. apply Z.eqb_neq in H0.
  unfold eshl, eshr. rewrite H0, He, Hn. cbn [negb]. rewrite !andb_true_r.
  destruct (isQW (applyDefaultType DT dst)) eqn:Ed.
  - destruct (Z.geb_spec src1 32) as [Hge | Hlt].
    + split; split; intros _; first [reflexivity | split; [reflexivity | lia]].
    + destruct (splitToDW (applyDefaultType DT dst)) as [dstLo dstHi].
      destruct (isQW (applyDefaultType DT src0));
        destruct (splitToDW (applyDefaultType DT src0)) as [s0Lo s0Hi];
        split; split; first [discriminate | intros [_ Hc]; lia].
  - split; split; first [discriminate | intros [Hc _]; discriminate Hc].
Qed.

Lemma emulated_shifts_emit_no_qword_witness :
  existsb usesQW
    [shr emu_scalar (emu_sub ud 2 0) (emu_sub ud 8 2) 29;
     shl emu_scalar (emu_sub d 6 1) (emu_sub d 8 3) 3;
     shl emu_scalar (emu_sub ud 6 0) (emu_sub ud 8 2) 3;
     or_ emu_scalar (emu_sub d 6 1) (emu_sub ud 2 0) (emu_sub d 6 1)]
  = false.
Proof.
  refine (proj1 (emulated_shifts_emit_no_qword emu_isSigned false invalid
                   emu_scalar (emu_sub q 6 0) (emu_sub q 8 1) 3
                   emu_strategy64 (emu_state 2 3) eq_refl eq_refl) _ _).
  vm_compute. reflexivity.
Defined.

End EmulationFacts.

(** *** The emulated shifts on the register file *)

Lemma lor_disjoint (a b n : Z) :
  0 <= n -> 0 <= a < 2 ^ n -> b mod 2 ^ n = 0 -> Z.lor a b = a + b.
Proof.
  intros Hn Ha Hb.
  rewrite <- Z.add_lor_land.
  enough (Z.land a b = 0) as -> by lia.
  apply Z.bits_inj'. intros i Hi.
  rewrite Z.land_spec, Z.bits_0.
  destruct (Z.lt_ge_cases i n) as [Hlt | Hge].
  - replace b with (b / 2 ^ n * 2 ^ n)
      by (pose proof (Z.div_mod b (2 ^ n)); lia).
    rewrite Z.mul_pow2_bits_low by lia. apply andb_false_r.
  - replace a with (a mod 2 ^ n) by (apply Z.mod_small; lia).
    rewrite Z.mod_pow2_bits_high by lia. reflexivity.
Qed.

Lemma shift_counts (P : Z -> Prop) :
  (forall m : nat, (0 < m < 32)%nat -> P (Z.of_nat m)) ->
  forall n, 0 < n < 32 -> P n.
Proof.
  intros H n Hn. replace n with (Z.of_nat (Z.to_nat n)) by lia.
  apply H. lia.
Qed.

Ltac pow2_consts :=
  repeat match goal with
         | |- context [2 ^ ?k] =>
             let v := eval vm_compute in (2 ^ k) in
             progress change (2 ^ k) with v
         end.

(** Decides a goal on dwords for each shift count from 1 to 31. *)
Ltac by_shift_count n Hn :=
  revert n Hn; apply shift_counts;
  let m := fresh "m" in
  let Hm := fresh "Hm" in
  intros m Hm;
  do 32 (destruct m as [| m];
         [ first [ exfalso; lia
                 | pow2_consts; Z.div_mod_to_equations; lia ] |]);
  exfalso; lia.

Lemma shl64_halves (lo hi n : Z) :
  0 <= lo < 2 ^ 32 -> 0 <= hi < 2 ^ 32 -> 0 < n < 32 ->
  (Z.shiftl lo n) mod 2 ^ 32
  + 2 ^ 32 * Z.lor (Z.shiftr lo (32 - n)) ((Z.shiftl hi n) mod 2 ^ 32)
  = ((lo + 2 ^ 32 * hi) * 2 ^ n) mod 2 ^ 64.
Proof.
  intros Hlo Hhi Hn.
  rewrite !Z.shiftl_mul_pow2, Z.shiftr_div_pow2 by lia.
  change (2 ^ 32) with 4294967296 in *.
  rewrite (lor_disjoint _ _ n); try lia.
  - by_shift_count n Hn.
  - by_shift_count n Hn.
  - by_shift_count n Hn.
Qed.

Lemma shr64_low (lo n : Z) :
  0 <= lo < 2 ^ 32 -> 0 < n < 32 ->
  Z.lor ((Z.shiftl lo (32 - n)) mod 2 ^ 32) (Z.shiftr lo n)
  = lo / 2 ^ n + 2 ^ (32 - n) * (lo mod 2 ^ n).
Proof.
  intros Hlo Hn.
  rewrite Z.shiftl_mul_pow2, Z.shiftr_div_pow2 by lia.
  change (2 ^ 32) with 4294967296 in *.
  rewrite Z.lor_comm, (lor_disjoint _ _ (32 - n)); try lia.
  - by_shift_count n Hn.
  - by_shift_count n Hn.
  - by_shift_count n Hn.
Qed.

Section EmulatedShifts.
Import Emulation.

Lemma scalar_count (mod_ : InstructionModifier) (n : Z) :
  getExecSize mod_ = 1 -> 0 <= n < 32 -> scalar mod_ n = true.
Proof.
  intros H1 Hn. unfold scalar. rewrite H1.
  destruct (Z.leb_spec 0 n); [| lia]. destruct (Z.ltb_spec n 32); [| lia].
  reflexivity.
Qed.

Lemma splitToDW_dwords (r : RegData) :
  isQW r = true -> plain r = true ->
  dwordAt (fst (splitToDW r)) = Some (loOf r)
  /\ dwordAt (snd (splitToDW r)) = Some (hiOf r)
  /\ getType (fst (splitToDW r)) = ud.
Proof.
  unfold isQW, splitToDW, dwordAt, plain, loOf, hiOf.
  destruct r as [t b o vs wd hs ng inv]. cbn [getType getNeg isInvalid].
  destruct t; intros Hq Hp; try discriminate Hq;
    cbn [fst snd getType getBase getOffset getNeg isInvalid setType setOffset
         setRegion isDW];
    rewrite Hp; repeat split; reflexivity.
Qed.

Lemma readAt_writeAt (rf : Regs) (l l' : Z * Z) (v : Z) :
  readAt (writeAt rf l v) l'
  = if (fst l' =? fst l) && (snd l' =? snd l) then v else readAt rf l'.
Proof. reflexivity. Qed.

Lemma readAt_same (rf : Regs) (l : Z * Z) (v : Z) :
  readAt (writeAt rf l v) l = v.
Proof. rewrite readAt_writeAt, !Z.eqb_refl. reflexivity. Qed.

Lemma readAt_other (rf : Regs) (l l' : Z * Z) (v : Z) :
  l' <> l -> readAt (writeAt rf l v) l' = readAt rf l'.
Proof.
  intros Hne. rewrite readAt_writeAt.
  destruct (Z.eqb_spec (fst l') (fst l)) as [E1 | E1]; [| reflexivity].
  destruct (Z.eqb_spec (snd l') (snd l)) as [E2 | E2]; [| reflexivity].
  exfalso. apply Hne. destruct l, l'. cbn [fst snd] in *. congruence.
Qed.

Lemma applyDefaultType_QW (DT : DataType) (r : RegData) :
  isQW r = true -> applyDefaultType DT r = r.
Proof.
  unfold isQW, applyDefaultType. destruct (getType r); intros H;
    try discriminate H; reflexivity.
Qed.

Lemma acc_dword (r : RegData) :
  plain r = true -> dwordAt (setType ud r) = Some (getBase r, getOffset r).
Proof.
  intros Hp. unfold dwordAt, plain in *. cbn [isDW getType setType getNeg
    isInvalid getBase getOffset]. rewrite Hp. reflexivity.
Qed.

Lemma halves_differ (r r' : RegData) :
  loOf r <> hiOf r'.
Proof. unfold loOf, hiOf. intros H. inversion H. lia. Qed.

(** X24: the instructions [eshl] emits for a QW destination and a QW
    source shift the 64-bit source left by [n] (0 < n < 32) into the
    destination, modulo 2^64, whether the destination is the source
    itself or another QW, provided [temp[0]] is a register of its own.
    Apart from the destination and the dword of [temp[0]] they use, the
    register file is as before. *)
Theorem eshl_emulated_value
    (isSigned : DataType -> bool) (hw_ge_XeHP : bool) (DT : DataType)
    (mod_ : InstructionModifier) (dst src0 : RegData) (n : Z)
    (strategy : EmulationStrategy) (state : EmulationState) (rf : Regs) :
  emulate64 strategy = true -> noemulate64_shift strategy = false ->
  isQW dst = true -> isQW src0 = true ->
  plain dst = true -> plain src0 = true -> plain (temp0 state) = true ->
  getBase (temp0 state) <> getBase dst ->
  getBase (temp0 state) <> getBase src0 ->
  getExecSize mod_ = 1 -> 0 < n < 32 -> dwords rf ->
  exists ops rf',
    eshl isSigned hw_ge_XeHP DT mod_ dst src0 n strategy state = Some ops
    /\ run ops rf = Some rf'
    /\ qwordAt rf' dst = (qwordAt rf src0 * 2 ^ n) mod 2 ^ 64
    /\ dwords rf'
    /\ forall l, l <> loOf dst -> l <> hiOf dst ->
                 l <> (getBase (temp0 state), getOffset (temp0 state)) ->
                 readAt rf' l = readAt rf l.
Proof.
  intros He Hne Qd Qs Pd Ps Pt Btd Bts Hx Hn Hrf.
  unfold eshl. rewrite !applyDefaultType_QW by assumption.
  rewrite Qd, Qs, He, Hne.
  destruct (Z.eqb_spec n 0) as [| _]; [lia |].
  destruct (Z.geb_spec n 32) as [| _]; [lia |].
  cbn [andb negb].
  destruct (splitToDW_dwords dst Qd Pd) as (Dlo & Dhi & _).
  destruct (splitToDW_dwords src0 Qs Ps) as (Slo & Shi & _).
  destruct (splitToDW dst) as [dstLo dstHi].
  destruct (splitToDW src0) as [s0Lo s0Hi].
  cbn [fst snd] in Dlo, Dhi, Slo, Shi.
  pose proof (acc_dword _ Pt) as Hacc.
  pose proof (scalar_count mod_ n Hx ltac:(lia)) as Sn.
  pose proof (scalar_count mod_ (32 - n) Hx ltac:(lia)) as Sc.
  pose proof (scalar_count mod_ 0 Hx ltac:(lia)) as S0.
  set (accL := (getBase (temp0 state), getOffset (temp0 state))) in *.
  assert (Ald : accL <> loOf dst) by (unfold accL, loOf; congruence).
  assert (Ahd : accL <> hiOf dst) by (unfold accL, hiOf; congruence).
  assert (Als : accL <> loOf src0) by (unfold accL, loOf; congruence).
  assert (Ahs : accL <> hiOf src0) by (unfold accL, hiOf; congruence).
  eexists. eexists. split; [reflexivity |].
  cbn [run exec]. rewrite Hacc, Dlo, Dhi, Slo, Shi, Sn, Sc, S0.
  split; [reflexivity |].
  set (lo := readAt rf (loOf src0)).
  set (hi := readAt rf (hiOf src0)).
  assert (Hlo : 0 <= lo < 2 ^ 32) by apply Hrf.
  assert (Hhi : 0 <= hi < 2 ^ 32) by apply Hrf.
  assert (R1 : readAt (writeAt rf accL (Z.shiftr lo (32 - n))) (hiOf src0) = hi)
    by (apply readAt_other; congruence).
  rewrite R1.
  assert (R2 : readAt (writeAt (writeAt rf accL (Z.shiftr lo (32 - n)))
                               (hiOf dst) (wrap32 (Z.shiftl hi n)))
                      (loOf src0) = lo).
  { rewrite readAt_other by (pose proof (halves_differ src0 dst); congruence).
    apply readAt_other; congruence. }
  rewrite R2.
  set (rf3 := writeAt (writeAt (writeAt rf accL (Z.shiftr lo (32 - n)))
                               (hiOf dst) (wrap32 (Z.shiftl hi n)))
                      (loOf dst) (wrap32 (Z.shiftl lo n))).
  assert (R3 : readAt rf3 accL = Z.shiftr lo (32 - n)).
  { unfold rf3. rewrite !readAt_other by congruence. apply readAt_same. }
  assert (R4 : readAt rf3 (hiOf dst) = wrap32 (Z.shiftl hi n)).
  { unfold rf3.
    rewrite readAt_other by (pose proof (halves_differ dst dst); congruence).
    apply readAt_same. }
  rewrite R3, R4.
  pose proof (shl64_halves lo hi n Hlo Hhi Hn) as Hv.
  assert (Hw : 0 <= wrap32 (Z.shiftl lo n) < 2 ^ 32)
    by (apply Z.mod_pos_bound; lia).
  assert (Hor : 0 <= Z.lor (Z.shiftr lo (32 - n)) (wrap32 (Z.shiftl hi n))
                < 2 ^ 32).
  { split.
    - apply Z.lor_nonneg. split; [apply Z.shiftr_nonneg; lia |].
      apply Z.mod_pos_bound; lia.
    - unfold wrap32 in *.
      pose proof (Z.mod_pos_bound ((lo + 2 ^ 32 * hi) * 2 ^ n) (2 ^ 64)
                    eq_refl) as Hb.
      change (2 ^ 64) with 18446744073709551616 in *.
      change (2 ^ 32) with 4294967296 in *. lia. }
  split; [| split].
  - unfold qwordAt.
    rewrite readAt_other by (pose proof (halves_differ dst dst); congruence).
    unfold rf3 at 1. rewrite readAt_same, readAt_same.
    fold lo hi. unfold wrap32. exact Hv.
  - intros b o.
    change (0 <= readAt (writeAt rf3 (hiOf dst)
                           (Z.lor (Z.shiftr lo (32 - n)) (wrap32 (Z.shiftl hi n))))
                        (b, o) < 2 ^ 32).
    rewrite readAt_writeAt. destruct (_ && _); [exact Hor |].
    unfold rf3. rewrite readAt_writeAt. destruct (_ && _); [exact Hw |].
    rewrite readAt_writeAt.
    destruct (_ && _); [apply Z.mod_pos_bound; lia |].
    rewrite readAt_writeAt. destruct (_ && _); [| apply Hrf].
    split; [apply Z.shiftr_nonneg; lia |].
    rewrite Z.shiftr_div_pow2 by lia.
    apply Z.le_lt_trans with lo; [| lia].
    apply Z.div_le_upper_bound; [lia |].
    assert (1 <= 2 ^ (32 - n)) by (apply Z.pow_le_mono_r with (b := 0); lia).
    nia.
  - intros l Hl1 Hl2 Hl3. unfold rf3.
    rewrite !readAt_other by assumption. reflexivity.
Qed.

Lemma eshl_emulated_value_witness :
  exists ops rf',
    eshl emu_isSigned false invalid emu_scalar (emu_sub q 6 0) (emu_sub q 8 0)
         4 emu_strategy64 (emu_state 2 3) = Some ops
    /\ run ops (emu_regs 8 2147483649 1) = Some rf'
    /\ qwordAt rf' (emu_sub q 6 0)
       = (qwordAt (emu_regs 8 2147483649 1) (emu_sub q 8 0) * 2 ^ 4) mod 2 ^ 64
    /\ dwords rf'
    /\ forall l, l <> loOf (emu_sub q 6 0) -> l <> hiOf (emu_sub q 6 0) ->
                 l <> (getBase (temp0 (emu_state 2 3)),
                       getOffset (temp0 (emu_state 2 3))) ->
                 readAt rf' l = readAt (emu_regs 8 2147483649 1) l.
Proof.
  apply eshl_emulated_value; try reflexivity; try discriminate; try lia.
  intros b o. unfold emu_regs.
  destruct (b =? 8); [destruct (o =? 0); [| destruct (o =? 1)] |];
    split; (discriminate || reflexivity).
Defined.

Lemma splitToDW_hi_type (r : RegData) :
  getType (snd (splitToDW r))
  = match getType r with q => d | uq => ud | _ => invalid end.
Proof. unfold splitToDW. destruct (getType r); reflexivity. Qed.

(** X25: the instructions [eshr] emits for a QW destination and a QW
    source (0 < n < 32) put into the high dword of the destination the
    high dword of the source shifted right by [n], arithmetically when
    the source type is signed, and into the low dword the low dword of
    the source rotated right by [n]: its upper [n] bits are the lower [n]
    bits of the source's low dword, whatever the source's high dword
    holds. *)
Theorem eshr_emulated_value
    (isSigned : DataType -> bool) (hw_ge_XeHP : bool) (DT : DataType)
    (mod_ : InstructionModifier) (dst src0 : RegData) (n : Z)
    (strategy : EmulationStrategy) (state : EmulationState) (rf : Regs) :
  emulate64 strategy = true -> noemulate64_shift strategy = false ->
  isQW dst = true -> isQW src0 = true ->
  plain dst = true -> plain src0 = true -> plain (temp0 state) = true ->
  getBase (temp0 state) <> getBase dst ->
  getBase (temp0 state) <> getBase src0 ->
  getExecSize mod_ = 1 -> 0 < n < 32 -> dwords rf ->
  exists ops rf',
    eshr isSigned hw_ge_XeHP DT mod_ dst src0 n strategy state = Some ops
    /\ run ops rf = Some rf'
    /\ readAt rf' (loOf dst)
       = readAt rf (loOf src0) / 2 ^ n
         + 2 ^ (32 - n) * (readAt rf (loOf src0) mod 2 ^ n)
    /\ readAt rf' (hiOf dst)
       = (if isSigned (getType src0)
          then wrap32 (Z.shiftr
                         (valueAs (match getType src0 with q => d | _ => ud end)
                                  (readAt rf (hiOf src0))) n)
          else readAt rf (hiOf src0) / 2 ^ n)
    /\ forall l, l <> loOf dst -> l <> hiOf dst ->
                 l <> (getBase (temp0 state), getOffset (temp0 state)) ->
                 readAt rf' l = readAt rf l.
Proof.
  intros He Hne Qd Qs Pd Ps Pt Btd Bts Hx Hn Hrf.
  unfold eshr. rewrite !applyDefaultType_QW by assumption.
  rewrite Qd, Qs, He, Hne.
  destruct (Z.eqb_spec n 0) as [| _]; [lia |].
  destruct (Z.geb_spec n 32) as [| _]; [lia |].
  cbn [andb negb].
  destruct (splitToDW_dwords dst Qd Pd) as (Dlo & Dhi & _).
  destruct (splitToDW_dwords src0 Qs Ps) as (Slo & Shi & _).
  pose proof (splitToDW_hi_type src0) as Th.
  destruct (splitToDW dst) as [dstLo dstHi].
  destruct (splitToDW src0) as [s0Lo s0Hi].
  cbn [fst snd] in Dlo, Dhi, Slo, Shi, Th.
  pose proof (acc_dword _ Pt) as Hacc.
  pose proof (scalar_count mod_ n Hx ltac:(lia)) as Sn.
  pose proof (scalar_count mod_ (32 - n) Hx ltac:(lia)) as Sc.
  pose proof (scalar_count mod_ 0 Hx ltac:(lia)) as S0.
  set (accL := (getBase (temp0 state), getOffset (temp0 state))) in *.
  assert (Ald : accL <> loOf dst) by (unfold accL, loOf; congruence).
  assert (Ahd : accL <> hiOf dst) by (unfold accL, hiOf; congruence).
  assert (Als : accL <> loOf src0) by (unfold accL, loOf; congruence).
  assert (Ahs : accL <> hiOf src0) by (unfold accL, hiOf; congruence).
  pose proof (halves_differ dst dst) as Hdd.
  pose proof (halves_differ dst src0) as Hds.
  set (lo := readAt rf (loOf src0)).
  set (hi := readAt rf (hiOf src0)).
  assert (Hlo : 0 <= lo < 2 ^ 32) by apply Hrf.
  assert (Tq : match getType src0 with q => d | uq => ud | _ => invalid end
               = match getType src0 with q => d | _ => ud end).
  { unfold isQW in Qs. destruct (getType src0); try discriminate Qs;
      reflexivity. }
  rewrite Tq in Th. clear Tq.
  destruct (isSigned (getType src0));
    (eexists; eexists; split; [reflexivity |]);
    cbn [run exec]; rewrite Hacc, Dlo, Dhi, Slo, Shi, Sn, Sc, S0, ?Th;
    (split; [reflexivity |]);
    fold lo;
    rewrite (readAt_other rf accL (loOf src0)) by congruence; fold lo;
    rewrite (readAt_other _ (loOf dst) (hiOf src0)) by congruence;
    rewrite (readAt_other rf accL (hiOf src0)) by congruence; fold hi;
    rewrite (readAt_other _ (hiOf dst) accL) by congruence;
    rewrite (readAt_other _ (loOf dst) accL) by congruence;
    rewrite (readAt_same rf accL);
    rewrite (readAt_other _ (hiOf dst) (loOf dst)) by congruence;
    rewrite (readAt_same _ (loOf dst));
    (split; [| split]).
  all: try (rewrite readAt_same; unfold wrap32; apply shr64_low; assumption).
  all: try (rewrite readAt_other by congruence; rewrite readAt_same;
            rewrite ?Z.shiftr_div_pow2 by lia; reflexivity).
  all: intros l Hl1 Hl2 Hl3; rewrite !readAt_other by assumption; reflexivity.
Qed.

Lemma eshr_emulated_value_witness :
  exists ops rf',
    eshr emu_isSigned false invalid emu_scalar (emu_sub uq 6 0) (emu_sub uq 8 0)
         4 emu_strategy64 (emu_state 2 3) = Some ops
    /\ run ops (emu_regs 8 19 1) = Some rf'
    /\ readAt rf' (loOf (emu_sub uq 6 0))
       = readAt (emu_regs 8 19 1) (loOf (emu_sub uq 8 0)) / 2 ^ 4
         + 2 ^ (32 - 4)
           * (readAt (emu_regs 8 19 1) (loOf (emu_sub uq 8 0)) mod 2 ^ 4)
    /\ readAt rf' (hiOf (emu_sub uq 6 0))
       = (if emu_isSigned (getType (emu_sub uq 8 0))
          then wrap32 (Z.shiftr
                         (valueAs (match getType (emu_sub uq 8 0) with
                                   | q => d
                                   | _ => ud
                                   end)
                                  (readAt (emu_regs 8 19 1)
                                          (hiOf (emu_sub uq 8 0)))) 4)
          else readAt (emu_regs 8 19 1) (hiOf (emu_sub uq 8 0)) / 2 ^ 4)
    /\ forall l, l <> loOf (emu_sub uq 6 0) -> l <> hiOf (emu_sub uq 6 0) ->
                 l <> (getBase (temp0 (emu_state 2 3)),
                       getOffset (temp0 (emu_state 2 3))) ->
                 readAt rf' l = readAt (emu_regs 8 19 1) l.
Proof.
  apply eshr_emulated_value; try reflexivity; try discriminate; try lia.
  intros b o. unfold emu_regs.
  destruct (b =? 8); [destruct (o =? 0); [| destruct (o =? 1)] |];
    split; (discriminate || reflexivity).
Defined.

Lemma shl64_from_dword (s n : Z) :
  0 <= s < 2 ^ 32 -> 0 < n < 32 ->
  (Z.shiftl s n) mod 2 ^ 32 + 2 ^ 32 * Z.shiftr s (32 - n) = s * 2 ^ n.
Proof.
  intros Hs Hn.
  rewrite Z.shiftl_mul_pow2, Z.shiftr_div_pow2 by lia.
  change (2 ^ 32) with 4294967296 in *.
  by_shift_count n Hn.
Qed.

(** X26: for a QW destination and a dword source, the instructions
    [eshl] emits (0 < n < 32) leave in the destination the 32 bits of the
    source, read as an unsigned number whatever the source type, times
    2^n.  The source is read again after the low dword of the
    destination has been written, so it must not be that dword; it may
    be the high one. *)
Theorem eshl_emulated_from_dword
    (isSigned : DataType -> bool) (hw_ge_XeHP : bool) (DT : DataType)
    (mod_ : InstructionModifier) (dst src0 : RegData) (n : Z)
    (strategy : EmulationStrategy) (state : EmulationState) (rf : Regs) :
  emulate64 strategy = true -> noemulate64_shift strategy = false ->
  isQW dst = true -> isDW src0 = true ->
  plain dst = true -> plain src0 = true ->
  (getBase src0, getOffset src0) <> loOf dst ->
  getExecSize mod_ = 1 -> 0 < n < 32 -> dwords rf ->
  exists ops rf',
    eshl isSigned hw_ge_XeHP DT mod_ dst src0 n strategy state = Some ops
    /\ run ops rf = Some rf'
    /\ qwordAt rf' dst = readAt rf (getBase src0, getOffset src0) * 2 ^ n
    /\ forall l, l <> loOf dst -> l <> hiOf dst -> readAt rf' l = readAt rf l.
Proof.
  intros He Hne Qd Ds Pd Ps Hsl Hx Hn Hrf.
  assert (Qs : isQW src0 = false).
  { unfold isQW, isDW in *. destruct (getType src0); try discriminate Ds;
      reflexivity. }
  assert (Ts : applyDefaultType DT src0 = src0).
  { unfold applyDefaultType, isDW in *. destruct (getType src0);
      try discriminate Ds; reflexivity. }
  unfold eshl. rewrite Ts, applyDefaultType_QW by assumption.
  rewrite Qd, Qs, He, Hne.
  destruct (Z.eqb_spec n 0) as [| _]; [lia |].
  destruct (Z.geb_spec n 32) as [| _]; [lia |].
  cbn [andb negb].
  destruct (splitToDW_dwords dst Qd Pd) as (Dlo & Dhi & _).
  assert (Dhi' : dwordAt (setType ud (snd (splitToDW dst))) = Some (hiOf dst)).
  { revert Dhi. unfold dwordAt, plain, isDW. cbn [getType setType getNeg
      isInvalid getBase getOffset].
    destruct (getType (snd (splitToDW dst))); try discriminate;
      cbn [andb]; exact (fun H => H). }
  destruct (splitToDW dst) as [dstLo dstHi]. cbn [fst snd] in Dlo, Dhi, Dhi'.
  assert (Dsrc : dwordAt src0 = Some (getBase src0, getOffset src0)).
  { unfold dwordAt. rewrite Ds, Ps. reflexivity. }
  pose proof (scalar_count mod_ n Hx ltac:(lia)) as Sn.
  pose proof (scalar_count mod_ (32 - n) Hx ltac:(lia)) as Sc.
  set (sL := (getBase src0, getOffset src0)) in *.
  pose proof (halves_differ dst dst) as Hdd.
  eexists. eexists. split; [reflexivity |].
  cbn [run exec]. rewrite Dlo, Dhi', Dsrc, Sn, Sc.
  split; [reflexivity |].
  rewrite (readAt_other rf (loOf dst) sL) by assumption.
  split.
  - unfold qwordAt.
    rewrite readAt_other by congruence. rewrite !readAt_same.
    unfold wrap32. apply shl64_from_dword; [apply Hrf | assumption].
  - intros l Hl1 Hl2. rewrite !readAt_other by assumption. reflexivity.
Qed.

Lemma eshl_emulated_from_dword_witness :
  exists ops rf',
    eshl emu_isSigned false invalid emu_scalar (emu_sub q 8 0) (emu_sub d 8 1)
         4 emu_strategy64 (emu_state 2 3) = Some ops
    /\ run ops (emu_regs 8 7 4294967295) = Some rf'
    /\ qwordAt rf' (emu_sub q 8 0)
       = readAt (emu_regs 8 7 4294967295)
                (getBase (emu_sub d 8 1), getOffset (emu_sub d 8 1)) * 2 ^ 4
    /\ forall l, l <> loOf (emu_sub q 8 0) -> l <> hiOf (emu_sub q 8 0) ->
                 readAt rf' l = readAt (emu_regs 8 7 4294967295) l.
Proof.
  apply eshl_emulated_from_dword; try reflexivity; try discriminate; try lia.
  intros b o. unfold emu_regs.
  destruct (b =? 8); [destruct (o =? 0); [| destruct (o =? 1)] |];
    split; (discriminate || reflexivity).
Defined.

End EmulatedShifts.
(** ** The iterations visited by a whole run *)

Section RunPlan.
Variable period T : Z.
Hypothesis period_pos : 0 < period.










End RunPlan.





(** ** Lookahead of prefetches and outer products, and the time shift *)



(** ** The ShortLoop notification, step by step *)

Section ShortLoopSteps.
Context {P : Platform} {H : Helpers}.
Variable problem : Problem.t.
Variable strategy : Strategy.t.
Variable q : Queries.t.



End ShortLoopSteps.



(** ** The stream of two single-buffer SLM stores *)

Section SingleBufferStream.
Context {P : Platform} {H : Helpers}.
Variable strategy : Strategy.t.
Variable q : Queries.t.

Lemma kLoopBarrier_Normal_code f b b' :
  kLoopBarrier strategy f Normal b = (Ok tt, b') ->
  exists rebuilt, code b' = code b ++ barrierCode strategy f rebuilt.
Proof.
  destruct b as [st lc cd].
  unfold kLoopBarrier, barrierCode, kLoopGetBarrierHeader,
    kLoopAllocBarrierHeader, getFenceTemp, releaseFenceTemp.
  cbn [isWait isSignal KBarrierType_eqb].
  gen_run.
  all: intros E'; inversion E'; subst; clear E'; gen_simpl.
  all: rewrite <- ?app_assoc; cbn [app].
  all: first [ exists true; reflexivity | exists false; reflexivity ].
Qed.

Lemma wrdeps_code b b' :
  wrdeps strategy b = (Ok tt, b') -> code b' = code b ++ wrdepsCode strategy.
Proof.
  unfold wrdeps, wrdepsCode. intros E.
  apply bind_Ok in E. destruct E as ([] & b1 & E1 & E2).
  apply when_callHelper_code in E1, E2.
  rewrite E2, E1, <- app_assoc. reflexivity.
Qed.

Lemma slm1x2xFencedBarrier_code b b' :
  slm1x2xFencedBarrier strategy q b = (Ok tt, b') ->
  exists rebuilt, code b' = code b ++ preStoreCode strategy q rebuilt.
Proof.
  unfold slm1x2xFencedBarrier, preStoreCode.
  destruct (_ && _); [apply kLoopBarrier_Normal_code |].
  destruct (_ && _); [apply kLoopBarrier_Normal_code |].
  intros E. apply bind_Ok in E. destruct E as ([] & b1 & E1 & E2).
  apply wrdeps_code in E1.
  apply kLoopBarrier_Normal_code in E2. destruct E2 as (r & E2).
  exists r. rewrite E2, E1, <- app_assoc. reflexivity.
Qed.

Lemma doSLMStore_single_buffer_code h b b' :
  Strategy.slmBuffers strategy = 1 ->
  Strategy.slmA strategy || Strategy.slmB strategy = true ->
  doSLMStore strategy q h b = (Ok tt, b') ->
  exists r1 sumA sumB r2,
    code b' = code b ++ singleBufferStoreCode strategy q r1 sumA sumB r2.
Proof.
  intros Hn Hslm. unfold doSLMStore.
  replace (negb (Strategy.slmA strategy) && negb (Strategy.slmB strategy))
    with false
    by (destruct (Strategy.slmA strategy), (Strategy.slmB strategy);
        cbn in *; congruence).
  rewrite Hn. cbn [Z.eqb Pos.eqb]. intros E.
  apply bind_Ok in E. destruct E as ([] & b1 & E1 & E).
  apply bind_Ok in E. destruct E as ([] & b2 & E2 & E).
  apply bind_Ok in E. destruct E as ([] & b3 & E3 & E).
  apply bind_Ok in E. destruct E as (st & b3' & E0 & E).
  cbv [getState] in E0. injection E0 as Est Eb. subst st b3'.
  apply bind_Ok in E. destruct E as ([] & b4 & E4 & E).
  apply bind_Ok in E. destruct E as (st & b4' & E0 & E).
  cbv [getState] in E0. injection E0 as Est Eb. subst st b4'.
  apply bind_Ok in E. destruct E as ([] & b5 & E5 & E).
  apply slm1x2xFencedBarrier_code in E1. destruct E1 as (r1 & H1).
  apply when_callHelper_code in E2, E3, E4, E5.
  apply kLoopBarrier_Normal_code in E. destruct E as (r2 & H2).
  exists r1, (State.slmASums (State.params (state b3))),
    (State.slmBSums (State.params (state b4))), r2.
  rewrite H2, E5, E4, E3, E2, H1.
  unfold singleBufferStoreCode, storesCode, sumsCode.
  rewrite <- !app_assoc. reflexivity.
Qed.

Lemma barrierCode_no_store (p : Instr -> bool) f r :
  p slmfence = false -> p fencewait = false -> p barrierheader = false ->
  (forall h, p (barriermsg h) = false) -> p barrierwait = false ->
  (forall n, p (sync_bar n) = false) ->
  Forall (fun i => p i = false) (barrierCode strategy f r).
Proof.
  intros W1 W2 W3 W4 W5 W6. unfold barrierCode.
  destruct f, r, (nbM strategy), (nbN strategy); cbn [negb andb app];
    repeat constructor; auto.
Qed.

Lemma preStoreCode_no_store (p : Instr -> bool) r :
  p slmfence = false -> p fencewait = false -> p barrierheader = false ->
  (forall h, p (barriermsg h) = false) -> p barrierwait = false ->
  (forall n, p (sync_bar n) = false) ->
  p (call wrdepRanges_A) = false -> p (call wrdepRanges_B) = false ->
  Forall (fun i => p i = false) (preStoreCode strategy q r).
Proof.
  intros W1 W2 W3 W4 W5 W6 W7 W8. unfold preStoreCode.
  destruct (_ && _); [apply barrierCode_no_store; assumption |].
  destruct (_ && _); [apply barrierCode_no_store; assumption |].
  apply Forall_app. split; [| apply barrierCode_no_store; assumption].
  unfold wrdepsCode. apply Forall_app.
  split; destruct (_ && _); repeat constructor; assumption.
Qed.

Lemma sumsCode_no_store (p : Instr -> bool) sumA sumB :
  p (call accumulateSum_A) = false -> p (call accumulateSum_B) = false ->
  Forall (fun i => p i = false) (sumsCode sumA sumB).
Proof.
  intros W1 W2. unfold sumsCode.
  destruct sumA, sumB; repeat constructor; assumption.
Qed.

Lemma barrierCode_barriers f r :
  weight isBarrierWait (barrierCode strategy f r) = barriersPerSync strategy.
Proof.
  unfold barrierCode, barriersPerSync.
  destruct f, r, (nbM strategy), (nbN strategy); reflexivity.
Qed.

Lemma barrierCode_fences f r :
  weight isSLMFence (barrierCode strategy f r) = b2z f
  /\ weight isFenceWait (barrierCode strategy f r) = b2z f.
Proof.
  unfold barrierCode.
  destruct f, r, (nbM strategy), (nbN strategy); split; reflexivity.
Qed.

Lemma preStoreCode_barriers r :
  weight isBarrierWait (preStoreCode strategy q r) = barriersPerSync strategy.
Proof.
  unfold preStoreCode.
  destruct (_ && _); [apply barrierCode_barriers |].
  destruct (_ && _); [apply barrierCode_barriers |].
  rewrite weight_app, barrierCode_barriers. unfold wrdepsCode.
  destruct (_ && _), (_ && _); reflexivity.
Qed.

Lemma sumsCode_barriers sumA sumB : weight isBarrierWait (sumsCode sumA sumB) = 0.
Proof. destruct sumA, sumB; reflexivity. Qed.
End SingleBufferStream.

(** C6, as the code has it: with a single SLM buffer every [doSLMStore]
    is the barrier of [slm1x2xFencedBarrier], the stores, the sum
    accumulation and the fenced barrier [kLoopBarrier(true, Normal)] (an
    SLM fence and its wait, then the signal and the wait of each barrier
    in use).  So what lies between the stores of two consecutive calls is
    the fenced barrier of the first call followed by the barrier ahead of
    the second: two barriers, not one. *)
Theorem single_buffer_stores_two_barriers {P : Platform} {H : Helpers}
    (strategy : Strategy.t) (q : Queries.t) (h1 h2 : Z) (b b' : Build) :
  Strategy.slmBuffers strategy = 1 ->
  Strategy.slmA strategy || Strategy.slmB strategy = true ->
  (doSLMStore strategy q h1;; doSLMStore strategy q h2) b = (Ok tt, b') ->
  exists r1 sumA sumB r2 r1' sumA' sumB' r2',
    let first := singleBufferStoreCode strategy q r1 sumA sumB r2 in
    let second := singleBufferStoreCode strategy q r1' sumA' sumB' r2' in
    let fenced := barrierCode strategy true r2 in
    let ahead := preStoreCode strategy q r1' in
    code b' = code b ++ first ++ second
    /\ (Strategy.slmA strategy = true ->
        between isStoreAo (first ++ second)
        = (if Strategy.slmB strategy then [call storeMatrix_Bo] else [])
          ++ sumsCode sumA sumB ++ fenced ++ ahead)
    /\ (Strategy.slmB strategy = true ->
        between isStoreBo (first ++ second)
        = sumsCode sumA sumB ++ fenced ++ ahead
          ++ (if Strategy.slmA strategy then [call storeMatrix_Ao] else []))
    /\ (Strategy.slmA strategy = true ->
        weight isBarrierWait (between isStoreAo (first ++ second))
        = 2 * barriersPerSync strategy)
    /\ (Strategy.slmB strategy = true ->
        weight isBarrierWait (between isStoreBo (first ++ second))
        = 2 * barriersPerSync strategy)
    /\ weight isBarrierWait fenced = barriersPerSync strategy
    /\ weight isSLMFence fenced = 1
    /\ weight isFenceWait fenced = 1
    /\ weight isBarrierWait ahead = barriersPerSync strategy
    /\ 1 <= barriersPerSync strategy.
Proof.
  intros Hn Hslm E.
  apply bind_Ok in E. destruct E as ([] & b1 & E1 & E2).
  apply (doSLMStore_single_buffer_code strategy q h1 b b1 Hn Hslm) in E1.
  apply (doSLMStore_single_buffer_code strategy q h2 b1 b' Hn Hslm) in E2.
  destruct E1 as (r1 & sA & sB & r2 & C1).
  destruct E2 as (r1' & sA' & sB' & r2' & C2).
  exists r1, sA, sB, r2, r1', sA', sB', r2'. cbv zeta.
  assert (NA : forall r, Forall (fun i => isStoreAo i = false)
                           (preStoreCode strategy q r))
    by (intros r; apply preStoreCode_no_store; reflexivity).
  assert (NB : forall r, Forall (fun i => isStoreBo i = false)
                           (preStoreCode strategy q r))
    by (intros r; apply preStoreCode_no_store; reflexivity).
  assert (FA : forall r, Forall (fun i => isStoreAo i = false)
                           (barrierCode strategy true r))
    by (intros r; apply barrierCode_no_store; reflexivity).
  assert (FB : forall r, Forall (fun i => isStoreBo i = false)
                           (barrierCode strategy true r))
    by (intros r; apply barrierCode_no_store; reflexivity).
  assert (SA : forall x y, Forall (fun i => isStoreAo i = false) (sumsCode x y))
    by (intros x y; apply sumsCode_no_store; reflexivity).
  assert (SB : forall x y, Forall (fun i => isStoreBo i = false) (sumsCode x y))
    by (intros x y; apply sumsCode_no_store; reflexivity).
  assert (BetA : Strategy.slmA strategy = true ->
            between isStoreAo
              (singleBufferStoreCode strategy q r1 sA sB r2
               ++ singleBufferStoreCode strategy q r1' sA' sB' r2')
            = (if Strategy.slmB strategy then [call storeMatrix_Bo] else [])
              ++ sumsCode sA sB ++ barrierCode strategy true r2
              ++ preStoreCode strategy q r1').
  { intros Hx. unfold singleBufferStoreCode, storesCode. rewrite Hx.
    set (sb := if Strategy.slmB strategy then [call storeMatrix_Bo] else []).
    replace ((preStoreCode strategy q r1 ++ ([call storeMatrix_Ao] ++ sb)
              ++ sumsCode sA sB ++ barrierCode strategy true r2)
             ++ preStoreCode strategy q r1' ++ ([call storeMatrix_Ao] ++ sb)
             ++ sumsCode sA' sB' ++ barrierCode strategy true r2')
      with (preStoreCode strategy q r1
            ++ call storeMatrix_Ao
               :: (sb ++ sumsCode sA sB ++ barrierCode strategy true r2
                   ++ preStoreCode strategy q r1')
            ++ call storeMatrix_Ao
               :: (sb ++ sumsCode sA' sB' ++ barrierCode strategy true r2'))
      by (rewrite <- ?app_assoc; cbn [app]; rewrite <- ?app_assoc; reflexivity).
    assert (Hsb : Forall (fun i => isStoreAo i = false) sb)
      by (subst sb; destruct (Strategy.slmB strategy); repeat constructor).
    apply between_app; [apply NA | | reflexivity].
    rewrite !Forall_app. repeat split; auto. }
  assert (BetB : Strategy.slmB strategy = true ->
            between isStoreBo
              (singleBufferStoreCode strategy q r1 sA sB r2
               ++ singleBufferStoreCode strategy q r1' sA' sB' r2')
            = sumsCode sA sB ++ barrierCode strategy true r2
              ++ preStoreCode strategy q r1'
              ++ (if Strategy.slmA strategy then [call storeMatrix_Ao] else [])).
  { intros Hx. unfold singleBufferStoreCode, storesCode. rewrite Hx.
    set (sa := if Strategy.slmA strategy then [call storeMatrix_Ao] else []).
    replace ((preStoreCode strategy q r1 ++ (sa ++ [call storeMatrix_Bo])
              ++ sumsCode sA sB ++ barrierCode strategy true r2)
             ++ preStoreCode strategy q r1' ++ (sa ++ [call storeMatrix_Bo])
             ++ sumsCode sA' sB' ++ barrierCode strategy true r2')
      with ((preStoreCode strategy q r1 ++ sa)
            ++ call storeMatrix_Bo
               :: (sumsCode sA sB ++ barrierCode strategy true r2
                   ++ preStoreCode strategy q r1' ++ sa)
            ++ call storeMatrix_Bo
               :: (sumsCode sA' sB' ++ barrierCode strategy true r2'))
      by (rewrite <- ?app_assoc; cbn [app]; rewrite <- ?app_assoc; reflexivity).
    assert (Hsa : Forall (fun i => isStoreBo i = false) sa)
      by (subst sa; destruct (Strategy.slmA strategy); repeat constructor).
    apply between_app; [| | reflexivity];
      rewrite !Forall_app; repeat split; auto. }
  split; [rewrite C2, C1; rewrite <- !app_assoc; reflexivity |].
  split; [exact BetA |]. split; [exact BetB |].
  split.
  { intros Hx. rewrite (BetA Hx), !weight_app, sumsCode_barriers,
      barrierCode_barriers, preStoreCode_barriers.
    destruct (Strategy.slmB strategy); unfold weight;
      cbn [fold_right isBarrierWait]; lia. }
  split.
  { intros Hx. rewrite (BetB Hx), !weight_app, sumsCode_barriers,
      barrierCode_barriers, preStoreCode_barriers.
    destruct (Strategy.slmA strategy); unfold weight;
      cbn [fold_right isBarrierWait]; lia. }
  split; [apply barrierCode_barriers |].
  split; [exact (proj1 (barrierCode_fences strategy true r2)) |].
  split; [exact (proj2 (barrierCode_fences strategy true r2)) |].
  split; [apply preStoreCode_barriers | apply barriersPerSync_pos].
Qed.

Lemma two_stores_run :
  (doSLMStore (P := listPlatform) (H := idHelpers) strategy_1buf queries_dpas 0;;
   doSLMStore (P := listPlatform) (H := idHelpers) strategy_1buf queries_dpas 16)
    build0
  = (Ok tt, build_two_stores).
Proof. vm_compute. reflexivity. Defined.

Lemma single_buffer_stores_two_barriers_witness :
  exists r1 sumA sumB r2 r1' sumA' sumB' r2',
    code_two_stores
    = [] ++ singleBufferStoreCode strategy_1buf queries_dpas r1 sumA sumB r2
         ++ singleBufferStoreCode strategy_1buf queries_dpas r1' sumA' sumB' r2'
    /\ between isStoreAo
         (singleBufferStoreCode strategy_1buf queries_dpas r1 sumA sumB r2
          ++ singleBufferStoreCode strategy_1buf queries_dpas r1' sumA' sumB' r2')
       = [] ++ sumsCode sumA sumB ++ barrierCode strategy_1buf true r2
            ++ preStoreCode strategy_1buf queries_dpas r1'.
Proof.
  destruct (single_buffer_stores_two_barriers (P := listPlatform) (H := idHelpers)
              strategy_1buf queries_dpas 0 16 build0 build_two_stores
              eq_refl eq_refl two_stores_run)
    as (r1 & sA & sB & r2 & r1' & sA' & sB' & r2' & C & HA & _).
  exists r1, sA, sB, r2, r1', sA', sB', r2'.
  split; [exact C | exact (HA eq_refl)].
Defined.

(** One SLM buffer, two consecutive stores: the stream between the two
    stores holds two barriers (two [barriermsg], two [barrierwait]). *)
Lemma single_buffer_not_one_barrier :
  Strategy.slmBuffers strategy_1buf = 1
  /\ (doSLMStore (P := listPlatform) (H := idHelpers) strategy_1buf queries_dpas 0;;
      doSLMStore (P := listPlatform) (H := idHelpers) strategy_1buf queries_dpas 16)
       build0
     = (Ok tt, build_two_stores)
  /\ between isStoreAo (code build_two_stores)
     = [slmfence; fencewait; barriermsg barrierHeader_; barrierwait;
        barriermsg barrierHeader_; barrierwait]
  /\ weight isBarrierWait (between isStoreAo (code build_two_stores)) = 2
  /\ weight isBarrierMsg (between isStoreAo (code build_two_stores)) = 2
  /\ weight isBarrierWait (between isStoreAo (code build_two_stores)) <> 1.
Proof.
  split; [reflexivity |]. split; [exact two_stores_run |].
  split; [reflexivity |]. split; [reflexivity |].
  split; [reflexivity | discriminate].
Qed.
(** ** Remasking for the SLM copies *)

Ltac remask_run :=
  cbv beta iota zeta delta
    [SLMRemask.gemmSLMRemask SLMRemask.shareRemask SLMRemask.oremaskA
     SLMRemask.oremaskB SLMRemask.effCoopA_K SLMRemask.effCoopB_K
     SLMRemask.Ta_bits SLMRemask.Tb_bits SLMRemask.ka_slm SLMRemask.kb_slm
     SLMRemask.alloc_offK_A_ok SLMRemask.alloc_offK_B_ok
     rbind rwhen rret rcall rstub rthrow rallocate andb orb negb app];
  cbn [SLMRemask.bracketed SLMRemask.longEnough SLMRemask.leaked
       SLMRemask.setupLengths SLMRemask.Ta_bits SLMRemask.Tb_bits
       SLMRemask.ka_slm SLMRemask.kb_slm fst snd andb orb negb app].

(** X17: [gemmSLMRemask] throws the [stub()] exception exactly for
    backward problems, before any call, and otherwise runs out of
    registers exactly when a k-offset temporary it needs cannot be
    allocated, before any mask is set up.  When it returns its calls are
    well bracketed: each remask mask is set up before the layout is
    remasked with it and torn down afterwards with the same index, length
    and element width, one mask at a time; the mask in use is at least as
    long as the layout remasked with it; when A and B share a mask it is
    set up once, with the longer of [ka_slm] and [kb_slm], and otherwise
    A's mask has length [ka_slm] and B's [kb_slm]; and the temporaries
    allocated for the k offsets are released. *)
Theorem gemmSLMRemask_bracketed
    (problem : Problem.t) (cfg : SLMRemask.Config)
    (remaskA remaskB : bool) (kOffset : Z) :
  match SLMRemask.gemmSLMRemask problem cfg remaskA remaskB kOffset tt with
  | (Ok _, _, ops) =>
      Problem.backward problem = false
      /\ (SLMRemask.oremaskA cfg remaskA = true ->
          SLMRemask.alloc_offK_A_ok cfg = true)
      /\ (SLMRemask.oremaskB cfg remaskB = true ->
          SLMRemask.alloc_offK_B_ok cfg = true)
      /\ SLMRemask.bracketed cfg None ops = true
      /\ SLMRemask.longEnough cfg None ops = true
      /\ SLMRemask.setupLengths ops
         = (if SLMRemask.shareRemask cfg remaskA remaskB
            then [Z.max (SLMRemask.ka_slm cfg) (SLMRemask.kb_slm cfg)]
            else (if remaskA then [SLMRemask.ka_slm cfg] else [])
                 ++ (if remaskB then [SLMRemask.kb_slm cfg] else []))
      /\ SLMRemask.leaked (false, false) ops = (false, false)
  | (Throw e, _, ops) =>
      if Problem.backward problem
      then e = stub_exception /\ ops = []
      else e = out_of_registers_exception
           /\ (SLMRemask.oremaskA cfg remaskA
               && negb (SLMRemask.alloc_offK_A_ok cfg))
              || (SLMRemask.oremaskB cfg remaskB
                  && negb (SLMRemask.alloc_offK_B_ok cfg)) = true
           /\ ops = (if SLMRemask.oremaskA cfg remaskA
                        && SLMRemask.alloc_offK_A_ok cfg
                     then [SLMRemask.alloc_offK false;
                           SLMRemask.mulConstant_offK false
                             (SLMRemask.ka_slm cfg)]
                     else [])
  end.
Proof.
  destruct cfg as [cA cB ta tb ka kb okA okB].
  assert (La : (ka <=? Z.max ka kb) = true) by (apply Z.leb_le; lia).
  assert (Lb : (kb <=? Z.max ka kb) = true) by (apply Z.leb_le; lia).
  destruct (Problem.backward problem) eqn:Eb.
  - remask_run. rewrite Eb. cbv iota. split; reflexivity.
  - destruct remaskA, remaskB, cA, cB, okA, okB; remask_run;
      rewrite ?Eb; cbv iota;
      try destruct (Z.eqb_spec ta tb) as [E | E]; remask_run;
      rewrite ?Z.eqb_refl, ?Z.leb_refl, ?La, ?Lb; cbn [andb];
      repeat split; try reflexivity; try discriminate;
      try (subst; rewrite Z.eqb_refl; reflexivity).
Qed.

(** A and B sharing one mask: it is set up once, for 32 iterations, the
    longer of the two SLM copies. *)
Lemma gemmSLMRemask_shared_run :
  SLMRemask.gemmSLMRemask problem_int8 remask_cfg_shared true true 0 tt
  = (Ok tt, tt,
     [SLMRemask.setupTeardownRemask false 0 true 32 0 None;
      SLMRemask.remaskLayout 0 true;
      SLMRemask.remaskLayout 0 false;
      SLMRemask.setupTeardownRemask true 0 false 32 0 None;
      SLMRemask.safeRelease_offK false;
      SLMRemask.safeRelease_offK true]).
Proof. reflexivity. Qed.
(** ** Activation of the SLM remainders *)

Ltac bool_atom c :=
  lazymatch c with
  | negb ?x => bool_atom x
  | andb ?x ?y => first [bool_atom x | bool_atom y]
  | orb ?x ?y => first [bool_atom x | bool_atom y]
  | Bool.eqb ?x ?y => first [bool_atom x | bool_atom y]
  | true => fail
  | false => fail
  | _ => destruct c eqn:?
  end.

Ltac slm_unfold :=
  cbv beta iota zeta delta
    [wp rbind rwhen rret rcall rstub rthrow rallocate rget rput
     SLMRemainder.kLoopActivateSLMRemainder SLMRemainder.switchRemainder
     SLMRemainder.loadBothMasks SLMRemainder.modify
     SLMRemainder.needKSLMAMask SLMRemainder.needKSLMBMask
     SLMRemainder.needKSLMA SLMRemainder.needKSLMB
     SLMRemainder.shareKMasksAiBi
     SLMRemainder.set_kSLMStorage_valid SLMRemainder.set_kSLMA_valid
     SLMRemainder.set_kSLMB_valid SLMRemainder.set_initSLMKOffset
     SLMRemainder.set_remActiveSLM SLMRemainder.unshareAo
     SLMRemainder.unshareBo SLMRemainder.fillAoRem SLMRemainder.fillBoRem
     SLMRemainder.set_slmRemask
     SLMRemainder.kSLMStorage_valid SLMRemainder.kSLMA_valid
     SLMRemainder.kSLMB_valid SLMRemainder.initSLMKOffset
     SLMRemainder.remActiveSLM SLMRemainder.aioShareRem
     SLMRemainder.bioShareRem SLMRemainder.Ao_regsRem_empty
     SLMRemainder.Bo_regsRem_empty SLMRemainder.slmRemaskA
     SLMRemainder.slmRemaskB
     SLMRemainder.Ai_incrementalRem SLMRemainder.Bi_incrementalRem
     SLMRemainder.Ai_remIncrCopy SLMRemainder.Bi_remIncrCopy
     SLMRemainder.Ai_lateKRem SLMRemainder.Bi_lateKRem
     SLMRemainder.effCoopA_K SLMRemainder.effCoopB_K
     SLMRemainder.kMasksAi_empty SLMRemainder.kMasksBi_empty
     SLMRemainder.Ai_padded SLMRemainder.Bi_padded
     SLMRemainder.aioShare SLMRemainder.bioShare
     SLMRemainder.crosspackDiffersA SLMRemainder.crosspackDiffersB
     SLMRemainder.assignMasksAi_ok SLMRemainder.assignMasksBi_ok
     SLMRemainder.needsRemaskAi SLMRemainder.needsRemaskBi
     SLMRemainder.alloc_kSLMStorage_ok SLMRemainder.allocRange_Ao_ok
     SLMRemainder.allocRange_Bo_ok
     app];
  cbn [andb orb negb Bool.eqb].

Ltac slm_run :=
  slm_unfold;
  repeat (match goal with
          | |- context [if ?c then _ else _] => bool_atom c
          end; slm_unfold).

(** X19: [kLoopActivateSLMRemainder] leaves [remActiveSLM] equal to
    [active] whenever it returns, and it never returns from switching an
    active remainder off under a late k remainder: then it throws the
    [stub()] exception before any call and any change.  While activating
    it throws for one of two reasons: the [stub()] exception, when it was
    switching the remainder on and an [assignMasks] failed; or
    [out_of_registers_exception], when one of its three allocations found
    no register: the counter storage (only without preactivation, when no
    storage is allocated and a counter is needed), or the registers of a
    remainder copy of [Ao] or [Bo] (only when switching the remainder on
    under a late k remainder, with shared registers, no remainder
    registers yet and a different crosspack). *)
Theorem slm_remainder_switch
    (problem : Problem.t) (strategy : Strategy.t) (q : Queries.t)
    (cfg : SLMRemainder.Config) (active preactivate : bool) (kOffset : Z)
    (s : SLMRemainder.Flags) :
  match SLMRemainder.kLoopActivateSLMRemainder problem strategy q cfg
          active preactivate kOffset s with
  | (Ok _, s', _) =>
      SLMRemainder.remActiveSLM s' = active
      /\ negb active && SLMRemainder.remActiveSLM s
         && (SLMRemainder.Ai_lateKRem cfg || SLMRemainder.Bi_lateKRem cfg)
         = false
  | (Throw e, s', calls) =>
      if active
      then (e = stub_exception
            /\ SLMRemainder.remActiveSLM s = false
            /\ (SLMRemainder.Ai_lateKRem cfg && negb (SLMRemainder.Ai_padded cfg)
                && negb (SLMRemainder.assignMasksAi_ok cfg))
               || (SLMRemainder.Bi_lateKRem cfg && negb (SLMRemainder.Bi_padded cfg)
                   && negb (SLMRemainder.assignMasksBi_ok cfg)) = true)
           \/ (e = out_of_registers_exception
               /\ (negb preactivate && negb (SLMRemainder.kSLMStorage_valid s)
                   && (SLMRemainder.needKSLMA cfg || SLMRemainder.needKSLMB cfg)
                   && negb (SLMRemainder.alloc_kSLMStorage_ok cfg))
                  || (negb (SLMRemainder.remActiveSLM s)
                      && SLMRemainder.Ai_lateKRem cfg
                      && negb (SLMRemainder.Ai_padded cfg)
                      && SLMRemainder.aioShare cfg
                      && SLMRemainder.Ao_regsRem_empty s
                      && SLMRemainder.crosspackDiffersA cfg
                      && negb (SLMRemainder.allocRange_Ao_ok cfg))
                  || (negb (SLMRemainder.remActiveSLM s)
                      && SLMRemainder.Bi_lateKRem cfg
                      && negb (SLMRemainder.Bi_padded cfg)
                      && SLMRemainder.bioShare cfg
                      && SLMRemainder.Bo_regsRem_empty s
                      && SLMRemainder.crosspackDiffersB cfg
                      && negb (SLMRemainder.allocRange_Bo_ok cfg)) = true)
      else e = stub_exception
           /\ SLMRemainder.remActiveSLM s = true
           /\ (SLMRemainder.Ai_lateKRem cfg || SLMRemainder.Bi_lateKRem cfg) = true
           /\ s' = s /\ calls = []
  end.
Proof.
  destruct active.
  - destruct cfg, s. slm_run.
    all: cbv [SLMRemainder.needKSLMA SLMRemainder.needKSLMB
              SLMRemainder.needKSLMAMask SLMRemainder.needKSLMBMask
              SLMRemainder.Ai_incrementalRem SLMRemainder.Bi_incrementalRem
              SLMRemainder.Ai_lateKRem SLMRemainder.Bi_lateKRem
              SLMRemainder.effCoopA_K SLMRemainder.effCoopB_K
              andb orb negb].
    all: first [ split; reflexivity
               | left; repeat split; reflexivity
               | right; repeat split; reflexivity ].
  - destruct cfg, s. slm_run. all: repeat split; reflexivity.
Qed.

(** X20: a preactivation ([preactivate = true]) allocates and computes no
    SLM remainder counter and loads no k mask, whether it returns or
    throws, and it leaves [kSLMStorage], [kSLMA], [kSLMB] and
    [initSLMKOffset] as they were. *)
Theorem slm_preactivate_no_counters
    (problem : Problem.t) (strategy : Strategy.t) (q : Queries.t)
    (cfg : SLMRemainder.Config) (active : bool) (kOffset : Z)
    (s : SLMRemainder.Flags) :
  match SLMRemainder.kLoopActivateSLMRemainder problem strategy q cfg
          active true kOffset s with
  | (_, s', calls) =>
      existsb SLMRemainder.touchesCounters calls = false
      /\ SLMRemainder.kSLMStorage_valid s' = SLMRemainder.kSLMStorage_valid s
      /\ SLMRemainder.kSLMA_valid s' = SLMRemainder.kSLMA_valid s
      /\ SLMRemainder.kSLMB_valid s' = SLMRemainder.kSLMB_valid s
      /\ SLMRemainder.initSLMKOffset s' = SLMRemainder.initSLMKOffset s
  end.
Proof.
  destruct cfg, s, active; slm_run; repeat split; reflexivity.
Qed.

(** X21: k masks taken from an SLM remainder counter are loaded with the
    offset [initSLMKOffset - kOffset], the k offset of this call relative
    to the one that was added to the counter when it was computed.  An
    activation without preactivation that finds no counter storage
    allocated records its own [kOffset], after allocating and computing
    the counters the configuration needs, so that masks it loads from a
    counter have offset 0; any other call, and such a call that finds no
    register for the counters, leaves [initSLMKOffset] as it was. *)
Theorem slm_mask_offsets
    (problem : Problem.t) (strategy : Strategy.t) (q : Queries.t)
    (cfg : SLMRemainder.Config) (active preactivate : bool) (kOffset : Z)
    (s : SLMRemainder.Flags) :
  match SLMRemainder.kLoopActivateSLMRemainder problem strategy q cfg
          active preactivate kOffset s with
  | (_, s', calls) =>
      existsb (SLMRemainder.loadsFromKSLMOffBy
                 (SLMRemainder.initSLMKOffset s' - kOffset)) calls = false
      /\ SLMRemainder.initSLMKOffset s'
         = (if active && negb preactivate
               && negb (SLMRemainder.kSLMStorage_valid s)
               && (negb (SLMRemainder.needKSLMA cfg || SLMRemainder.needKSLMB cfg)
                   || SLMRemainder.alloc_kSLMStorage_ok cfg)
            then kOffset else SLMRemainder.initSLMKOffset s)
  end.
Proof.
  assert (Hoff : forall k i, (- k + i =? i - k) = true)
    by (intros; apply Z.eqb_eq; lia).
  set (recorded := active && negb preactivate
                   && negb (SLMRemainder.kSLMStorage_valid s)
                   && (negb (SLMRemainder.needKSLMA cfg
                             || SLMRemainder.needKSLMB cfg)
                       || SLMRemainder.alloc_kSLMStorage_ok cfg)).
  set (post := fun (s' : SLMRemainder.Flags) (calls : list SLMRemainder.Call) =>
         existsb (SLMRemainder.loadsFromKSLMOffBy
                    (SLMRemainder.initSLMKOffset s' - kOffset)) calls = false
         /\ SLMRemainder.initSLMKOffset s'
            = (if recorded then kOffset else SLMRemainder.initSLMKOffset s)).
  enough (H : wp (SLMRemainder.kLoopActivateSLMRemainder problem strategy q cfg
                    active preactivate kOffset)
                 (fun _ => post) (fun _ => post) s).
  { unfold wp in H.
    destruct (SLMRemainder.kLoopActivateSLMRemainder problem strategy q cfg
                active preactivate kOffset s) as [[[a | e] s'] calls];
      exact H. }
  unfold SLMRemainder.kLoopActivateSLMRemainder.
  apply wp_bind_get, wp_bind.
  apply wp_conseq
    with (Q := fun _ s1 l1 =>
                 (forall o, existsb (SLMRemainder.loadsFromKSLMOffBy o) l1 = false)
                 /\ SLMRemainder.initSLMKOffset s1
                    = (if recorded then kOffset
                       else SLMRemainder.initSLMKOffset s))
         (E := fun _ s1 l1 =>
                 (forall o, existsb (SLMRemainder.loadsFromKSLMOffBy o) l1 = false)
                 /\ SLMRemainder.initSLMKOffset s1
                    = (if recorded then kOffset
                       else SLMRemainder.initSLMKOffset s)).
  - subst recorded post. destruct cfg, s. slm_run.
    all: split; [intros o |]; reflexivity.
  - intros _ s1 l1 [Hl1 E1]. apply wp_bind_get.
    assert (Hcut : forall (r : Result unit * SLMRemainder.Flags
                               * list SLMRemainder.Call),
               (let '(_, s', l2) := r in
                existsb (SLMRemainder.loadsFromKSLMOffBy
                           (SLMRemainder.initSLMKOffset s1 - kOffset)) l2
                = false
                /\ SLMRemainder.initSLMKOffset s' = SLMRemainder.initSLMKOffset s1) ->
               match r with
               | (Ok _, s', l2) => post s' (l1 ++ l2)
               | (Throw _, s', l2) => post s' (l1 ++ l2)
               end).
    { intros [[r s'] l2] [H2 E2].
      assert (post s' (l1 ++ l2)).
      { subst post. cbv beta.
        rewrite existsb_app, Hl1, E2, H2, E1. split; reflexivity. }
      destruct r; assumption. }
    unfold wp. apply Hcut. clear Hcut Hl1 E1 l1. clear post recorded.
    destruct cfg, s1. slm_run.
    all: cbv [existsb SLMRemainder.loadsFromKSLMOffBy];
      rewrite ?Hoff; split; reflexivity.
  - intros _ s1 l1 [Hl1 E1]. subst post. cbv beta.
    rewrite Hl1. split; [reflexivity | exact E1].
Qed.

Ltac bools_of H :=
  repeat match type of H with
         | context [?b] =>
             is_var b;
             lazymatch type of b with bool => destruct b end
         end.

Ltac slm_flags H :=
  cbv [SLMRemainder.countersReady SLMRemainder.needKSLMA
       SLMRemainder.needKSLMB SLMRemainder.needKSLMAMask
       SLMRemainder.needKSLMBMask
       SLMRemainder.kSLMStorage_valid SLMRemainder.kSLMA_valid
       SLMRemainder.kSLMB_valid
       SLMRemainder.Ai_incrementalRem SLMRemainder.Bi_incrementalRem
       SLMRemainder.Ai_lateKRem SLMRemainder.Bi_lateKRem
       SLMRemainder.effCoopA_K SLMRemainder.effCoopB_K] in H.

(** X22: k masks are never loaded from an SLM remainder counter that has
    not been computed.  If on entry the counters the configuration needs
    are valid whenever [kSLMStorage] is allocated, the same holds
    afterwards, and a counter from which this call loaded masks is valid. *)
Theorem slm_masks_from_computed_counters
    (problem : Problem.t) (strategy : Strategy.t) (q : Queries.t)
    (cfg : SLMRemainder.Config) (active preactivate : bool) (kOffset : Z)
    (s : SLMRemainder.Flags) :
  SLMRemainder.countersReady cfg s = true ->
  match SLMRemainder.kLoopActivateSLMRemainder problem strategy q cfg
          active preactivate kOffset s with
  | (_, s', calls) =>
      SLMRemainder.countersReady cfg s' = true
      /\ (existsb (SLMRemainder.loadsFromCounter false) calls = true ->
          SLMRemainder.kSLMA_valid s' = true)
      /\ (existsb (SLMRemainder.loadsFromCounter true) calls = true ->
          SLMRemainder.kSLMB_valid s' = true)
  end.
Proof.
  intros Hs.
  set (ready := fun s1 : SLMRemainder.Flags =>
         SLMRemainder.countersReady cfg s1 = true
         /\ (active && negb preactivate
             && (SLMRemainder.needKSLMA cfg || SLMRemainder.needKSLMB cfg) = true ->
             SLMRemainder.kSLMStorage_valid s1 = true)).
  set (post := fun (s' : SLMRemainder.Flags) (calls : list SLMRemainder.Call) =>
         SLMRemainder.countersReady cfg s' = true
         /\ (existsb (SLMRemainder.loadsFromCounter false) calls = true ->
             SLMRemainder.kSLMA_valid s' = true)
         /\ (existsb (SLMRemainder.loadsFromCounter true) calls = true ->
             SLMRemainder.kSLMB_valid s' = true)).
  enough (H : wp (SLMRemainder.kLoopActivateSLMRemainder problem strategy q cfg
                    active preactivate kOffset)
                 (fun _ => post) (fun _ => post) s).
  { unfold wp in H.
    destruct (SLMRemainder.kLoopActivateSLMRemainder problem strategy q cfg
                active preactivate kOffset s) as [[[a | e] s'] calls];
      exact H. }
  unfold SLMRemainder.kLoopActivateSLMRemainder.
  apply wp_bind_get, wp_bind.
  apply wp_conseq
    with (Q := fun _ s1 l1 =>
                 ready s1
                 /\ forall b, existsb (SLMRemainder.loadsFromCounter b) l1 = false)
         (E := fun _ s1 l1 => s1 = s /\ l1 = []).
  - subst ready. destruct cfg, s. slm_flags Hs. slm_run.
    all: repeat split; intros; try reflexivity; try discriminate.
    all: cbn [andb orb negb] in Hs; bools_of Hs;
      first [discriminate | reflexivity].
  - intros _ s1 l1 [[R1 V1] Hl1]. apply wp_bind_get.
    enough (H : wp (if Bool.eqb (SLMRemainder.remActiveSLM s1) active
                    then rwhen (active && negb preactivate)
                           (rwhen (negb (SLMRemainder.kMasksAi_empty cfg)
                                   || negb (SLMRemainder.kMasksBi_empty cfg))
                                  (rcall SLMRemainder.wipeActiveVFlags);;;
                            SLMRemainder.loadBothMasks cfg kOffset)
                    else SLMRemainder.switchRemainder problem strategy q cfg
                           active preactivate kOffset)
                   (fun _ => post) (fun _ => post) s1).
    { apply wp_conseq with (1 := H); subst post; cbv beta;
        intros _ s2 l2 (R2 & A2 & B2); rewrite !existsb_app, !Hl1;
        repeat split; assumption. }
    clear Hs Hl1 l1. subst post.
    destruct cfg, s1. slm_flags V1. slm_run.
    all: cbv [existsb SLMRemainder.loadsFromCounter Bool.eqb orb];
      repeat split; intros; try exact R1; try discriminate.
    all: slm_flags R1; rewrite ?orb_true_r in R1, V1;
      cbn [andb orb negb] in R1, V1.
    all: bools_of R1; try discriminate; try reflexivity.
    all: bools_of V1; discriminate V1; reflexivity.
  - intros _ s1 l1 [-> ->]. subst post. cbv beta.
    cbn [existsb]. repeat split; [exact Hs | discriminate | discriminate].
Qed.

Lemma slm_masks_from_computed_counters_witness :
  SLMRemainder.countersReady slm_cfg_lateA slm_flags_fresh = true
  /\ match SLMRemainder.kLoopActivateSLMRemainder problem_int8 strategy_slmAB
             queries_dpas slm_cfg_lateA true false 4 slm_flags_fresh with
     | (_, s', calls) =>
         SLMRemainder.countersReady slm_cfg_lateA s' = true
         /\ (existsb (SLMRemainder.loadsFromCounter false) calls = true ->
             SLMRemainder.kSLMA_valid s' = true)
         /\ (existsb (SLMRemainder.loadsFromCounter true) calls = true ->
             SLMRemainder.kSLMB_valid s' = true)
     end.
Proof.
  split; [reflexivity |].
  apply slm_masks_from_computed_counters. reflexivity.
Defined.

